(** * Volatility forecasting and backtesting: a shallow embedding

    The development follows the Python sources
    - [src/returns.py]                (log returns),
    - [src/vol_models/historical.py]  (rolling sample variance),
    - [src/vol_models/ewma.py]        (exponentially weighted variance),
    - [src/evaluation.py]             (walk-forward harness, realized
                                       variance, loss functions, scoring).

    Numbers.  A Python [float] is idealised as a real number or the
    undefined marker [NaN]; arithmetic is exact and an operation applied
    outside its real domain (division by zero, logarithm of a non-positive
    number, square root of a negative number) yields [NaN].  Rounding,
    overflow and the infinities of IEEE arithmetic are not represented.

    Exceptions.  A Python call either returns a value or raises; this is
    the type [result].

    Series.  A [pd.Series] is the list of its (label, value) rows in
    storage order. *)

From Stdlib Require Import String Reals Lra Lia ZArith List Bool.
Import ListNotations.

Open Scope string_scope.
Open Scope list_scope.
Open Scope R_scope.

(** ** Exceptions *)

Inductive error : Type :=
| ValueError (msg : string)
| KeyError
| IndexError.

Inductive result (A : Type) : Type :=
| Ok (a : A)
| Raise (e : error).

Arguments Ok {A} a.
Arguments Raise {A} e.

Definition bind {A B : Type} (m : result A) (k : A -> result B) : result B :=
  match m with
  | Ok a => k a
  | Raise e => Raise e
  end.

Notation "x <- m ;; k" := (bind m (fun x => k))
  (at level 61, m at next level, right associativity).

Definition raises {A : Type} (m : result A) : Prop :=
  exists e, m = Raise e.

(** ** Floating-point values *)

Inductive num : Type :=
| NaN
| Fin (x : R).

Definition isnan (a : num) : bool :=
  match a with NaN => true | Fin _ => false end.

Definition lift1 (f : R -> R) (a : num) : num :=
  match a with Fin x => Fin (f x) | NaN => NaN end.

Definition lift2 (f : R -> R -> R) (a b : num) : num :=
  match a, b with
  | Fin x, Fin y => Fin (f x y)
  | _, _ => NaN
  end.

Definition fadd : num -> num -> num := lift2 Rplus.
Definition fsub : num -> num -> num := lift2 Rminus.
Definition fmul : num -> num -> num := lift2 Rmult.

(** [a / b]; a zero divisor leaves the real domain. *)
Definition fdiv (a b : num) : num :=
  match a, b with
  | Fin x, Fin y => if Req_dec_T y 0 then NaN else Fin (x / y)
  | _, _ => NaN
  end.

(** [a ** 2] *)
Definition fsq (a : num) : num := fmul a a.

(** [np.sqrt] *)
Definition fsqrt (a : num) : num :=
  match a with
  | Fin x => if Rlt_dec x 0 then NaN else Fin (sqrt x)
  | NaN => NaN
  end.

(** [np.log] *)
Definition flog (a : num) : num :=
  match a with
  | Fin x => if Rlt_dec 0 x then Fin (ln x) else NaN
  | NaN => NaN
  end.

(** [.abs()] *)
Definition fabs : num -> num := lift1 Rabs.

(** [.clip(lower=eps)]: an undefined entry stays undefined. *)
Definition clip_lower (eps : R) : num -> num := lift1 (fun x => Rmax x eps).

(** Conversion of a Python [int]. *)
Definition of_int (z : Z) : num := Fin (IZR z).

(** ** Series *)

Definition series (T : Type) : Type := list (T * num).

Definition index {T V : Type} (s : list (T * V)) : list T := map fst s.
Definition values {T V : Type} (s : list (T * V)) : list V := map snd s.

Definition smap {T : Type} (f : num -> num) (s : series T) : series T :=
  map (fun p => (fst p, f (snd p))) s.

(** [.dropna()] *)
Definition dropna {T : Type} (s : series T) : series T :=
  filter (fun p => negb (isnan (snd p))) s.

(** The real numbers carried by a list of values, undefined entries
    skipped. *)
Fixpoint reals (l : list num) : list R :=
  match l with
  | [] => []
  | NaN :: l' => reals l'
  | Fin x :: l' => x :: reals l'
  end.

Definition Rsum (l : list R) : R := fold_right Rplus 0 l.

(** [.mean()] with pandas' default [skipna=True]: the mean of the defined
    entries, undefined when there is none. *)
Definition mean (l : list num) : num :=
  match reals l with
  | [] => NaN
  | x :: xs => Fin (Rsum (x :: xs) / INR (length (x :: xs)))
  end.

(** [range(a, b)] over natural numbers. *)
Definition range (a b : nat) : list nat := seq a (b - a).

(** ** Arrays ([np.zeros], item read and write) *)

Definition zeros (n : nat) : list num := repeat (Fin 0) n.

Definition getitem {A : Type} (a : list A) (i : nat) : result A :=
  match nth_error a i with
  | Some v => Ok v
  | None => Raise IndexError
  end.

Fixpoint set_nth {A : Type} (a : list A) (i : nat) (v : A) : list A :=
  match a, i with
  | [], _ => []
  | _ :: a', O => v :: a'
  | x :: a', S i' => x :: set_nth a' i' v
  end.

Definition setitem {A : Type} (a : list A) (i : nat) (v : A) : result (list A) :=
  if (i <? length a)%nat then Ok (set_nth a i v) else Raise IndexError.

(** [for x in xs: st = body x st], stopping at the first exception. *)
Fixpoint for_each {A S : Type} (xs : list A) (body : A -> S -> result S)
  (st : S) : result S :=
  match xs with
  | [] => Ok st
  | x :: xs' => st' <- body x st ;; for_each xs' body st'
  end.

(** ** [src/vol_models/ewma.py] *)

Module Ewma.

Section WithLabels.
Context {T : Type}.

(** [0 < lam < 1] *)
Definition lam_in_range (lam : num) : bool :=
  match lam with
  | Fin l => if Rlt_dec 0 l then (if Rlt_dec l 1 then true else false) else false
  | NaN => false
  end.

(** Body of the loop [for i in range(1, len(r2))]. *)
Definition step (lam : num) (r2 : list num) (i : nat) (var : list num)
  : result (list num) :=
  prev <- getitem var (i - 1) ;;
  r <- getitem r2 (i - 1) ;;
  setitem var i (fadd (fmul lam prev) (fmul (fsub (Fin 1) lam) r)).

Definition ewma_variance (returns : series T) (lam : num)
  (initial_variance : option num) : result (series T) :=
  if negb (lam_in_range lam) then Raise (ValueError "lambda must be in (0,1)")
  else
    let r2 := smap fsq (dropna returns) in
    let var := zeros (length r2) in
    let initial_variance :=
      match initial_variance with
      | None =>
          if (10 <=? length r2)%nat then mean (firstn 10 (values r2))
          else mean (values r2)
      | Some v => v
      end in
    var <- setitem var 0 initial_variance ;;
    var <- for_each (range 1 (length r2)) (step lam (values r2)) var ;;
    Ok (combine (index r2) var).

(** [variance_series.iloc[-1]] *)
Definition iloc_last (s : series T) : result num :=
  match rev s with
  | [] => Raise IndexError
  | p :: _ => Ok (snd p)
  end.

Definition forecast_next_variance (train_returns : series T) (lam : num)
  (initial_variance : option num) : result num :=
  variance_series <- ewma_variance train_returns lam initial_variance ;;
  iloc_last variance_series.

Definition ewma_vol (returns : series T) (lam : num) (annualize : bool)
  (periods_per_year : Z) : result (series T) :=
  variance <- ewma_variance returns lam None ;;
  let vol := smap fsqrt variance in
  let vol :=
    if annualize
    then smap (fun x => fmul x (fsqrt (of_int periods_per_year))) vol
    else vol in
  Ok vol.

(** Backward compatibility alias *)
Definition ewma_volatility := ewma_vol.

End WithLabels.

End Ewma.

(** ** Python slicing and indexing with integer positions *)

(** A slice bound as Python normalises it: a negative bound counts from the
    end, and every bound is clamped to [0, len]. *)
Definition slice_bound (len i : Z) : Z :=
  if (i <? 0)%Z then Z.max (len + i) 0 else Z.min i len.

(** [l[start:stop]]; an absent bound is the start or the end of [l]. *)
Definition iloc_slice {A : Type} (l : list A) (start stop : option Z) : list A :=
  let len := Z.of_nat (length l) in
  let a := match start with Some s => slice_bound len s | None => 0%Z end in
  let b := match stop with Some s => slice_bound len s | None => len end in
  firstn (Z.to_nat (b - a)) (skipn (Z.to_nat a) l).

(** [l[i]]; a negative position counts from the end. *)
Definition iloc_at {A : Type} (l : list A) (i : Z) : result A :=
  let len := Z.of_nat (length l) in
  let p := if (i <? 0)%Z then (len + i)%Z else i in
  if (p <? 0)%Z then Raise IndexError else getitem l (Z.to_nat p).

(** [range(a, b)] over integers. *)
Definition zrange (a b : Z) : list Z :=
  map (fun k => (a + Z.of_nat k)%Z) (seq 0 (Z.to_nat (b - a))).

(** [.tail(n)]: the last [n] rows; for a negative [n], all rows but the
    first [-n]. *)
Definition tail {A : Type} (l : list A) (n : Z) : list A :=
  if (n =? 0)%Z then [] else iloc_slice l (Some (- n)%Z) None.

(** Elementwise binary operation on two series carrying the same index
    (pandas then combines the rows positionwise). *)
Definition binop {T : Type} (f : num -> num -> num) (a b : series T) : series T :=
  map (fun p => (fst (fst p), f (snd (fst p)) (snd (snd p)))) (combine a b).

(** [.shift(1)]: every value moves one row down, the first row becomes
    undefined, the index is kept. *)
Definition shift1 {T : Type} (s : series T) : series T :=
  combine (index s) (NaN :: values s).

(** ** [src/returns.py] *)

Module Returns.

Definition TRADING_DAYS : Z := 252.

Definition log_returns {T : Type} (prices : series T) : result (series T) :=
  let shifted := shift1 prices in
  let returns := smap flog (binop fdiv prices shifted) in
  Ok returns.

Definition annualize_volatility {T : Type} (daily_vol : series T)
  (trading_days : Z) : series T :=
  smap (fun x => fmul x (fsqrt (of_int trading_days))) daily_vol.

End Returns.

(** ** [src/vol_models/historical.py] *)

Module Historical.

(** [.var(ddof=1)]: undefined unless at least two defined entries. *)
Definition var_ddof1 (l : list num) : num :=
  let xs := reals l in
  let count := length xs in
  if (count <=? 1)%nat then NaN
  else
    let avg := Rsum xs / INR count in
    Fin (Rsum (map (fun x => (avg - x) * (avg - x)) xs) / (INR count - 1)).

Definition forecast_next_variance {T : Type} (train_returns : series T)
  (window : Z) : result num :=
  let recent := tail (dropna train_returns) window in
  if (Z.of_nat (length recent) <? window)%Z
  then Raise (ValueError "Not enough observations for the specified window.")
  else
    let variance := var_ddof1 (values recent) in
    Ok variance.

(** [.rolling(window=w).std()]: a negative window is refused when the
    rolling object is built; at row [i] the sample standard deviation of
    the [w] values ending at row [i], undefined while fewer than [w] rows
    are available or when an entry of the window is undefined. *)
Definition rolling_std {T : Type} (s : series T) (window : Z)
  : result (series T) :=
  if (window <? 0)%Z
  then Raise (ValueError "window must be an integer 0 or greater")
  else
    let w := Z.to_nat window in
    Ok (combine (index s)
          (map (fun i =>
                  let win := firstn w (skipn (i + 1 - w) (values s)) in
                  if (i + 1 <? w)%nat then NaN
                  else if forallb (fun x => negb (isnan x)) win
                       then fsqrt (var_ddof1 win)
                       else NaN)
               (seq 0 (length s)))).

Definition rolling_vol {T : Type} (returns : series T) (window : Z)
  (annualize : bool) (periods_per_year : Z) : result (series T) :=
  vol <- rolling_std returns window ;;
  let vol :=
    if annualize
    then smap (fun x => fmul x (fsqrt (of_int periods_per_year))) vol
    else vol in
  Ok vol.

(** Backward compatibility alias *)
Definition rolling_volatility {T : Type} := @rolling_vol T.

End Historical.

(** ** [src/evaluation.py] *)

Module Evaluation.

(** A [pd.DataFrame] of forecasts: the row labels and, per column name, the
    column's values in row order. *)
Record DataFrame (T : Type) : Type := mkDataFrame {
  df_columns : list (string * list num);
  df_index : list T
}.

Arguments mkDataFrame {T} _ _.
Arguments df_columns {T} _.
Arguments df_index {T} _.

(** One row of the metrics table. *)
Record metric : Type := mkMetric {
  model : string;
  window : option Z;
  mse_var : num;
  mae_vol : num;
  qlike : num
}.

Section WithLabels.
Context {T : Type} (T_eq_dec : forall a b : T, {a = b} + {a <> b}).

(** *** Estimator callbacks and the record of their invocations *)

Definition estimator : Type := series T -> result num.

(** One invocation: the registered name and the training slice passed. *)
Definition call : Type := (string * series T)%type.

(** A computation that invokes estimators: the invocations made, in order,
    and the outcome. *)
Definition traced (A : Type) : Type := (list call * result A)%type.

Definition tret {A : Type} (a : A) : traced A := ([], Ok a).

Definition tlift {A : Type} (m : result A) : traced A := ([], m).

Definition tbind {A B : Type} (m : traced A) (k : A -> traced B) : traced B :=
  match m with
  | (c1, Ok a) => let (c2, r) := k a in (c1 ++ c2, r)
  | (c1, Raise e) => (c1, Raise e)
  end.

Notation "x <~ m ;; k" := (tbind m (fun x => k))
  (at level 61, m at next level, right associativity).

(** [func(train)] *)
Definition invoke (name : string) (func : estimator) (train : series T)
  : traced num :=
  ([(name, train)], func train).

Fixpoint tfor_each {A S : Type} (xs : list A) (body : A -> S -> traced S)
  (st : S) : traced S :=
  match xs with
  | [] => tret st
  | x :: xs' => st' <~ body x st ;; tfor_each xs' body st'
  end.

(** *** [walk_forward_forecast] *)

(** [forecasts[name].append(v)] *)
Definition dict_append (name : string) (v : num)
  (forecasts : list (string * list num)) : list (string * list num) :=
  map (fun kv => if String.eqb (fst kv) name
                 then (fst kv, snd kv ++ [v]) else kv) forecasts.

(** [returns.iloc[:t] if expanding else returns.iloc[t - window : t]] *)
Definition training_slice (returns : series T) (expanding : bool)
  (window : option Z) (t : Z) : series T :=
  if expanding then iloc_slice returns None (Some t)
  else match window with
       | Some w => iloc_slice returns (Some (t - w)%Z) (Some t)
       | None => [] (* excluded by the guard of [walk_forward_forecast] *)
       end.

(** The inner loop [for name, func in model_funcs.items()]. *)
Definition run_models (model_funcs : list (string * estimator))
  (train : series T) (forecasts : list (string * list num))
  : traced (list (string * list num)) :=
  tfor_each model_funcs
    (fun nf forecasts =>
       v <~ invoke (fst nf) (snd nf) train ;;
       tret (dict_append (fst nf) v forecasts))
    forecasts.

Definition walk_forward_forecast (returns : series T)
  (model_funcs : list (string * estimator)) (start : Z) (expanding : bool)
  (window : option Z) : traced (DataFrame T) :=
  if negb expanding && match window with None => true | Some _ => false end
  then tlift (Raise (ValueError
                "Provide window when using rolling (expanding=False)."))
  else
    let forecasts := map (fun nf => (fst nf, @nil num)) model_funcs in
    st <~ tfor_each (zrange start (Z.of_nat (length returns)))
            (fun t st =>
               let train := training_slice returns expanding window t in
               forecasts <~ run_models model_funcs train (fst st) ;;
               label <~ tlift (iloc_at (index returns) t) ;;
               tret (forecasts, snd st ++ [label]))
            (forecasts, @nil T) ;;
    tret (mkDataFrame (fst st) (snd st)).

(** *** Alignment and loss functions *)

(** All values stored under label [t]. *)
Definition lookup_all {V : Type} (t : T) (s : list (T * V)) : list V :=
  map snd (filter (fun p => if T_eq_dec (fst p) t then true else false) s).

(** [a.align(b, join="inner")]: equal indexes are kept as they are;
    otherwise every row of [a] is paired with the rows of [b] stored under
    the same label (for indexes without repeated labels: the rows of [a]
    whose label occurs in [b]). *)
Definition align_inner (a b : series T) : series T * series T :=
  if list_eq_dec T_eq_dec (index a) (index b) then (a, b)
  else
    let rows :=
      flat_map (fun p => map (fun y => (fst p, (snd p, y)))
                             (lookup_all (fst p) b)) a in
    (map (fun r => (fst r, fst (snd r))) rows,
     map (fun r => (fst r, snd (snd r))) rows).

Definition mse_variance (pred realized_var : series T) : num :=
  let (aligned_pred, aligned_real) := align_inner pred realized_var in
  mean (values (smap fsq (binop fsub aligned_pred aligned_real))).

Definition mae_volatility (pred_vol realized_var : series T) : num :=
  let (aligned_vol, aligned_var) := align_inner pred_vol realized_var in
  mean (values (smap fabs (binop fsub aligned_vol (smap fsqrt aligned_var)))).

Definition qlike_loss (pred_var realized_var : series T) (eps : R) : num :=
  let (aligned_pred, aligned_real) := align_inner pred_var realized_var in
  let safe_pred := smap (clip_lower eps) aligned_pred in
  let loss := binop fadd (smap flog safe_pred)
                         (binop fdiv aligned_real safe_pred) in
  mean (values loss).

(** The default [eps=1e-8]. *)
Definition default_eps : R := / 100000000.

(** *** Realized volatility and variance *)

Definition fsum (l : list num) : num := fold_right fadd (Fin 0) l.

(** [.rolling(window=w).sum()]: at row [i] the sum of the [w] values ending
    at row [i]; undefined while fewer than [w] rows are available or when
    an entry of the window is undefined. *)
Definition rolling_sum (w : nat) (s : series T) : series T :=
  combine (index s)
    (map (fun i => if (i + 1 <? w)%nat then NaN
                   else fsum (firstn w (skipn (i + 1 - w) (values s))))
         (seq 0 (length s))).

(** [data[key] = v] on an insertion-ordered dict. *)
Fixpoint dict_set {V : Type} (key : Z) (v : V) (data : list (Z * V))
  : list (Z * V) :=
  match data with
  | [] => [(key, v)]
  | kv :: data' =>
      if (fst kv =? key)%Z then (key, v) :: data'
      else kv :: dict_set key v data'
  end.

Fixpoint dict_get {V : Type} (key : Z) (data : list (Z * V)) : result V :=
  match data with
  | [] => Raise KeyError
  | kv :: data' => if (fst kv =? key)%Z then Ok (snd kv) else dict_get key data'
  end.

(** The columns are named [rv_<w>]; the name determines [w], and the
    table is kept as a dict from [w] to the column. *)
Definition windowed_realized_volatility (returns : series T)
  (windows : list Z) (periods_per_year : Z) : result (list (Z * series T)) :=
  let r2 := smap fsq returns in
  for_each windows
    (fun w data =>
       if (w <=? 0)%Z then Raise (ValueError "Window must be positive.")
       else
         let rolling := rolling_sum (Z.to_nat w) r2 in
         let rv := smap (fun x =>
                     fsqrt (fmul (fdiv (of_int periods_per_year) (of_int w)) x))
                     rolling in
         Ok (dict_set w rv data))
    [].

Definition windowed_realized_variance (returns : series T)
  (windows : list Z) (periods_per_year : Z) : result (list (Z * series T)) :=
  rv <- windowed_realized_volatility returns windows periods_per_year ;;
  Ok (map (fun kv => (fst kv, smap fsq (snd kv))) rv).

(** *** [evaluate_forecasts] *)

(** [s.loc[labels]]: for every requested label the rows stored under it;
    a label that is not in the index is a [KeyError]. *)
Fixpoint loc (s : series T) (labels : list T) : result (series T) :=
  match labels with
  | [] => Ok []
  | t :: labels' =>
      match lookup_all t s with
      | [] => Raise KeyError
      | vs => rest <- loc s labels' ;; Ok (map (fun v => (t, v)) vs ++ rest)
      end
  end.

(** [forecast_var[col]] *)
Fixpoint get_column (columns : list (string * list num)) (col : string)
  : result (list num) :=
  match columns with
  | [] => Raise KeyError
  | kv :: columns' =>
      if String.eqb (fst kv) col then Ok (snd kv) else get_column columns' col
  end.

Definition column (forecast_var : DataFrame T) (col : string)
  : result (series T) :=
  vals <- get_column (df_columns forecast_var) col ;;
  Ok (combine (df_index forecast_var) vals).

(** [pd.DataFrame(metrics)] followed by [set_index]: without any row the
    frame has no column to index by. *)
Definition set_index (metrics : list metric) : result (list metric) :=
  match metrics with
  | [] => Raise KeyError
  | _ => Ok metrics
  end.

Definition evaluate_forecasts (forecast_var : DataFrame T) (returns : series T)
  (realized_windows : option (list Z)) (annualize_pred : bool)
  (periods_per_year : Z) : result (list metric) :=
  metrics <-
    match realized_windows with
    | None =>
        realized_var <- loc (smap fsq returns) (df_index forecast_var) ;;
        for_each (map fst (df_columns forecast_var))
          (fun col metrics =>
             var_pred <- column forecast_var col ;;
             let vol_pred := smap fsqrt var_pred in
             Ok (metrics ++
                 [mkMetric col None
                    (mse_variance var_pred realized_var)
                    (mae_volatility vol_pred realized_var)
                    (qlike_loss var_pred realized_var default_eps)]))
          []
    | Some realized_windows =>
        realized_var_df <-
          windowed_realized_variance returns realized_windows periods_per_year ;;
        let scale := if annualize_pred then of_int periods_per_year else Fin 1 in
        for_each (map fst (df_columns forecast_var))
          (fun col metrics =>
             var_pred_raw <- column forecast_var col ;;
             let var_pred := smap (fun x => fmul x scale) var_pred_raw in
             for_each realized_windows
               (fun w metrics =>
                  rv_w <- dict_get w realized_var_df ;;
                  realized_var <- loc rv_w (index var_pred) ;;
                  let vol_pred := smap fsqrt var_pred in
                  Ok (metrics ++
                      [mkMetric col (Some w)
                         (mse_variance var_pred realized_var)
                         (mae_volatility vol_pred realized_var)
                         (qlike_loss var_pred realized_var default_eps)]))
               metrics)
          []
    end ;;
  set_index metrics.

End WithLabels.

End Evaluation.

(** ** Reference definitions used in the statements *)

Definition sq (x : R) : R := x * x.

(** The exponentially weighted recursion as a fold over the observations:
    one variance per observation, starting from [v]. *)
Fixpoint ewma_rec (lam v : R) (r : list R) : list R :=
  match r with
  | [] => []
  | x :: r' => v :: ewma_rec lam (lam * v + (1 - lam) * sq x) r'
  end.

(** The same recursion on floating-point values, as the array loop of
    [ewma_variance] computes it. *)
Fixpoint ewma_num (lam v : num) (r2 : list num) : list num :=
  match r2 with
  | [] => []
  | x :: r2' =>
      v :: ewma_num lam (fadd (fmul lam v) (fmul (fsub (Fin 1) lam) x)) r2'
  end.

(** The value the code stores in [var[0]]. *)
Definition initial_value {T : Type} (returns : series T) (initial_variance : option num)
  : num :=
  let r2 := smap fsq (dropna returns) in
  match initial_variance with
  | None =>
      if (10 <=? length r2)%nat then mean (firstn 10 (values r2))
      else mean (values r2)
  | Some v => v
  end.

(** The Bessel-corrected sample variance: the squared deviations from the
    mean, summed and divided by [n - 1]; undefined for fewer than two
    observations. *)
Definition sample_variance (xs : list R) : num :=
  let n := length xs in
  let m := Rsum xs / INR n in
  if (n <=? 1)%nat then NaN
  else Fin (Rsum (map (fun x => sq (x - m)) xs) / (INR n - 1)).

(** The last [w] elements of a list. *)
Definition last_n {A : Type} (w : nat) (l : list A) : list A :=
  skipn (length l - w) l.

(** The return series [[0.01, -0.02, 0.015, -0.005]] of the tests, with
    the default integer index. *)
Definition test_returns : series Z :=
  [(0%Z, Fin (1 / 100)); (1%Z, Fin (- 2 / 100));
   (2%Z, Fin (15 / 1000)); (3%Z, Fin (- 5 / 1000))].

(** The logarithm of every value over its predecessor, [prev] preceding
    the first one. *)
Fixpoint log_ratios (prev : num) (vs : list num) : list num :=
  match vs with
  | [] => []
  | v :: vs' => flog (fdiv v prev) :: log_ratios v vs'
  end.

(** A price series whose values are all defined. *)
Definition of_reals {T : Type} (ps : list (T * R)) : series T :=
  map (fun p => (fst p, Fin (snd p))) ps.

(** The [w] observations ending at row [i], inclusive. *)
Definition window_ending_at {A : Type} (w i : nat) (l : list A) : list A :=
  firstn w (skipn (i + 1 - w) l).

(** Realized variance at row [i] for window [w], in the words of the
    specification: [periods_per_year / w] times the sum of the squared
    returns of the [w] rows ending at [i]; undefined on the first [w - 1]
    rows, and where a return of the window is undefined. *)
Definition realized_variance_at (periods_per_year w : Z) (rets : list num)
  (i : nat) : num :=
  if (i + 1 <? Z.to_nat w)%nat then NaN
  else
    let win := window_ending_at (Z.to_nat w) i rets in
    if forallb (fun x => negb (isnan x)) win
    then Fin (IZR periods_per_year / IZR w * Rsum (map sq (reals win)))
    else NaN.

(** A value that is undefined or a non-negative number. *)
Definition defined_nonneg (a : num) : Prop :=
  match a with
  | Fin x => 0 <= x
  | NaN => True
  end.

(** The column [windowed_realized_volatility] stores for window [w], and
    the body of its loop over the windows. *)
Definition rv_column {T : Type} (returns : series T) (periods_per_year w : Z)
  : series T :=
  smap (fun x => fsqrt (fmul (fdiv (of_int periods_per_year) (of_int w)) x))
       (Evaluation.rolling_sum (Z.to_nat w) (smap fsq returns)).

Definition rv_step {T : Type} (returns : series T) (periods_per_year : Z)
  (w : Z) (data : list (Z * series T)) : result (list (Z * series T)) :=
  if (w <=? 0)%Z then Raise (ValueError "Window must be positive.")
  else Ok (Evaluation.dict_set w (rv_column returns periods_per_year w) data).

(** The mean of a list of numbers, undefined for the empty list. *)
Definition mean_reals (l : list R) : num :=
  match l with
  | [] => NaN
  | _ => Fin (Rsum l / INR (length l))
  end.

(** The rows of two series that share a timestamp: every forecast paired
    with the realized value stored under its timestamp. *)
Definition shared_rows {T : Type}
  (T_eq_dec : forall a b : T, {a = b} + {a <> b})
  (pred realized : list (T * R)) : list (R * R) :=
  flat_map (fun p => map (fun y => (snd p, y))
                         (Evaluation.lookup_all T_eq_dec (fst p) realized))
           pred.

(** The QLIKE term of one (forecast variance, realized variance) pair. *)
Definition qlike_term (eps : R) (fy : R * R) : R :=
  ln (Rmax (fst fy) eps) + snd fy / Rmax (fst fy) eps.

(** A forecast table is well formed when every column has one value per
    row label. *)
Definition well_formed {T : Type} (df : Evaluation.DataFrame T) : Prop :=
  forall col vals, In (col, vals) (Evaluation.df_columns df) ->
    length vals = length (Evaluation.df_index df).

(** A forecast table with every forecast variance multiplied by [c]. *)
Definition scale_forecasts {T : Type} (c : num) (df : Evaluation.DataFrame T)
  : Evaluation.DataFrame T :=
  Evaluation.mkDataFrame
    (map (fun kv => (fst kv, map (fun x => fmul x c) (snd kv)))
         (Evaluation.df_columns df))
    (Evaluation.df_index df).

(** A one-row forecast table and a one-observation return series. *)
Definition unit_forecast : Evaluation.DataFrame Z :=
  Evaluation.mkDataFrame [("model", [Fin 1])] [0%Z].

Definition unit_returns : series Z := [(0%Z, Fin 1)].

(** The squared-error metric of the first row of a metrics table. *)
Definition first_mse (r : result (list Evaluation.metric)) : num :=
  match r with
  | Ok (m :: _) => Evaluation.mse_var m
  | _ => NaN
  end.

(** The position of the row that target index [t] denotes in a series of
    length [len] (a negative [t] counts from the end). *)
Definition row_position (len t : Z) : nat :=
  Z.to_nat (if (t <? 0)%Z then (len + t)%Z else t).

(** The training slice in the words of the specification:
    [returns[0:t]] when expanding, [returns[t-window:t]] otherwise. *)
Definition spec_training_slice {T : Type} (returns : series T)
  (expanding : bool) (window : option Z) (t : Z) : series T :=
  if expanding then iloc_slice returns (Some 0%Z) (Some t)
  else match window with
       | Some w => iloc_slice returns (Some (t - w)%Z) (Some t)
       | None => []
       end.

(** Row [k] of a forecast table: the [k]-th value of every column. *)
Definition forecast_row {T : Type} (df : Evaluation.DataFrame T) (k : nat)
  : list (option num) :=
  map (fun c => nth_error (snd c) k) (Evaluation.df_columns df).

(** Column [col] holds, target by target, the forecast of estimator [nf]
    on the slice [slice t]. *)
Definition column_of {T : Type} (slice : Z -> series T) (ts : list Z)
  (nf : string * Evaluation.estimator) (col : list num) : Prop :=
  Forall2 (fun t v => snd nf (slice t) = Ok v) ts col.

(** [forecasts[name].append(v)] for every (name, v), in order. *)
Definition append_all (nvs : list (string * num))
  (forecasts : list (string * list num)) : list (string * list num) :=
  fold_left (fun d nv => Evaluation.dict_append (fst nv) (snd nv) d)
            nvs forecasts.

(** Every column extended by its new value. *)
Definition snoc_all (cols : list (list num)) (vs : list num)
  : list (list num) :=
  map (fun cv => fst cv ++ [snd cv]) (combine cols vs).

(** The body of the loop [for t in range(start, len(returns))] of
    [walk_forward_forecast], on the pair (forecasts, index). *)
Definition walk_step {T : Type} (returns : series T)
  (model_funcs : list (string * Evaluation.estimator)) (expanding : bool)
  (window : option Z) (t : Z) (st : list (string * list num) * list T)
  : Evaluation.traced (list (string * list num) * list T) :=
  Evaluation.tbind
    (Evaluation.run_models model_funcs
       (Evaluation.training_slice returns expanding window t) (fst st))
    (fun forecasts =>
       Evaluation.tbind (Evaluation.tlift (iloc_at (index returns) t))
         (fun label => Evaluation.tret (forecasts, snd st ++ [label]))).

(** The first position of the training slice for target [t]. *)
Definition slice_start (len : Z) (expanding : bool) (window : option Z)
  (t : Z) : nat :=
  if expanding then 0%nat
  else match window with
       | Some w => Z.to_nat (slice_bound len (t - w))
       | None => 0%nat
       end.

(** Sample data: two estimators (a constant and the size of the training
    slice), the invocations and the table of their expanding walk over
    [test_returns] from index 2, a price series, a series without valid
    observation and a return series that lacks timestamp 0. *)
Definition sample_models : list (string * Evaluation.estimator (T := Z)) :=
  [("zero", fun _ => Ok (Fin 0));
   ("count", fun train => Ok (of_int (Z.of_nat (length train))))].

Definition sample_calls : list (Evaluation.call (T := Z)) :=
  [("zero", firstn 2 test_returns); ("count", firstn 2 test_returns);
   ("zero", firstn 3 test_returns); ("count", firstn 3 test_returns)].

Definition sample_table : Evaluation.DataFrame Z :=
  Evaluation.mkDataFrame
    [("zero", [Fin 0; Fin 0]); ("count", [of_int 2; of_int 3])]
    [2%Z; 3%Z].

Definition sample_prices : list (Z * R) := [(0%Z, 100); (1%Z, 110); (2%Z, 121)].

Definition undefined_returns : series Z := [(0%Z, NaN); (1%Z, NaN)].

Definition shifted_returns : series Z := [(1%Z, Fin 1)].

(** Data of [tests/test_evaluation.py]: the returns of the realized
    volatility test, the constant forecast table of the scoring test, and
    the keys of a metrics table. *)
Definition rv_test_returns : series Z :=
  [(0%Z, Fin (1 / 100)); (1%Z, Fin (- 2 / 100));
   (2%Z, Fin (3 / 100)); (3%Z, Fin (- 1 / 100))].

Definition const_forecast : Evaluation.DataFrame Z :=
  Evaluation.mkDataFrame
    [("const", [Fin (1 / 10000); Fin (1 / 10000)])] [2%Z; 3%Z].

Definition metric_keys (r : result (list Evaluation.metric))
  : result (list (string * option Z)) :=
  m <- r ;; Ok (map (fun x => (Evaluation.model x, Evaluation.window x)) m).

(** The closed form of the exponentially weighted recursion: the initial
    variance weighted by [lam^i] and the squared observations before
    position [i] weighted by [(1 - lam) * lam^(i-1-j)]. *)
Definition ewma_closed (lam v0 : R) (r : list R) (i : nat) : R :=
  lam ^ i * v0
  + (1 - lam) * Rsum (map (fun j => lam ^ (i - 1 - j) * sq (nth j r 0))
                          (seq 0 i)).

(** A defined, non-negative value. *)
Definition nonneg_value (a : num) : Prop :=
  exists v : R, a = Fin v /\ 0 <= v.

(** The invocations of a complete pass over the target indexes [ts]. *)
Definition schedule {T : Type} (slice : Z -> series T)
  (model_funcs : list (string * Evaluation.estimator (T := T)))
  (ts : list Z) : list (Evaluation.call (T := T)) :=
  flat_map (fun t => map (fun nf => (fst nf, slice t)) model_funcs) ts.

(** The rolling estimator with window 3, registered for the harness. *)
Definition rolling_models : list (string * Evaluation.estimator (T := Z)) :=
  [("hist", fun train => Historical.forecast_next_variance train 3)].

(** The squared-error and absolute-error terms of one row: forecast
    variance against realized variance, forecast volatility against the
    square root of the realized variance. *)
Definition mse_term (fy : R * R) : R := sq (fst fy - snd fy).

Definition mae_term (vy : R * R) : R := Rabs (fst vy - sqrt (snd vy)).

(** * Properties *)

(** ** Lists, arrays and values *)

Lemma reals_map_Fin (l : list R) : reals (map Fin l) = l.
Proof. induction l as [|x l IH]; simpl; congruence. Qed.

Lemma mean_map_Fin (l : list R) :
  l <> [] -> mean (map Fin l) = Fin (Rsum l / INR (length l)).
Proof.
  intros Hl. unfold mean. rewrite reals_map_Fin.
  destruct l as [|x xs]; [contradiction|reflexivity].
Qed.

Lemma index_smap {T : Type} (f : num -> num) (s : series T) :
  index (smap f s) = index s.
Proof.
  unfold index, smap. rewrite map_map. reflexivity.
Qed.

Lemma values_smap {T : Type} (f : num -> num) (s : series T) :
  values (smap f s) = map f (values s).
Proof.
  unfold values, smap. rewrite !map_map. reflexivity.
Qed.

Lemma values_dropna {T : Type} (s : series T) :
  values (dropna s) = map Fin (reals (values s)).
Proof.
  induction s as [|[t v] s IH]; simpl; [reflexivity|].
  destruct v; simpl; [exact IH|]. f_equal. exact IH.
Qed.

Lemma values_sq_dropna {T : Type} (s : series T) :
  values (smap fsq (dropna s)) = map Fin (map sq (reals (values s))).
Proof.
  rewrite values_smap, values_dropna, !map_map. reflexivity.
Qed.

Lemma length_values {T V : Type} (s : list (T * V)) :
  length (values s) = length s.
Proof. apply length_map. Qed.

Lemma length_index {T V : Type} (s : list (T * V)) :
  length (index s) = length s.
Proof. apply length_map. Qed.

Lemma length_dropna {T : Type} (s : series T) :
  length (dropna s) = length (reals (values s)).
Proof.
  rewrite <- (length_values (dropna s)), values_dropna, length_map.
  reflexivity.
Qed.

Lemma firstn_snoc {A : Type} (d : A) (l : list A) (k : nat) :
  (k < length l)%nat -> firstn (S k) l = firstn k l ++ [nth k l d].
Proof.
  revert k. induction l as [|x l IH]; intros k Hk; simpl in Hk; [lia|].
  destruct k as [|k]; [reflexivity|].
  change (firstn (S (S k)) (x :: l)) with (x :: firstn (S k) l).
  rewrite (IH k) by lia. reflexivity.
Qed.

Lemma set_nth_app {A : Type} (l1 l2 : list A) (x v : A) (k : nat) :
  length l1 = k -> set_nth (l1 ++ x :: l2) k v = l1 ++ v :: l2.
Proof.
  intros <-.
  induction l1 as [|y l1 IH]; simpl; [reflexivity|]. rewrite IH. reflexivity.
Qed.

Lemma getitem_nth {A : Type} (d : A) (l : list A) (i : nat) :
  (i < length l)%nat -> getitem l i = Ok (nth i l d).
Proof.
  intros Hi. unfold getitem. rewrite (nth_error_nth' l d Hi). reflexivity.
Qed.

Lemma zeros_S (n : nat) : zeros (S n) = Fin 0 :: zeros n.
Proof. reflexivity. Qed.

Lemma length_zeros (n : nat) : length (zeros n) = n.
Proof. apply repeat_length. Qed.

(** ** The exponentially weighted recursion *)

Section EwmaRecursion.
Variable lam : R.

Lemma length_ewma_rec (r : list R) (v : R) :
  length (ewma_rec lam v r) = length r.
Proof.
  revert v. induction r as [|x r IH]; intros v; simpl; [reflexivity|].
  rewrite IH. reflexivity.
Qed.

Lemma ewma_rec_head (r : list R) (v : R) :
  r <> [] -> nth 0 (ewma_rec lam v r) 0 = v.
Proof. destruct r; [contradiction|reflexivity]. Qed.

Lemma ewma_rec_step (r : list R) (v : R) (k : nat) :
  (S k < length r)%nat ->
  nth (S k) (ewma_rec lam v r) 0 =
  lam * nth k (ewma_rec lam v r) 0 + (1 - lam) * sq (nth k r 0).
Proof.
  revert v k. induction r as [|x r IH]; intros v k Hk; simpl in Hk; [lia|].
  destruct k as [|k].
  - destruct r as [|y r]; simpl in Hk; [lia|]. reflexivity.
  - change (nth (S k) (ewma_rec lam (lam * v + (1 - lam) * sq x) r) 0 =
            lam * nth k (ewma_rec lam (lam * v + (1 - lam) * sq x) r) 0
            + (1 - lam) * sq (nth k r 0)).
    apply IH. lia.
Qed.

End EwmaRecursion.

Section EwmaLoop.
Variable lam : num.

Lemma length_ewma_num (r2 : list num) (v : num) :
  length (ewma_num lam v r2) = length r2.
Proof.
  revert v. induction r2 as [|x r2 IH]; intros v; simpl; [reflexivity|].
  rewrite IH. reflexivity.
Qed.

Lemma ewma_num_step (r2 : list num) (v : num) (k : nat) :
  (S k < length r2)%nat ->
  nth (S k) (ewma_num lam v r2) NaN =
  fadd (fmul lam (nth k (ewma_num lam v r2) NaN))
       (fmul (fsub (Fin 1) lam) (nth k r2 NaN)).
Proof.
  revert v k. induction r2 as [|x r2 IH]; intros v k Hk; simpl in Hk; [lia|].
  destruct k as [|k].
  - destruct r2 as [|y r2]; simpl in Hk; [lia|]. reflexivity.
  - simpl. apply IH. lia.
Qed.

(** The array loop of [ewma_variance] fills the array with [ewma_num]:
    before iteration [k] the first [k] cells hold the recursion and the
    others are still zero. *)
Lemma ewma_loop (r2 : list num) (v0 : num) (m k : nat) :
  (1 <= k)%nat -> (k + m = length r2)%nat ->
  for_each (seq k m) (Ewma.step lam r2)
    (firstn k (ewma_num lam v0 r2) ++ zeros (length r2 - k))
  = Ok (ewma_num lam v0 r2).
Proof.
  revert k. induction m as [|m IH]; intros k Hk Hlen.
  - simpl. replace (length r2 - k)%nat with 0%nat by lia. simpl.
    rewrite app_nil_r, firstn_all2; [reflexivity|].
    rewrite length_ewma_num. lia.
  - simpl. unfold Ewma.step at 1.
    assert (HE : length (ewma_num lam v0 r2) = length r2)
      by apply length_ewma_num.
    assert (Hf : length (firstn k (ewma_num lam v0 r2)) = k).
    { rewrite length_firstn. lia. }
    rewrite (getitem_nth NaN).
    2:{ rewrite length_app, Hf. lia. }
    rewrite app_nth1 by (rewrite Hf; lia).
    rewrite (getitem_nth NaN) by lia.
    simpl bind.
    unfold setitem.
    replace (k <? length (firstn k (ewma_num lam v0 r2) ++
                          zeros (length r2 - k)))%nat with true.
    2:{ symmetry. apply Nat.ltb_lt. rewrite length_app, Hf, length_zeros. lia. }
    simpl bind.
    replace (length r2 - k)%nat with (S (length r2 - S k)) by lia.
    rewrite zeros_S.
    rewrite set_nth_app by exact Hf.
    rewrite <- (IH (S k)) by lia.
    f_equal.
    rewrite (firstn_snoc NaN) by lia.
    rewrite <- app_assoc. simpl. do 2 f_equal.
    rewrite nth_firstn.
    replace (k - 1 <? k)%nat with true by (symmetry; apply Nat.ltb_lt; lia).
    replace k with (S (k - 1)) at 3 by lia.
    rewrite ewma_num_step by lia.
    reflexivity.
Qed.

End EwmaLoop.

Lemma ewma_num_Fin (lam v : R) (r : list R) :
  ewma_num (Fin lam) (Fin v) (map Fin (map sq r)) = map Fin (ewma_rec lam v r).
Proof.
  revert v. induction r as [|x r IH]; intros v; simpl; [reflexivity|].
  f_equal. apply IH.
Qed.

(** ** [ewma_variance] and its forecast *)

Section EwmaVariance.
Context {T : Type}.

Lemma lam_in_range_true (lam : R) :
  0 < lam < 1 -> Ewma.lam_in_range (Fin lam) = true.
Proof.
  intros [H0 H1]. unfold Ewma.lam_in_range.
  destruct (Rlt_dec 0 lam); [|contradiction].
  destruct (Rlt_dec lam 1); [reflexivity|contradiction].
Qed.


Lemma ewma_variance_ok (returns : series T) (lam : num)
  (initial_variance : option num) :
  Ewma.lam_in_range lam = true ->
  (1 <= length (reals (values returns)))%nat ->
  Ewma.ewma_variance returns lam initial_variance =
  Ok (combine (index (dropna returns))
        (ewma_num lam (initial_value returns initial_variance)
           (values (smap fsq (dropna returns))))).
Proof.
  intros Hlam Hn. unfold Ewma.ewma_variance. rewrite Hlam. simpl negb. cbv iota.
  fold (initial_value returns initial_variance).
  set (v0 := initial_value returns initial_variance).
  set (r2 := smap fsq (dropna returns)).
  assert (Hlen : length r2 = length (reals (values returns))).
  { unfold r2, smap. rewrite length_map. apply length_dropna. }
  destruct (length r2) as [|n'] eqn:En; [lia|].
  unfold setitem. rewrite length_zeros. simpl Nat.ltb. simpl bind.
  unfold range. replace (S n' - 1)%nat with n' by lia.
  assert (Hv : length (values r2) = S n')
    by (rewrite length_values; exact En).
  pose proof (ewma_loop lam (values r2) v0 n' 1) as HL.
  rewrite Hv in HL. replace (S n' - 1)%nat with n' in HL by lia.
  assert (Hfirst : firstn 1 (ewma_num lam v0 (values r2)) = [v0]).
  { destruct (values r2); [discriminate|reflexivity]. }
  rewrite Hfirst in HL. simpl app in HL.
  fold (zeros n'). rewrite HL by lia. simpl bind.
  unfold r2 at 1. rewrite index_smap. reflexivity.
Qed.

Lemma ewma_variance_no_observation (returns : series T) (lam : num)
  (initial_variance : option num) :
  Ewma.lam_in_range lam = true ->
  reals (values returns) = [] ->
  Ewma.ewma_variance returns lam initial_variance = Raise IndexError.
Proof.
  intros Hlam Hr. unfold Ewma.ewma_variance. rewrite Hlam. simpl negb. cbv iota.
  assert (Hlen : length (smap fsq (dropna returns)) = 0%nat).
  { unfold smap. rewrite length_map, length_dropna, Hr. reflexivity. }
  rewrite Hlen. reflexivity.
Qed.

Lemma default_initial_value (returns : series T) :
  let r := reals (values returns) in
  let k := Nat.min 10 (length r) in
  (1 <= length r)%nat ->
  initial_value returns None = Fin (Rsum (map sq (firstn k r)) / INR k).
Proof.
  intros r k Hn. unfold initial_value.
  rewrite values_sq_dropna. fold r.
  assert (Hlen : length (smap fsq (dropna returns)) = length r).
  { unfold smap. rewrite length_map. apply length_dropna. }
  rewrite Hlen.
  destruct (10 <=? length r)%nat eqn:E.
  - apply Nat.leb_le in E.
    assert (Hk : k = 10%nat) by (unfold k; lia). rewrite Hk.
    rewrite !firstn_map, mean_map_Fin.
    + rewrite length_map, length_firstn.
      replace (Nat.min 10 (length r)) with 10%nat by lia. reflexivity.
    + intros H. apply (f_equal (@length R)) in H.
      rewrite length_map, length_firstn in H. cbn [length] in H. lia.
  - apply Nat.leb_gt in E.
    assert (Hk : k = length r) by (unfold k; lia). rewrite Hk.
    rewrite firstn_all, mean_map_Fin.
    + rewrite length_map. reflexivity.
    + intros H. apply (f_equal (@length R)) in H.
      rewrite length_map in H. cbn [length] in H. lia.
Qed.

Lemma iloc_last_nth (s : series T) :
  s <> [] -> Ewma.iloc_last s = Ok (nth (length s - 1) (values s) NaN).
Proof.
  intros Hne. unfold Ewma.iloc_last.
  destruct (exists_last Hne) as [s' [p Hs]]. subst s.
  rewrite rev_app_distr. simpl rev. simpl app.
  unfold values. rewrite map_app, length_app. simpl.
  replace (length s' + 1 - 1)%nat with (length (map snd s'))
    by (rewrite length_map; lia).
  rewrite nth_middle. reflexivity.
Qed.

Lemma values_combine (idx : list T) (vals : list num) :
  length idx = length vals -> values (combine idx vals) = vals.
Proof.
  revert vals. induction idx as [|t idx IH]; intros [|v vals] Hlen;
    simpl in *; try discriminate; [reflexivity|].
  f_equal. apply IH. lia.
Qed.

Lemma iloc_last_combine (idx : list T) (vals : list num) :
  length idx = length vals -> vals <> [] ->
  Ewma.iloc_last (combine idx vals) = Ok (nth (length vals - 1) vals NaN).
Proof.
  intros Hlen Hne. rewrite iloc_last_nth.
  - rewrite values_combine by exact Hlen.
    rewrite length_combine, Hlen, Nat.min_id. reflexivity.
  - intros H. apply (f_equal (@length (T * num))) in H.
    rewrite length_combine, Hlen, Nat.min_id in H.
    destruct vals; [contradiction|discriminate].
Qed.

End EwmaVariance.


(** C10 -- for a valid [lam], a series without any valid observation makes
    [ewma_variance], and with it [forecast_next_variance], fail with the
    [IndexError] of the write to cell 0 of an empty array (not with a
    validation error); with at least one valid observation both return. *)
Theorem ewma_no_valid_observation {T : Type} (returns : series T) (lam : R)
  (iv : option num) :
  0 < lam < 1 ->
  (reals (values returns) = [] ->
     Ewma.ewma_variance returns (Fin lam) iv = Raise IndexError
     /\ Ewma.forecast_next_variance returns (Fin lam) iv = Raise IndexError)
  /\ (reals (values returns) <> [] ->
        exists (s : series T) (v : num),
          Ewma.ewma_variance returns (Fin lam) iv = Ok s
          /\ Ewma.forecast_next_variance returns (Fin lam) iv = Ok v).
Proof.
  intros Hlam. apply lam_in_range_true in Hlam. split.
  - intros Hr. unfold Ewma.forecast_next_variance.
    rewrite (ewma_variance_no_observation returns (Fin lam) iv Hlam Hr).
    split; reflexivity.
  - intros Hr.
    assert (Hn : (1 <= length (reals (values returns)))%nat).
    { destruct (reals (values returns)); [contradiction|simpl; lia]. }
    unfold Ewma.forecast_next_variance.
    rewrite (ewma_variance_ok returns (Fin lam) iv Hlam Hn). simpl bind.
    eexists. eexists. split; [reflexivity|].
    apply iloc_last_combine.
    + rewrite length_index, length_dropna, length_ewma_num, values_sq_dropna,
        !length_map. reflexivity.
    + intros E. apply (f_equal (@length num)) in E.
      rewrite length_ewma_num, values_sq_dropna, !length_map in E.
      cbn [length] in E. lia.
Qed.

(** ** Rolling sample variance *)

Lemma tail_last_n {A : Type} (l : list A) (w : nat) :
  tail l (Z.of_nat w) = last_n w l.
Proof.
  unfold tail, last_n. destruct (Z.of_nat w =? 0)%Z eqn:E.
  - apply Z.eqb_eq in E. replace (length l - w)%nat with (length l) by lia.
    rewrite skipn_all. reflexivity.
  - apply Z.eqb_neq in E. unfold iloc_slice, slice_bound.
    replace (- Z.of_nat w <? 0)%Z with true by (symmetry; apply Z.ltb_lt; lia).
    replace (Z.to_nat (Z.max (Z.of_nat (length l) + - Z.of_nat w) 0))
      with (length l - w)%nat by lia.
    apply firstn_all2. rewrite length_skipn. lia.
Qed.

Lemma Rsum_map_ext (f g : R -> R) (l : list R) :
  (forall x, f x = g x) -> Rsum (map f l) = Rsum (map g l).
Proof.
  intros H. induction l as [|x l IH]; simpl; [reflexivity|].
  rewrite H, IH. reflexivity.
Qed.

Lemma var_ddof1_Fin (xs : list R) :
  Historical.var_ddof1 (map Fin xs) = sample_variance xs.
Proof.
  unfold Historical.var_ddof1, sample_variance. rewrite reals_map_Fin.
  destruct (length xs <=? 1)%nat; [reflexivity|].
  do 2 f_equal. apply Rsum_map_ext. intros x. unfold sq. ring.
Qed.

Lemma recent_values {T : Type} (history : series T) (w : nat) :
  values (tail (dropna history) (Z.of_nat w))
  = map Fin (last_n w (reals (values history))).
Proof.
  rewrite tail_last_n. unfold last_n, values at 1.
  rewrite <- skipn_map. fold (values (dropna history)).
  rewrite values_dropna, <- skipn_map, length_dropna. reflexivity.
Qed.

Lemma forecast_recent_length {T : Type} (history : series T) (w : nat) :
  length (tail (dropna history) (Z.of_nat w))
  = Nat.min w (length (reals (values history))).
Proof.
  rewrite <- (length_values (tail _ _)), recent_values, length_map.
  unfold last_n. rewrite length_skipn. lia.
Qed.

Lemma forecast_sufficient {T : Type} (history : series T) (w : nat) :
  (w <= length (reals (values history)))%nat ->
  Historical.forecast_next_variance history (Z.of_nat w)
  = Ok (sample_variance (last_n w (reals (values history)))).
Proof.
  intros Hw. unfold Historical.forecast_next_variance.
  rewrite forecast_recent_length.
  replace (Z.of_nat (Nat.min w (length (reals (values history))))
           <? Z.of_nat w)%Z with false
    by (symmetry; apply Z.ltb_ge; lia).
  rewrite recent_values, var_ddof1_Fin. reflexivity.
Qed.

Lemma forecast_insufficient {T : Type} (history : series T) (w : nat) :
  (length (reals (values history)) < w)%nat ->
  Historical.forecast_next_variance history (Z.of_nat w)
  = Raise (ValueError "Not enough observations for the specified window.").
Proof.
  intros Hw. unfold Historical.forecast_next_variance.
  rewrite forecast_recent_length.
  replace (Z.of_nat (Nat.min w (length (reals (values history))))
           <? Z.of_nat w)%Z with true
    by (symmetry; apply Z.ltb_lt; lia).
  reflexivity.
Qed.

(** C3 -- rolling-window forecast contract.  For a window of [w]
    observations: when the history holds at least [w] valid observations
    the forecast is the Bessel-corrected sample variance of the last [w]
    valid observations; when it holds fewer, the call raises the
    insufficient-data [ValueError]. *)
Theorem rolling_forecast_contract {T : Type} (history : series T) (w : nat) :
  let r := reals (values history) in
  ((w <= length r)%nat ->
     Historical.forecast_next_variance history (Z.of_nat w)
     = Ok (sample_variance (last_n w r)))
  /\ ((length r < w)%nat ->
        Historical.forecast_next_variance history (Z.of_nat w)
        = Raise (ValueError
                   "Not enough observations for the specified window.")).
Proof.
  intros r. split.
  - apply forecast_sufficient.
  - apply forecast_insufficient.
Qed.

Lemma test_forecast_value :
  Historical.forecast_next_variance test_returns 3 = Ok (Fin (37 / 120000)).
Proof.
  change 3%Z with (Z.of_nat 3).
  rewrite forecast_sufficient by (simpl; lia).
  unfold sample_variance, last_n, test_returns.
  cbn [values map snd reals length Nat.sub skipn Nat.leb].
  do 2 f_equal. unfold Rsum, sq. cbn [map fold_right].
  replace (INR 3) with 3 by (simpl; lra). field.
Qed.

(** C6, as stated, fails: on [[0.01, -0.02, 0.015, -0.005]] with window 3
    the forecast is not within 0.00004 of 0.0003583. *)
Lemma rolling_forecast_not_0003583 :
  ~ (exists v : R,
       Historical.forecast_next_variance test_returns 3 = Ok (Fin v)
       /\ Rabs (v - 3583 / 10000000) <= 4 / 100000).
Proof.
  intros [v [Hv Habs]]. rewrite test_forecast_value in Hv.
  injection Hv as <-. revert Habs. unfold Rabs.
  destruct (Rcase_abs _); lra.
Qed.

(** C6, amended -- on [[0.01, -0.02, 0.015, -0.005]] with window 3 the
    forecast is the sample variance of the last three observations,
    37/120000, approximately 0.0003083. *)
Theorem rolling_forecast_test_value :
  Historical.forecast_next_variance test_returns 3
  = Ok (sample_variance [- 2 / 100; 15 / 1000; - 5 / 1000])
  /\ sample_variance [- 2 / 100; 15 / 1000; - 5 / 1000] = Fin (37 / 120000)
  /\ Rabs (37 / 120000 - 3083 / 10000000) <= 1 / 10000000.
Proof.
  assert (Hs : sample_variance [- 2 / 100; 15 / 1000; - 5 / 1000]
               = Fin (37 / 120000)).
  { unfold sample_variance. cbn [length Nat.leb].
    f_equal. unfold Rsum, sq. cbn [map fold_right].
    replace (INR 3) with 3 by (simpl; lra). field. }
  split; [|split].
  - rewrite Hs. apply test_forecast_value.
  - exact Hs.
  - unfold Rabs. destruct (Rcase_abs _); lra.
Qed.

(** ** Log returns *)

Section LogReturns.
Context {T : Type}.

Lemma log_returns_body (prices : series T) (prev : num) :
  smap flog (binop fdiv prices (combine (index prices) (prev :: values prices)))
  = combine (index prices) (log_ratios prev (values prices)).
Proof.
  revert prev. induction prices as [|[t v] prices IH]; intros prev;
    [reflexivity|].
  simpl. f_equal. apply IH.
Qed.

Lemma length_log_ratios (prev : num) (vs : list num) :
  length (log_ratios prev vs) = length vs.
Proof.
  revert prev. induction vs as [|v vs IH]; intros prev; simpl;
    [reflexivity|]. rewrite IH. reflexivity.
Qed.

Lemma log_ratios_nth (prev : num) (vs : list num) (i : nat) :
  (S i < length vs)%nat ->
  nth (S i) (log_ratios prev vs) NaN
  = flog (fdiv (nth (S i) vs NaN) (nth i vs NaN)).
Proof.
  revert prev i. induction vs as [|v vs IH]; intros prev i Hi;
    simpl in Hi; [lia|].
  destruct i as [|i].
  - destruct vs as [|v' vs]; simpl in Hi; [lia|]. reflexivity.
  - change (nth (S i) (log_ratios v vs) NaN
            = flog (fdiv (nth (S i) vs NaN) (nth i vs NaN))).
    apply IH. lia.
Qed.

Lemma flog_fdiv_pos (a b : R) :
  0 < a -> 0 < b -> flog (fdiv (Fin a) (Fin b)) = Fin (ln (a / b)).
Proof.
  intros Ha Hb. unfold fdiv, flog.
  destruct (Req_dec_T b 0) as [E|_]; [lra|].
  destruct (Rlt_dec 0 (a / b)) as [_|H]; [reflexivity|].
  exfalso. apply H. apply Rdiv_lt_0_compat; assumption.
Qed.

Lemma index_combine (idx : list T) (vals : list num) :
  length idx = length vals -> index (combine idx vals) = idx.
Proof.
  revert vals. induction idx as [|t idx IH]; intros [|v vals] Hlen;
    simpl in *; try discriminate; [reflexivity|].
  f_equal. apply IH. lia.
Qed.

Lemma nth_map_Fin (l : list R) (d : R) (i : nat) :
  (i < length l)%nat -> nth i (map Fin l) NaN = Fin (nth i l d).
Proof.
  intros Hi. rewrite (nth_indep _ NaN (Fin d)) by (rewrite length_map; lia).
  apply (map_nth Fin).
Qed.

Lemma nth_positive (l : list R) (i : nat) :
  (forall x, In x l -> 0 < x) -> (i < length l)%nat -> 0 < nth i l 1.
Proof.
  intros Hpos Hi. apply Hpos. apply nth_In. exact Hi.
Qed.

Lemma values_of_reals (ps : list (T * R)) :
  values (of_reals ps) = map Fin (map snd ps).
Proof. unfold values, of_reals. rewrite !map_map. reflexivity. Qed.

Lemma index_of_reals (ps : list (T * R)) :
  index (of_reals ps) = map fst ps.
Proof. unfold index, of_reals. rewrite map_map. reflexivity. Qed.

End LogReturns.

(** C5, as stated, fails: [log_returns] does not raise on the empty price
    series; it returns the empty series. *)
Lemma log_returns_empty_returns :
  Returns.log_returns (@nil (Z * num)) = Ok []
  /\ ~ raises (Returns.log_returns (@nil (Z * num))).
Proof.
  split; [reflexivity|]. intros [e He]. discriminate He.
Qed.

(** C5, amended -- [log_returns] never raises.  On any price series it
    returns a series over the same index (hence of the same length; the
    empty series for the empty input); on all-positive prices element 0 is
    the undefined marker and element [i > 0] is
    [ln (price[i] / price[i-1])].  The result is a new value: the input is
    not modified. *)
Theorem log_returns_contract {T : Type} :
  (forall prices : series T,
     exists rets : series T,
       Returns.log_returns prices = Ok rets
       /\ index rets = index prices
       /\ length rets = length prices)
  /\ (forall (ps : list (T * R)) (rets : series T),
        (forall p, In p ps -> 0 < snd p) ->
        Returns.log_returns (of_reals ps) = Ok rets ->
        (ps <> [] -> nth 0 (values rets) (Fin 0) = NaN)
        /\ (forall i : nat, (0 < i < length ps)%nat ->
              nth i (values rets) NaN
              = Fin (ln (nth i (map snd ps) 1 / nth (i - 1) (map snd ps) 1)))).
Proof.
  assert (Hbody : forall prices : series T,
             Returns.log_returns prices
             = Ok (combine (index prices) (log_ratios NaN (values prices)))).
  { intros prices. unfold Returns.log_returns, shift1.
    rewrite log_returns_body. reflexivity. }
  assert (Hvals : forall prices : series T,
             values (combine (index prices) (log_ratios NaN (values prices)))
             = log_ratios NaN (values prices)).
  { intros prices. apply values_combine.
    rewrite length_log_ratios, length_index, length_values. reflexivity. }
  split.
  - intros prices. eexists. split; [apply Hbody|]. split.
    + apply index_combine.
      rewrite length_log_ratios, length_index, length_values. reflexivity.
    + rewrite length_combine, length_log_ratios, length_index, length_values.
      apply Nat.min_id.
  - intros ps rets Hpos Hrun. rewrite Hbody in Hrun. injection Hrun as <-.
    rewrite Hvals, values_of_reals. split.
    + intros Hne. destruct ps as [|p ps]; [contradiction|]. reflexivity.
    + intros i Hi. replace i with (S (i - 1)) at 1 by lia.
      rewrite log_ratios_nth by (rewrite !length_map; lia).
      replace (S (i - 1)) with i by lia.
      assert (Hall : forall x, In x (map snd ps) -> 0 < x).
      { intros x Hx. apply in_map_iff in Hx. destruct Hx as [p [<- Hp]].
        apply Hpos. exact Hp. }
      rewrite (nth_map_Fin _ 1 i), (nth_map_Fin _ 1 (i - 1))
        by (rewrite length_map; lia).
      apply flog_fdiv_pos; apply nth_positive; try exact Hall;
        rewrite length_map; lia.
Qed.

(** ** Realized volatility and variance *)

Lemma fsq_fsqrt (a : num) : defined_nonneg a -> fsq (fsqrt a) = a.
Proof.
  destruct a as [|x]; simpl; [reflexivity|]. intros Hx.
  destruct (Rlt_dec x 0); [lra|]. simpl. f_equal. apply sqrt_sqrt. exact Hx.
Qed.

Lemma fsqrt_fsq_fsqrt (a : num) : fsqrt (fsq (fsqrt a)) = fsqrt a.
Proof.
  destruct a as [|x]; [reflexivity|].
  destruct (Rlt_dec x 0) as [Hx|Hx].
  - assert (E : fsqrt (Fin x) = NaN).
    { unfold fsqrt. destruct (Rlt_dec x 0); [reflexivity|contradiction]. }
    rewrite E. reflexivity.
  - rewrite fsq_fsqrt; [reflexivity|]. simpl. lra.
Qed.

Lemma fsum_squares_nonneg (l : list num) :
  defined_nonneg (Evaluation.fsum (map fsq l)).
Proof.
  induction l as [|a l IH]; simpl; [lra|].
  destruct a as [|x]; simpl; [exact I|].
  destruct (Evaluation.fsum (map fsq l)) as [|y]; simpl in *; [exact I|].
  nra.
Qed.

Lemma scaled_nonneg (ppy w : Z) (a : num) :
  (0 <= ppy)%Z -> (0 < w)%Z -> defined_nonneg a ->
  defined_nonneg (fmul (fdiv (of_int ppy) (of_int w)) a).
Proof.
  intros Hp' Hw Ha. unfold of_int, fdiv.
  assert (Hw' : 0 < IZR w) by (apply IZR_lt; exact Hw).
  destruct (Req_dec_T (IZR w) 0) as [E|_]; [lra|].
  destruct a as [|x]; simpl in *; [exact I|].
  assert (Hp : 0 <= IZR ppy) by (apply IZR_le; exact Hp').
  apply Rmult_le_pos; [|exact Ha].
  apply Rmult_le_pos; [exact Hp|].
  apply Rlt_le, Rinv_0_lt_compat. exact Hw'.
Qed.

(** The sum the code accumulates over a window of squared returns is the
    real sum of the squares when every return is defined, and undefined
    otherwise. *)
Lemma fsum_squares (l : list num) :
  Evaluation.fsum (map fsq l)
  = if forallb (fun x => negb (isnan x)) l
    then Fin (Rsum (map sq (reals l))) else NaN.
Proof.
  induction l as [|a l IH]; [reflexivity|].
  cbn [map Evaluation.fsum fold_right forallb].
  fold (Evaluation.fsum (map fsq l)). rewrite IH.
  destruct a as [|x]; [reflexivity|].
  cbn [isnan negb andb reals map].
  destruct (forallb (fun x => negb (isnan x)) l); reflexivity.
Qed.

(** The scaled sum of the code against the reference formula. *)
Lemma scaled_sum_reference (ppy w : Z) (rets : list num) (i : nat) :
  (0 < w)%Z ->
  (if (i + 1 <? Z.to_nat w)%nat then NaN
   else fmul (fdiv (of_int ppy) (of_int w))
          (Evaluation.fsum
             (map fsq (window_ending_at (Z.to_nat w) i rets))))
  = realized_variance_at ppy w rets i.
Proof.
  intros Hw. unfold realized_variance_at.
  destruct (i + 1 <? Z.to_nat w)%nat; [reflexivity|].
  cbv zeta. rewrite fsum_squares. unfold of_int, fdiv.
  assert (Hw' : 0 < IZR w) by (apply IZR_lt; exact Hw).
  destruct (Req_dec_T (IZR w) 0) as [E|_]; [lra|].
  destruct (forallb _ _); reflexivity.
Qed.

Lemma realized_variance_at_sign (ppy w : Z) (rets : list num) (i : nat) :
  (0 <= ppy)%Z -> (0 < w)%Z ->
  defined_nonneg (realized_variance_at ppy w rets i).
Proof.
  intros Hp Hw. rewrite <- scaled_sum_reference by exact Hw.
  destruct (i + 1 <? Z.to_nat w)%nat; [exact I|].
  apply scaled_nonneg; [exact Hp|exact Hw|apply fsum_squares_nonneg].
Qed.

Lemma fsq_fsqrt_negative (v : R) : v < 0 -> fsq (fsqrt (Fin v)) = NaN.
Proof.
  intros Hv. unfold fsqrt. destruct (Rlt_dec v 0); [reflexivity|lra].
Qed.

Section Dict.
Context {V : Type}.

Lemma dict_get_set_same (k : Z) (v : V) (d : list (Z * V)) :
  Evaluation.dict_get k (Evaluation.dict_set k v d) = Ok v.
Proof.
  induction d as [|[k' v'] d IH]; simpl.
  - rewrite Z.eqb_refl. reflexivity.
  - destruct (k' =? k)%Z eqn:E; simpl.
    + rewrite Z.eqb_refl. reflexivity.
    + rewrite E. exact IH.
Qed.

Lemma dict_get_set_other (k k' : Z) (v : V) (d : list (Z * V)) :
  k <> k' ->
  Evaluation.dict_get k (Evaluation.dict_set k' v d) = Evaluation.dict_get k d.
Proof.
  intros Hk. induction d as [|[k0 v0] d IH]; simpl.
  - replace (k' =? k)%Z with false by (symmetry; apply Z.eqb_neq; lia).
    reflexivity.
  - destruct (k0 =? k')%Z eqn:E; simpl.
    + apply Z.eqb_eq in E. subst k0.
      replace (k' =? k)%Z with false by (symmetry; apply Z.eqb_neq; lia).
      reflexivity.
    + destruct (k0 =? k)%Z; [reflexivity|exact IH].
Qed.

Lemma dict_get_map {W : Type} (f : V -> W) (k : Z) (d : list (Z * V)) :
  Evaluation.dict_get k (map (fun kv => (fst kv, f (snd kv))) d)
  = (v <- Evaluation.dict_get k d ;; Ok (f v)).
Proof.
  induction d as [|[k0 v0] d IH]; simpl; [reflexivity|].
  destruct (k0 =? k)%Z; [reflexivity|exact IH].
Qed.

End Dict.

Section RealizedVolatility.
Context {T : Type}.
Variables (returns : series T) (periods_per_year : Z).

Lemma windowed_realized_volatility_loop (windows : list Z) :
  Evaluation.windowed_realized_volatility returns windows periods_per_year
  = for_each windows (rv_step returns periods_per_year) [].
Proof. reflexivity. Qed.

Lemma rv_loop_ok (windows : list Z) (data : list (Z * series T)) :
  (forall w, In w windows -> (0 < w)%Z) ->
  for_each windows (rv_step returns periods_per_year) data
  = Ok (fold_left
          (fun d w =>
             Evaluation.dict_set w (rv_column returns periods_per_year w) d)
          windows data).
Proof.
  revert data. induction windows as [|w ws IH]; intros data Hpos;
    [reflexivity|].
  simpl. unfold rv_step at 1.
  replace (w <=? 0)%Z with false
    by (symmetry; apply Z.leb_gt; apply Hpos; left; reflexivity).
  simpl bind. apply IH. intros w' Hw'. apply Hpos. right. exact Hw'.
Qed.

Lemma rv_loop_raises (windows : list Z) (data : list (Z * series T)) :
  (exists w, In w windows /\ (w <= 0)%Z) ->
  for_each windows (rv_step returns periods_per_year) data
  = Raise (ValueError "Window must be positive.").
Proof.
  revert data. induction windows as [|w ws IH]; intros data [w0 [Hin Hw0]];
    [contradiction|].
  simpl. unfold rv_step at 1. destruct (w <=? 0)%Z eqn:E; [reflexivity|].
  simpl bind. apply IH. exists w0. split; [|exact Hw0].
  destruct Hin as [->|Hin]; [|exact Hin].
  apply Z.leb_gt in E. lia.
Qed.

Lemma rv_fold_get (windows : list Z) (data : list (Z * series T)) (w : Z) :
  In w windows
  \/ Evaluation.dict_get w data = Ok (rv_column returns periods_per_year w) ->
  Evaluation.dict_get w
    (fold_left
       (fun d w =>
          Evaluation.dict_set w (rv_column returns periods_per_year w) d)
       windows data)
  = Ok (rv_column returns periods_per_year w).
Proof.
  revert data. induction windows as [|w' ws IH]; intros data H; simpl.
  - destruct H as [[]|H]. exact H.
  - apply IH. destruct (Z.eq_dec w w') as [<-|Hne].
    + right. apply dict_get_set_same.
    + destruct H as [[E|H]|H].
      * congruence.
      * left. exact H.
      * right. rewrite dict_get_set_other by exact Hne. exact H.
Qed.

Lemma index_rolling_sum (w : nat) (s : series T) :
  index (Evaluation.rolling_sum w s) = index s.
Proof.
  unfold Evaluation.rolling_sum. apply index_combine.
  rewrite length_index, length_map, length_seq. reflexivity.
Qed.

Lemma values_rolling_sum (w : nat) (s : series T) :
  values (Evaluation.rolling_sum w s)
  = map (fun i => if (i + 1 <? w)%nat then NaN
                  else Evaluation.fsum (window_ending_at w i (values s)))
        (seq 0 (length s)).
Proof.
  unfold Evaluation.rolling_sum. apply values_combine.
  rewrite length_index, length_map, length_seq. reflexivity.
Qed.

Lemma index_rv_column (w : Z) :
  index (rv_column returns periods_per_year w) = index returns.
Proof.
  unfold rv_column. rewrite index_smap, index_rolling_sum, index_smap.
  reflexivity.
Qed.

Lemma rv_column_nth (w : Z) (i : nat) :
  (i < length returns)%nat ->
  nth i (values (rv_column returns periods_per_year w)) NaN
  = fsqrt (if (i + 1 <? Z.to_nat w)%nat then NaN
           else fmul (fdiv (of_int periods_per_year) (of_int w))
                  (Evaluation.fsum
                     (map fsq (window_ending_at (Z.to_nat w) i
                                 (values returns))))).
Proof.
  intros Hi. unfold rv_column.
  rewrite values_smap, values_rolling_sum, map_map.
  set (f := fun i : nat => _).
  assert (Hlen : length (smap fsq returns) = length returns)
    by (unfold smap; apply length_map).
  rewrite Hlen.
  rewrite (nth_indep _ NaN (f 0%nat))
    by (rewrite length_map, length_seq; exact Hi).
  rewrite map_nth, seq_nth by exact Hi. simpl Nat.add. unfold f.
  destruct (i + 1 <? Z.to_nat w)%nat.
  - destruct (fdiv (of_int periods_per_year) (of_int w)); reflexivity.
  - rewrite values_smap. unfold window_ending_at.
    rewrite skipn_map, firstn_map. reflexivity.
Qed.

End RealizedVolatility.

(** C7, amended -- realized-variance reference.  A requested window
    [w <= 0] makes the call raise.  With every requested window positive,
    the column of window [w] carries the index of the return series and is
    undefined on the first [w - 1] rows.  For [periods_per_year >= 0] it
    holds at row [i] the value
    [(periods_per_year / w) * (sum of the squared returns of the w rows
    ending at i)]; where that product is negative (a negative
    [periods_per_year]) the column holds the undefined marker, the
    variance being the square of the volatility.  Realized volatility is
    the square root of this realized variance. *)
Theorem realized_variance_contract {T : Type} (returns : series T)
  (windows : list Z) (periods_per_year : Z) :
  ((exists w, In w windows /\ (w <= 0)%Z) ->
     Evaluation.windowed_realized_variance returns windows periods_per_year
     = Raise (ValueError "Window must be positive."))
  /\ ((forall w, In w windows -> (0 < w)%Z) ->
        exists var vol : list (Z * series T),
          Evaluation.windowed_realized_variance returns windows
            periods_per_year = Ok var
          /\ Evaluation.windowed_realized_volatility returns windows
               periods_per_year = Ok vol
          /\ forall w, In w windows ->
               exists cvar cvol : series T,
                 Evaluation.dict_get w var = Ok cvar
                 /\ Evaluation.dict_get w vol = Ok cvol
                 /\ index cvar = index returns
                 /\ index cvol = index returns
                 /\ forall i : nat, (i < length returns)%nat ->
                      ((0 <= periods_per_year)%Z ->
                         nth i (values cvar) NaN
                         = realized_variance_at periods_per_year w
                             (values returns) i)
                      /\ (forall v : R,
                            realized_variance_at periods_per_year w
                              (values returns) i = Fin v ->
                            v < 0 -> nth i (values cvar) NaN = NaN)
                      /\ ((i + 1 < Z.to_nat w)%nat ->
                            nth i (values cvar) NaN = NaN)
                      /\ nth i (values cvol) NaN
                         = fsqrt (nth i (values cvar) NaN)).
Proof.
  set (ppy := periods_per_year).
  split.
  - intros Hbad. unfold Evaluation.windowed_realized_variance.
    rewrite windowed_realized_volatility_loop, rv_loop_raises by exact Hbad.
    reflexivity.
  - intros Hpos. unfold Evaluation.windowed_realized_variance.
    rewrite windowed_realized_volatility_loop, rv_loop_ok by exact Hpos.
    simpl bind. eexists. eexists. split; [reflexivity|]. split; [reflexivity|].
    intros w Hw.
    exists (smap fsq (rv_column returns ppy w)), (rv_column returns ppy w).
    assert (Hget := rv_fold_get returns ppy windows [] w (or_introl Hw)).
    split; [|split; [exact Hget|split; [|split]]].
    + rewrite dict_get_map, Hget. reflexivity.
    + rewrite index_smap. apply index_rv_column.
    + apply index_rv_column.
    + intros i Hi. rewrite values_smap.
      assert (Hnth : nth i (map fsq (values (rv_column returns ppy w))) NaN
                     = fsq (nth i (values (rv_column returns ppy w)) NaN)).
      { change NaN with (fsq NaN) at 1. apply map_nth. }
      rewrite Hnth, rv_column_nth by exact Hi.
      rewrite (scaled_sum_reference ppy w (values returns) i (Hpos w Hw)).
      split; [|split; [|split]].
      * intros Hp. apply fsq_fsqrt.
        apply realized_variance_at_sign; [exact Hp|exact (Hpos w Hw)].
      * intros v Hv Hneg. rewrite Hv. apply fsq_fsqrt_negative. exact Hneg.
      * intros Hlt. unfold realized_variance_at.
        replace (i + 1 <? Z.to_nat w)%nat with true
          by (symmetry; apply Nat.ltb_lt; exact Hlt).
        reflexivity.
      * symmetry. apply fsqrt_fsq_fsqrt.
Qed.

(** ** Alignment and the QLIKE loss *)

Section Alignment.
Context {T : Type} (T_eq_dec : forall a b : T, {a = b} + {a <> b}).

Lemma binop_rows {X : Type} (f : num -> num -> num) (k : X -> T)
  (g h : X -> num) (rows : list X) :
  binop f (map (fun r => (k r, g r)) rows) (map (fun r => (k r, h r)) rows)
  = map (fun r => (k r, f (g r) (h r))) rows.
Proof.
  unfold binop. induction rows as [|r rows IH]; simpl; [reflexivity|].
  f_equal. exact IH.
Qed.

Lemma smap_rows {X : Type} (f : num -> num) (k : X -> T) (g : X -> num)
  (rows : list X) :
  smap f (map (fun r => (k r, g r)) rows) = map (fun r => (k r, f (g r))) rows.
Proof. unfold smap. rewrite map_map. reflexivity. Qed.

Lemma mean_reals_Fin (l : list R) : mean (map Fin l) = mean_reals l.
Proof.
  destruct l as [|x l]; [reflexivity|].
  rewrite mean_map_Fin by discriminate. reflexivity.
Qed.

Lemma lookup_all_of_reals (t : T) (s : list (T * R)) :
  Evaluation.lookup_all T_eq_dec t (of_reals s)
  = map Fin (Evaluation.lookup_all T_eq_dec t s).
Proof.
  unfold Evaluation.lookup_all, of_reals.
  induction s as [|[t' x] s IH]; simpl; [reflexivity|].
  destruct (T_eq_dec t' t); simpl; [f_equal|]; exact IH.
Qed.

Lemma lookup_all_not_in {V : Type} (t : T) (s : list (T * V)) :
  ~ In t (map fst s) -> Evaluation.lookup_all T_eq_dec t s = [].
Proof.
  unfold Evaluation.lookup_all.
  induction s as [|[t' x] s IH]; simpl; intros H; [reflexivity|].
  destruct (T_eq_dec t' t) as [E|_].
  - exfalso. apply H. left. exact E.
  - apply IH. intros Hin. apply H. right. exact Hin.
Qed.

(** Two series over the same index without repeated labels: every row of
    the first finds exactly the row at its own position in the second. *)
Lemma shared_rows_same_index (pred realized : list (T * R)) :
  map fst pred = map fst realized ->
  NoDup (map fst realized) ->
  shared_rows T_eq_dec pred realized
  = map (fun pr => (snd (fst pr), snd (snd pr))) (combine pred realized).
Proof.
  unfold shared_rows.
  assert (Hgen : forall (pre : list (T * R)) (pred' real' : list (T * R)),
             map fst pred' = map fst real' ->
             NoDup (map fst (pre ++ real')) ->
             flat_map (fun p => map (fun y => (snd p, y))
                          (Evaluation.lookup_all T_eq_dec (fst p)
                             (pre ++ real'))) pred'
             = map (fun pr => (snd (fst pr), snd (snd pr)))
                   (combine pred' real')).
  { intros pre pred'. revert pre.
    induction pred' as [|[t f] pred' IH]; intros pre [|[t' y] real'] Hidx Hnd;
      simpl in Hidx; try discriminate; [reflexivity|].
    injection Hidx as <- Hidx. simpl.
    assert (Hl : Evaluation.lookup_all T_eq_dec t (pre ++ (t, y) :: real')
                 = [y]).
    { rewrite map_app in Hnd. simpl in Hnd.
      apply NoDup_remove_2 in Hnd.
      unfold Evaluation.lookup_all. rewrite filter_app, map_app. simpl.
      destruct (T_eq_dec t t) as [_|N]; [|contradiction]. simpl.
      fold (Evaluation.lookup_all T_eq_dec t pre).
      fold (Evaluation.lookup_all T_eq_dec t real').
      rewrite !lookup_all_not_in; [reflexivity| |];
        intros Hin; apply Hnd; apply in_or_app; auto. }
    rewrite Hl. simpl. f_equal.
    specialize (IH (pre ++ [(t, y)]) real' Hidx).
    rewrite <- app_assoc in IH. simpl in IH. apply IH. exact Hnd. }
  intros Hidx Hnd. apply (Hgen [] pred realized Hidx Hnd).
Qed.

(** The outcome of [align] on two fully defined series: both sides list
    the shared rows. *)
Lemma align_inner_rows (pred realized : list (T * R)) :
  NoDup (map fst realized) ->
  exists rows : list (T * (R * R)),
    Evaluation.align_inner T_eq_dec (of_reals pred) (of_reals realized)
    = (map (fun r => (fst r, Fin (fst (snd r)))) rows,
       map (fun r => (fst r, Fin (snd (snd r)))) rows)
    /\ map snd rows = shared_rows T_eq_dec pred realized.
Proof.
  intros Hnd. unfold Evaluation.align_inner.
  destruct (list_eq_dec T_eq_dec (index (of_reals pred))
              (index (of_reals realized))) as [E|_].
  - rewrite !index_of_reals in E.
    exists (map (fun pr => (fst (fst pr), (snd (fst pr), snd (snd pr))))
              (combine pred realized)).
    rewrite !map_map. simpl. split.
    + assert (Hlen : length pred = length realized).
      { rewrite <- (length_map fst pred), E, length_map. reflexivity. }
      clear Hnd. f_equal.
      * unfold of_reals. revert realized E Hlen.
        induction pred as [|[t f] pred IH]; intros [|[t' y] realized] E Hlen;
          simpl in *; try discriminate; [reflexivity|].
        injection E as <- E. f_equal. apply IH; [exact E|lia].
      * unfold of_reals. revert realized E Hlen.
        induction pred as [|[t f] pred IH]; intros [|[t' y] realized] E Hlen;
          simpl in *; try discriminate; [reflexivity|].
        injection E as <- E. f_equal. apply IH; [exact E|lia].
    + symmetry. apply shared_rows_same_index; assumption.
  - exists (flat_map (fun p => map (fun y => (fst p, (snd p, y)))
                        (Evaluation.lookup_all T_eq_dec (fst p) realized))
                     pred).
    split.
    + assert (Hrows :
        flat_map (fun p => map (fun y => (fst p, (snd p, y)))
                    (Evaluation.lookup_all T_eq_dec (fst p)
                       (of_reals realized))) (of_reals pred)
        = map (fun r => (fst r, (Fin (fst (snd r)), Fin (snd (snd r)))))
            (flat_map (fun p => map (fun y => (fst p, (snd p, y)))
                         (Evaluation.lookup_all T_eq_dec (fst p) realized))
                      pred)).
      { clear Hnd. induction pred as [|[t f] pred IH]; simpl; [reflexivity|].
        rewrite map_app, IH, lookup_all_of_reals, !map_map. reflexivity. }
      rewrite Hrows, !map_map. reflexivity.
    + unfold shared_rows. clear Hnd.
      induction pred as [|[t f] pred IH]; simpl; [reflexivity|].
      rewrite map_app, IH, map_map. reflexivity.
Qed.

End Alignment.

Section Qlike.
Context {T : Type} (T_eq_dec : forall a b : T, {a = b} + {a <> b}).

Lemma qlike_on_rows (rows : list (T * (R * R))) (eps : R) :
  0 < eps ->
  mean (values
          (binop fadd
             (smap flog
                (smap (clip_lower eps)
                   (map (fun r => (fst r, Fin (fst (snd r)))) rows)))
             (binop fdiv
                (map (fun r => (fst r, Fin (snd (snd r)))) rows)
                (smap (clip_lower eps)
                   (map (fun r => (fst r, Fin (fst (snd r)))) rows)))))
  = mean_reals (map (qlike_term eps) (map snd rows)).
Proof.
  intros Heps.
  rewrite (smap_rows (clip_lower eps)), (smap_rows flog).
  rewrite (binop_rows fdiv), (binop_rows fadd).
  unfold values. rewrite map_map. simpl.
  rewrite <- mean_reals_Fin, !map_map. f_equal.
  apply map_ext. intros [t [f y]]. simpl.
  assert (Hmax : 0 < Rmax f eps).
  { apply Rlt_le_trans with eps; [exact Heps|apply Rmax_r]. }
  unfold flog, fdiv.
  destruct (Rlt_dec 0 (Rmax f eps)) as [_|N]; [|contradiction].
  destruct (Req_dec_T (Rmax f eps) 0) as [E|_]; [lra|].
  reflexivity.
Qed.

End Qlike.

(** C8 -- QLIKE loss.  For a forecast-variance and a realized-variance
    series (realized timestamps without repetition) and a floor
    [eps > 0], [qlike_loss] is the mean over the rows with a shared
    timestamp of [ln (max f eps) + y / max f eps]; the default floor is
    1e-8; a forecast of exactly zero contributes [ln eps + y / eps], and
    the loss is a defined number whenever a timestamp is shared: the
    floor clamps, nothing is raised. *)
Theorem qlike_loss_contract {T : Type}
  (T_eq_dec : forall a b : T, {a = b} + {a <> b})
  (pred realized : list (T * R)) (eps : R) :
  0 < eps ->
  NoDup (map fst realized) ->
  Evaluation.qlike_loss T_eq_dec (of_reals pred) (of_reals realized) eps
  = mean_reals (map (qlike_term eps) (shared_rows T_eq_dec pred realized))
  /\ (shared_rows T_eq_dec pred realized <> [] ->
        exists v : R,
          Evaluation.qlike_loss T_eq_dec (of_reals pred) (of_reals realized) eps
          = Fin v)
  /\ (forall y : R, qlike_term eps (0, y) = ln eps + y / eps)
  /\ Evaluation.default_eps = 1 / 100000000
  /\ 0 < Evaluation.default_eps.
Proof.
  intros Heps Hnd.
  assert (Hq : Evaluation.qlike_loss T_eq_dec (of_reals pred)
                 (of_reals realized) eps
               = mean_reals (map (qlike_term eps)
                               (shared_rows T_eq_dec pred realized))).
  { unfold Evaluation.qlike_loss.
    destruct (align_inner_rows T_eq_dec pred realized Hnd)
      as [rows [Halign Hrows]].
    rewrite Halign, <- Hrows. apply qlike_on_rows. exact Heps. }
  split; [exact Hq|split; [|split; [|split]]].
  - intros Hne. rewrite Hq.
    destruct (shared_rows T_eq_dec pred realized) as [|fy l];
      [contradiction|].
    simpl. eexists. reflexivity.
  - intros y. unfold qlike_term. simpl.
    rewrite Rmax_right by lra. reflexivity.
  - unfold Evaluation.default_eps. lra.
  - unfold Evaluation.default_eps. lra.
Qed.

(** ** Scoring: label lookup *)

Section Scoring.
Context {T : Type} (T_eq_dec : forall a b : T, {a = b} + {a <> b}).

Lemma loc_missing (s : series T) (labels : list T) :
  (exists t, In t labels /\ ~ In t (index s)) ->
  Evaluation.loc T_eq_dec s labels = Raise KeyError.
Proof.
  induction labels as [|t0 labels IH]; intros [t [Hin Hmiss]];
    [contradiction|].
  simpl. destruct (Evaluation.lookup_all T_eq_dec t0 s) as [|v vs] eqn:E;
    [reflexivity|].
  destruct Hin as [->|Hin].
  - rewrite lookup_all_not_in in E by exact Hmiss. discriminate.
  - rewrite IH; [reflexivity|]. exists t. split; assumption.
Qed.

Lemma get_column_in (columns : list (string * list num)) (col : string) :
  In col (map fst columns) ->
  exists vals, Evaluation.get_column columns col = Ok vals
               /\ In (col, vals) columns.
Proof.
  induction columns as [|[c vals] columns IH]; intros Hin; [contradiction|].
  simpl. destruct (String.eqb c col) eqn:E.
  - apply String.eqb_eq in E. subst c. exists vals. split; [reflexivity|].
    left. reflexivity.
  - destruct Hin as [Hin|Hin].
    + simpl in Hin. subst c. rewrite String.eqb_refl in E. discriminate.
    + destruct (IH Hin) as [vals' [Hget Hin']]. exists vals'.
      split; [exact Hget|]. right. exact Hin'.
Qed.

Lemma column_index (forecast_var : Evaluation.DataFrame T) (col : string) :
  well_formed forecast_var ->
  In col (map fst (Evaluation.df_columns forecast_var)) ->
  exists var_pred,
    Evaluation.column forecast_var col = Ok var_pred
    /\ index var_pred = Evaluation.df_index forecast_var.
Proof.
  intros Hwf Hin. unfold Evaluation.column.
  destruct (get_column_in _ _ Hin) as [vals [Hget Hvals]].
  rewrite Hget. simpl bind. eexists. split; [reflexivity|].
  apply index_combine. symmetry. apply (Hwf col vals Hvals).
Qed.

Lemma windowed_realized_variance_ok (returns : series T) (windows : list Z)
  (periods_per_year : Z) :
  (forall w, In w windows -> (0 < w)%Z) ->
  exists var,
    Evaluation.windowed_realized_variance returns windows periods_per_year
    = Ok var
    /\ forall w, In w windows ->
         Evaluation.dict_get w var
         = Ok (smap fsq (rv_column returns periods_per_year w)).
Proof.
  intros Hpos. unfold Evaluation.windowed_realized_variance.
  rewrite windowed_realized_volatility_loop, rv_loop_ok by exact Hpos.
  simpl bind. eexists. split; [reflexivity|]. intros w Hw.
  rewrite dict_get_map, rv_fold_get by (left; exact Hw). reflexivity.
Qed.

Lemma windowed_realized_variance_raises (returns : series T)
  (windows : list Z) (periods_per_year : Z) :
  (exists w, In w windows /\ (w <= 0)%Z) ->
  Evaluation.windowed_realized_variance returns windows periods_per_year
  = Raise (ValueError "Window must be positive.").
Proof.
  intros Hbad. unfold Evaluation.windowed_realized_variance.
  rewrite windowed_realized_volatility_loop, rv_loop_raises by exact Hbad.
  reflexivity.
Qed.

Lemma windows_positive_or_not (windows : list Z) :
  (forall w, In w windows -> (0 < w)%Z)
  \/ (exists w, In w windows /\ (w <= 0)%Z).
Proof.
  induction windows as [|w ws [IH|[w' [Hin Hw']]]].
  - left. intros w [].
  - destruct (Z_lt_le_dec 0 w) as [Hw|Hw].
    + left. intros w' [<-|Hin]; [exact Hw|apply IH; exact Hin].
    + right. exists w. split; [left; reflexivity|exact Hw].
  - right. exists w'. split; [right; exact Hin|exact Hw'].
Qed.

End Scoring.

(** C7, as stated, fails for a negative [periods_per_year]: on the returns
    [[0.01, -0.02, 0.015, -0.005]] with window 2 and
    [periods_per_year = -252], the claim gives
    [-252 / 2 * (0.01^2 + 0.02^2) = -0.063] at row 1, and the code returns
    the undefined marker there. *)
Lemma realized_variance_negative_periods :
  exists (var : list (Z * series Z)) (col : series Z),
    Evaluation.windowed_realized_variance test_returns [2%Z] (-252) = Ok var
    /\ Evaluation.dict_get 2 var = Ok col
    /\ nth 1 (values col) NaN = NaN
    /\ nth 1 (values col) NaN
       <> Fin (-252 / 2 * (sq (1 / 100) + sq (- 2 / 100))).
Proof.
  destruct (windowed_realized_variance_ok test_returns [2%Z] (-252))
    as [var [Hvar Hget]].
  { intros w [<-|[]]. lia. }
  assert (Hval : nth 1 (values (smap fsq (rv_column test_returns (-252) 2)))
                   NaN = NaN).
  { rewrite values_smap. change NaN with (fsq NaN) at 1. rewrite map_nth.
    rewrite rv_column_nth by (simpl; lia).
    rewrite scaled_sum_reference by lia.
    replace (realized_variance_at (-252) 2 (values test_returns) 1)
      with (Fin (-252 / 2 * (sq (1 / 100) + sq (- 2 / 100))))
      by (unfold realized_variance_at; simpl; f_equal; lra).
    apply fsq_fsqrt_negative. unfold sq. lra. }
  exists var, (smap fsq (rv_column test_returns (-252) 2)).
  split; [exact Hvar|]. split; [apply Hget; left; reflexivity|].
  split; [exact Hval|]. rewrite Hval. discriminate.
Qed.

(** C9 -- a forecast timestamp that is absent from the return series makes
    [evaluate_forecasts] raise instead of dropping the row: the call
    never returns a metrics table, so no alignment of the loss functions
    takes effect.  The error is a [KeyError] -- that of the label lookup,
    which precedes the first metric (with windows requested and no column
    or no window to score, that of indexing the empty metrics frame) --
    unless a requested window is not positive, which is reported first. *)
Theorem evaluate_forecasts_missing_timestamp {T : Type}
  (T_eq_dec : forall a b : T, {a = b} + {a <> b})
  (forecast_var : Evaluation.DataFrame T) (returns : series T)
  (realized_windows : option (list Z)) (annualize_pred : bool)
  (periods_per_year : Z) :
  well_formed forecast_var ->
  (exists t, In t (Evaluation.df_index forecast_var)
             /\ ~ In t (index returns)) ->
  raises (Evaluation.evaluate_forecasts T_eq_dec forecast_var returns
            realized_windows annualize_pred periods_per_year)
  /\ ((forall ws, realized_windows = Some ws ->
         forall w, In w ws -> (0 < w)%Z) ->
      Evaluation.evaluate_forecasts T_eq_dec forecast_var returns
        realized_windows annualize_pred periods_per_year
      = Raise KeyError).
Proof.
  intros Hwf Hmiss.
  assert (Hmain :
    (forall ws, realized_windows = Some ws ->
       forall w, In w ws -> (0 < w)%Z) ->
    Evaluation.evaluate_forecasts T_eq_dec forecast_var returns
      realized_windows annualize_pred periods_per_year = Raise KeyError).
  { intros Hpos. unfold Evaluation.evaluate_forecasts.
    destruct realized_windows as [ws|].
    - specialize (Hpos ws eq_refl).
      destruct (windowed_realized_variance_ok returns ws periods_per_year Hpos)
        as [var [Hvar Hget]].
      rewrite Hvar. simpl bind.
      set (scale := if annualize_pred then of_int periods_per_year else Fin 1).
      destruct ws as [|w ws].
      + (* no window requested: no metric row, nothing to index by *)
        assert (Hloop : forall names metrics,
                  (forall n, In n names ->
                     In n (map fst (Evaluation.df_columns forecast_var))) ->
                  for_each names
                    (fun col metrics =>
                       var_pred_raw <- Evaluation.column forecast_var col ;;
                       for_each (@nil Z)
                         (fun w metrics =>
                            rv_w <- Evaluation.dict_get w var ;;
                            realized_var <-
                              Evaluation.loc T_eq_dec rv_w
                                (index (smap (fun x => fmul x scale)
                                          var_pred_raw)) ;;
                            Ok (metrics ++
                                [Evaluation.mkMetric col (Some w)
                                   (Evaluation.mse_variance T_eq_dec
                                      (smap (fun x => fmul x scale)
                                         var_pred_raw) realized_var)
                                   (Evaluation.mae_volatility T_eq_dec
                                      (smap fsqrt
                                         (smap (fun x => fmul x scale)
                                            var_pred_raw)) realized_var)
                                   (Evaluation.qlike_loss T_eq_dec
                                      (smap (fun x => fmul x scale)
                                         var_pred_raw) realized_var
                                      Evaluation.default_eps)]))
                         metrics)
                    metrics = Ok metrics).
        { induction names as [|n names IH]; intros metrics Hin;
            [reflexivity|].
          simpl.
          destruct (column_index forecast_var n Hwf (Hin n (or_introl eq_refl)))
            as [vp [Hcol _]].
          rewrite Hcol. simpl. apply IH. intros n' Hn'. apply Hin. right.
          exact Hn'. }
        rewrite Hloop by (intros n Hn; exact Hn). reflexivity.
      + destruct (Evaluation.df_columns forecast_var) as [|[c vals] cols] eqn:Ec.
        * reflexivity.
        * simpl map. simpl for_each.
          destruct (column_index forecast_var c Hwf) as [vp [Hcol Hidx]].
          { rewrite Ec. left. reflexivity. }
          rewrite Hcol. simpl bind.
          rewrite (Hget w) by (left; reflexivity). simpl bind.
          rewrite loc_missing; [reflexivity|].
          rewrite index_smap, Hidx, index_smap, index_rv_column.
          exact Hmiss.
    - rewrite loc_missing; [reflexivity|].
      rewrite index_smap. exact Hmiss. }
  split; [|exact Hmain].
  destruct realized_windows as [ws|].
  - destruct (windows_positive_or_not ws) as [Hpos|Hbad].
    + exists KeyError. apply Hmain. intros ws' [= <-]. exact Hpos.
    + eexists. unfold Evaluation.evaluate_forecasts.
      rewrite windowed_realized_variance_raises by exact Hbad. reflexivity.
  - exists KeyError. apply Hmain. intros ws [=].
Qed.

(** ** Scoring: annualization of the forecasts *)

Lemma for_each_ext {A S : Type} (f g : A -> S -> result S) (xs : list A)
  (st : S) :
  (forall x st, f x st = g x st) -> for_each xs f st = for_each xs g st.
Proof.
  intros H. revert st. induction xs as [|x xs IH]; intros st; simpl;
    [reflexivity|].
  rewrite H. destruct (g x st); simpl; [apply IH|reflexivity].
Qed.

Lemma fmul_one (a : num) : fmul a (Fin 1) = a.
Proof. destruct a; simpl; [reflexivity|]. f_equal. ring. Qed.

Section Annualization.
Context {T : Type} (T_eq_dec : forall a b : T, {a = b} + {a <> b}).

Lemma get_column_scale (c : num) (columns : list (string * list num))
  (col : string) :
  Evaluation.get_column
    (map (fun kv => (fst kv, map (fun x => fmul x c) (snd kv))) columns) col
  = (vals <- Evaluation.get_column columns col ;;
     Ok (map (fun x => fmul x c) vals)).
Proof.
  induction columns as [|[k vals] columns IH]; simpl; [reflexivity|].
  destruct (String.eqb k col); [reflexivity|exact IH].
Qed.

Lemma combine_smap (f : num -> num) (idx : list T) (vals : list num) :
  combine idx (map f vals) = smap f (combine idx vals).
Proof.
  revert vals. induction idx as [|t idx IH]; intros [|v vals]; simpl;
    try reflexivity.
  f_equal. apply IH.
Qed.

Lemma column_scale (c : num) (forecast_var : Evaluation.DataFrame T)
  (col : string) :
  Evaluation.column (scale_forecasts c forecast_var) col
  = (s <- Evaluation.column forecast_var col ;;
     Ok (smap (fun x => fmul x c) s)).
Proof.
  unfold Evaluation.column, scale_forecasts. simpl.
  rewrite get_column_scale.
  destruct (Evaluation.get_column (Evaluation.df_columns forecast_var) col);
    simpl; [|reflexivity].
  rewrite combine_smap. reflexivity.
Qed.

Lemma smap_scale_one (s : series T) :
  smap (fun x => fmul x (Fin 1)) s = s.
Proof.
  unfold smap. rewrite <- (map_id s) at 2. apply map_ext.
  intros [t x]. simpl. rewrite fmul_one. reflexivity.
Qed.

End Annualization.

(** The two branches of [evaluate_forecasts].  With [realized_windows]
    provided, scoring with [annualize_pred] set is scoring the table whose
    every forecast variance is multiplied by [periods_per_year], as the
    docstring says; the branch taken when [realized_windows] is omitted
    never reads [annualize_pred]. *)
Lemma annualize_pred_scaling {T : Type}
  (T_eq_dec : forall a b : T, {a = b} + {a <> b})
  (forecast_var : Evaluation.DataFrame T) (returns : series T)
  (periods_per_year : Z) :
  (forall realized_windows : list Z,
     Evaluation.evaluate_forecasts T_eq_dec forecast_var returns
       (Some realized_windows) true periods_per_year
     = Evaluation.evaluate_forecasts T_eq_dec
         (scale_forecasts (of_int periods_per_year) forecast_var) returns
         (Some realized_windows) false periods_per_year)
  /\ Evaluation.evaluate_forecasts T_eq_dec forecast_var returns None true
       periods_per_year
     = Evaluation.evaluate_forecasts T_eq_dec forecast_var returns None false
         periods_per_year.
Proof.
  split; [|reflexivity].
  intros ws. unfold Evaluation.evaluate_forecasts.
  destruct (Evaluation.windowed_realized_variance returns ws periods_per_year)
    as [var|e]; [|reflexivity].
  simpl bind. f_equal.
  assert (Hnames :
    map fst (Evaluation.df_columns
               (scale_forecasts (of_int periods_per_year) forecast_var))
    = map fst (Evaluation.df_columns forecast_var)).
  { unfold scale_forecasts. simpl. rewrite map_map. apply map_ext.
    reflexivity. }
  unfold scale_forecasts in Hnames. simpl in Hnames. rewrite Hnames.
  apply for_each_ext. intros col metrics.
  rewrite column_scale.
  destruct (Evaluation.column forecast_var col) as [raw|e]; [|reflexivity].
  simpl bind. rewrite smap_scale_one. reflexivity.
Qed.

Ltac eval_scores :=
  cbv -[Rplus Rminus Rmult Rdiv Rinv Ropp IZR INR Rlt_dec Req_dec_T sqrt ln
        Rmax Rabs];
  replace (INR 1) with 1 by reflexivity.

Lemma unit_forecast_mse_unscaled :
  first_mse (Evaluation.evaluate_forecasts Z.eq_dec unit_forecast unit_returns
               None true 4) = Fin 0.
Proof. eval_scores. f_equal. field. Qed.

Lemma unit_forecast_mse_scaled :
  first_mse (Evaluation.evaluate_forecasts Z.eq_dec
               (scale_forecasts (of_int 4) unit_forecast) unit_returns
               None false 4) = Fin 9.
Proof. eval_scores. f_equal. field. Qed.

(** C4 -- a defect of the code.  The docstring of [evaluate_forecasts]
    promises that with [annualize_pred] set the forecasts are scaled by
    [periods_per_year] before scoring, and the branch with
    [realized_windows] does so; with [realized_windows] omitted they are
    not.  A forecast variance of 1 scored against a squared return of 1
    with [annualize_pred] set and [periods_per_year = 4] has squared error
    0; the table scaled by 4, which the claim describes, has squared
    error 9. *)
Lemma annualize_pred_ignored_without_windows :
  Evaluation.evaluate_forecasts Z.eq_dec unit_forecast unit_returns None true 4
  <> Evaluation.evaluate_forecasts Z.eq_dec
       (scale_forecasts (of_int 4) unit_forecast) unit_returns None false 4.
Proof.
  intros H. apply (f_equal first_mse) in H.
  rewrite unit_forecast_mse_unscaled, unit_forecast_mse_scaled in H.
  injection H as H. lra.
Qed.

(** ** The walk-forward harness *)

Section Dictionaries.

Lemma dict_append_not_in (name : string) (v : num)
  (d : list (string * list num)) :
  ~ In name (map fst d) -> Evaluation.dict_append name v d = d.
Proof.
  unfold Evaluation.dict_append.
  induction d as [|[k c] d IH]; intros Hn; simpl; [reflexivity|].
  destruct (String.eqb k name) eqn:E.
  - apply String.eqb_eq in E. exfalso. apply Hn. left. exact E.
  - f_equal. apply IH. intros Hin. apply Hn. right. exact Hin.
Qed.

Lemma append_all_cons (nvs : list (string * num)) (n : string)
  (c : list num) (d : list (string * list num)) :
  ~ In n (map fst nvs) ->
  append_all nvs ((n, c) :: d) = (n, c) :: append_all nvs d.
Proof.
  unfold append_all. revert c d.
  induction nvs as [|[n' v] nvs IH]; intros c d Hn; simpl; [reflexivity|].
  destruct (String.eqb n n') eqn:E.
  - apply String.eqb_eq in E. exfalso. apply Hn. left. symmetry. exact E.
  - apply IH. intros Hin. apply Hn. right. exact Hin.
Qed.

Lemma append_all_combine (names : list string) (cols : list (list num))
  (vs : list num) :
  NoDup names -> length cols = length names -> length vs = length names ->
  append_all (combine names vs) (combine names cols)
  = combine names (snoc_all cols vs).
Proof.
  intros Hnd. revert cols vs.
  induction Hnd as [|n names Hn Hnd IH]; intros cols vs Hc Hv.
  - destruct cols; [|discriminate]. destruct vs; [|discriminate]. reflexivity.
  - destruct cols as [|c cols]; [discriminate|].
    destruct vs as [|v vs]; [discriminate|].
    simpl in Hc, Hv. unfold append_all. simpl.
    rewrite String.eqb_refl.
    rewrite dict_append_not_in.
    2:{ intros Hin. apply Hn.
        clear - Hin Hc. revert cols Hc Hin.
        induction names as [|n' names IHn]; intros [|c' cols] Hc Hin;
          simpl in *; try contradiction; try discriminate.
        destruct Hin as [E|Hin]; [left; exact E|].
        right. apply (IHn cols); [lia|exact Hin]. }
    fold (append_all (combine names vs) ((n, c ++ [v]) :: combine names cols)).
    rewrite append_all_cons.
    2:{ intros Hin. apply Hn.
        clear - Hin Hv. revert vs Hv Hin.
        induction names as [|n' names IHn]; intros [|v' vs] Hv Hin;
          simpl in *; try contradiction; try discriminate.
        destruct Hin as [E|Hin]; [left; exact E|].
        right. apply (IHn vs); [lia|exact Hin]. }
    unfold snoc_all. simpl. f_equal.
    apply IH; lia.
Qed.

End Dictionaries.

Section WalkForward.
Context {T : Type}.

Lemma tbind_ok {A B : Type} (m : Evaluation.traced (T := T) A)
  (k : A -> Evaluation.traced B) (calls : list Evaluation.call) (b : B) :
  Evaluation.tbind m k = (calls, Ok b) ->
  exists c1 a c2, m = (c1, Ok a) /\ k a = (c2, Ok b) /\ calls = c1 ++ c2.
Proof.
  unfold Evaluation.tbind. destruct m as [c1 [a|e]]; [|discriminate].
  destruct (k a) as [c2 r] eqn:E. intros [= <- ->].
  exists c1, a, c2. auto.
Qed.

(** One pass of the inner loop: every estimator is called once on
    [train], in registration order, and its forecast is appended to its
    column. *)
Lemma run_models_ok (model_funcs : list (string * Evaluation.estimator))
  (train : series T) (forecasts forecasts' : list (string * list num))
  (calls : list Evaluation.call) :
  Evaluation.run_models model_funcs train forecasts = (calls, Ok forecasts') ->
  calls = map (fun nf => (fst nf, train)) model_funcs
  /\ exists vs : list num,
       Forall2 (fun nf v => snd nf train = Ok v) model_funcs vs
       /\ forecasts' = append_all (combine (map fst model_funcs) vs) forecasts.
Proof.
  unfold Evaluation.run_models. revert forecasts calls.
  induction model_funcs as [|nf mfs IH]; intros forecasts calls Hrun.
  - simpl in Hrun. injection Hrun as <- <-. split; [reflexivity|].
    exists []. split; [constructor|reflexivity].
  - simpl in Hrun.
    apply tbind_ok in Hrun. destruct Hrun as [c1 [st [c2 [H1 [H2 ->]]]]].
    destruct (snd nf train) as [v|e] eqn:Hv; [|discriminate].
    injection H1 as <- <-.
    destruct (IH _ _ H2) as [Hc [vs [Hvs Hf]]].
    split.
    + simpl. rewrite Hc. reflexivity.
    + exists (v :: vs). split; [constructor; assumption|].
      rewrite Hf. reflexivity.
Qed.

Lemma Forall2_length_eq {A B : Type} (P : A -> B -> Prop) (l : list A)
  (l' : list B) :
  Forall2 P l l' -> length l = length l'.
Proof. induction 1; simpl; congruence. Qed.

Lemma column_of_snoc (slice : Z -> series T) (ts : list Z) (t : Z)
  (model_funcs : list (string * Evaluation.estimator))
  (cols : list (list num)) (vs : list num) :
  Forall2 (column_of slice ts) model_funcs cols ->
  Forall2 (fun nf v => snd nf (slice t) = Ok v) model_funcs vs ->
  Forall2 (column_of slice (ts ++ [t])) model_funcs (snoc_all cols vs).
Proof.
  intros Hcols. revert vs.
  induction Hcols as [|nf col mfs cols Hcol Hcols IH]; intros vs Hvs.
  - inversion Hvs. constructor.
  - inversion Hvs as [|nf' v mfs' vs' Hv Hvs' E1 E2]. subst.
    unfold snoc_all. simpl. constructor.
    + unfold column_of. apply Forall2_app; [exact Hcol|].
      constructor; [exact Hv|constructor].
    + apply IH. exact Hvs'.
Qed.

End WalkForward.

Section Slices.
Context {A : Type}.

Lemma in_zrange (a b t : Z) : In t (zrange a b) <-> (a <= t < b)%Z.
Proof.
  unfold zrange. rewrite in_map_iff. split.
  - intros [k [<- Hk]]. apply in_seq in Hk. lia.
  - intros Ht. exists (Z.to_nat (t - a)). split; [lia|].
    apply in_seq. lia.
Qed.

Lemma slice_bound_range (len i : Z) :
  (0 <= len)%Z -> (0 <= slice_bound len i <= len)%Z.
Proof.
  intros Hlen. unfold slice_bound. destruct (i <? 0)%Z eqn:E.
  - apply Z.ltb_lt in E. lia.
  - apply Z.ltb_ge in E. lia.
Qed.

Lemma iloc_slice_prefix (l : list A) (a b : Z) :
  (0 <= a)%Z -> (0 <= b)%Z ->
  firstn (Z.to_nat (b - a)) (skipn (Z.to_nat a) l)
  = skipn (Z.to_nat a) (firstn (Z.to_nat b) l).
Proof.
  intros Ha Hb. rewrite skipn_firstn_comm. f_equal. lia.
Qed.

Lemma iloc_at_position (l : list A) (t : Z) (x : A) :
  iloc_at l t = Ok x ->
  nth_error l (row_position (Z.of_nat (length l)) t) = Some x
  /\ ((t < 0)%Z -> (0 <= Z.of_nat (length l) + t)%Z).
Proof.
  unfold iloc_at, row_position, getitem.
  destruct (t <? 0)%Z eqn:Et.
  - destruct (Z.of_nat (length l) + t <? 0)%Z eqn:Ep; [discriminate|].
    apply Z.ltb_ge in Ep.
    destruct (nth_error l (Z.to_nat (Z.of_nat (length l) + t))) eqn:En;
      [|discriminate].
    intros [= <-]. split; [reflexivity|]. intros _. exact Ep.
  - apply Z.ltb_ge in Et.
    destruct (t <? 0)%Z eqn:Ep; [apply Z.ltb_lt in Ep; lia|].
    destruct (nth_error l (Z.to_nat t)) eqn:En; [|discriminate].
    intros [= <-]. split; [reflexivity|]. lia.
Qed.

(** For a target index that denotes a row, the stop bound [t] of a slice
    is the position of that row. *)
Lemma slice_bound_position (len t : Z) :
  (t < len)%Z -> ((t < 0)%Z -> (0 <= len + t)%Z) ->
  Z.to_nat (slice_bound len t) = row_position len t.
Proof.
  intros Ht Hneg. unfold slice_bound, row_position.
  destruct (t <? 0)%Z eqn:E.
  - apply Z.ltb_lt in E. specialize (Hneg E). lia.
  - apply Z.ltb_ge in E. lia.
Qed.

End Slices.

Section TrainingSlices.
Context {T : Type}.

Lemma training_slice_spec (returns : series T) (expanding : bool)
  (window : option Z) (t : Z) :
  Evaluation.training_slice returns expanding window t
  = spec_training_slice returns expanding window t.
Proof.
  unfold Evaluation.training_slice, spec_training_slice.
  destruct expanding; [|reflexivity].
  unfold iloc_slice, slice_bound. simpl Z.ltb. cbv iota.
  rewrite (Z.min_l 0) by lia. reflexivity.
Qed.

(** No look-ahead on one slice: the training slice for target [t] is a
    segment of the rows strictly before the row of [t]. *)
Lemma training_slice_before (returns : series T) (expanding : bool)
  (window : option Z) (t : Z) :
  expanding = true \/ window <> None ->
  (t < Z.of_nat (length returns))%Z ->
  ((t < 0)%Z -> (0 <= Z.of_nat (length returns) + t)%Z) ->
  Evaluation.training_slice returns expanding window t
  = skipn (slice_start (Z.of_nat (length returns)) expanding window t)
      (firstn (row_position (Z.of_nat (length returns)) t) returns).
Proof.
  intros Hguard Ht Hneg.
  set (len := Z.of_nat (length returns)).
  assert (Hlen : (0 <= len)%Z) by (unfold len; lia).
  unfold Evaluation.training_slice, slice_start, iloc_slice. fold len.
  rewrite <- (slice_bound_position len t Ht Hneg).
  destruct expanding.
  - rewrite Z.sub_0_r. reflexivity.
  - destruct window as [w|]; [|destruct Hguard; congruence].
    apply iloc_slice_prefix; apply slice_bound_range; exact Hlen.
Qed.

End TrainingSlices.

Section WalkForwardLoop.
Context {T : Type}.
Variables (returns : series T)
          (model_funcs : list (string * Evaluation.estimator (T := T)))
          (expanding : bool) (window : option Z).

Local Abbreviation slice := (Evaluation.training_slice returns expanding window).
Local Abbreviation names := (map fst model_funcs).

Lemma walk_forward_unfold (start : Z) :
  expanding = true \/ window <> None ->
  Evaluation.walk_forward_forecast returns model_funcs start expanding window
  = Evaluation.tbind
      (Evaluation.tfor_each (zrange start (Z.of_nat (length returns)))
         (walk_step returns model_funcs expanding window)
         (map (fun nf => (fst nf, @nil num)) model_funcs, @nil T))
      (fun st => Evaluation.tret
                   (Evaluation.mkDataFrame (fst st) (snd st))).
Proof.
  intros Hguard. unfold Evaluation.walk_forward_forecast.
  destruct expanding; [reflexivity|].
  destruct window; [reflexivity|]. destruct Hguard; congruence.
Qed.

Lemma walk_forward_guard (start : Z) (calls : list Evaluation.call)
  (df : Evaluation.DataFrame T) :
  Evaluation.walk_forward_forecast returns model_funcs start expanding window
  = (calls, Ok df) ->
  expanding = true \/ window <> None.
Proof.
  unfold Evaluation.walk_forward_forecast.
  destruct expanding; [left; reflexivity|].
  destruct window; [right; discriminate|]. discriminate.
Qed.

(** The loop over the target indexes, started with the columns [cols]
    already filled for the targets [done]. *)
Lemma walk_loop_ok (ts done : list Z) (cols : list (list num))
  (idx : list T) (calls : list Evaluation.call)
  (st' : list (string * list num) * list T) :
  NoDup names ->
  Forall2 (column_of slice done) model_funcs cols ->
  Evaluation.tfor_each ts (walk_step returns model_funcs expanding window)
    (combine names cols, idx) = (calls, Ok st') ->
  calls = flat_map (fun t => map (fun nf => (fst nf, slice t)) model_funcs) ts
  /\ exists (cols' : list (list num)) (labels : list T),
       st' = (combine names cols', idx ++ labels)
       /\ Forall2 (fun t label => iloc_at (index returns) t = Ok label)
            ts labels
       /\ Forall2 (column_of slice (done ++ ts)) model_funcs cols'.
Proof.
  intros Hnd. revert done cols idx calls.
  induction ts as [|t ts IH]; intros done cols idx calls Hcols Hrun.
  - simpl in Hrun. injection Hrun as <- <-. split; [reflexivity|].
    exists cols, []. rewrite !app_nil_r.
    split; [reflexivity|]. split; [constructor|exact Hcols].
  - simpl in Hrun. apply tbind_ok in Hrun.
    destruct Hrun as [c1 [st1 [c2 [Hstep [Hrest ->]]]]].
    unfold walk_step in Hstep. apply tbind_ok in Hstep.
    destruct Hstep as [c3 [forecasts1 [c4 [Hmodels [Hlabel ->]]]]].
    simpl fst in Hmodels. simpl snd in Hlabel.
    destruct (iloc_at (index returns) t) as [label|e] eqn:El;
      [|discriminate].
    simpl in Hlabel. injection Hlabel as <- <-.
    apply run_models_ok in Hmodels. destruct Hmodels as [-> [vs [Hvs ->]]].
    assert (Hlc : length cols = length names).
    { rewrite length_map. symmetry.
      apply (Forall2_length_eq _ _ _ Hcols). }
    assert (Hlv : length vs = length names).
    { rewrite length_map. symmetry.
      apply (Forall2_length_eq _ _ _ Hvs). }
    rewrite append_all_combine in Hrest by assumption.
    apply (IH (done ++ [t])) in Hrest.
    2:{ apply column_of_snoc; assumption. }
    destruct Hrest as [-> [cols' [labels [-> [Hlabels Hcols']]]]].
    split.
    + simpl. rewrite app_nil_r. reflexivity.
    + exists cols', (label :: labels). rewrite <- !app_assoc in *.
      split; [reflexivity|]. split; [constructor; assumption|exact Hcols'].
Qed.

End WalkForwardLoop.

Section WalkForwardTable.
Context {T : Type}.

Lemma map_fst_combine {A B : Type} (l : list A) (l' : list B) :
  length l = length l' -> map fst (combine l l') = l.
Proof.
  revert l'. induction l as [|x l IH]; intros [|y l'] H; simpl in *;
    try discriminate; [reflexivity|]. f_equal. apply IH. lia.
Qed.

Lemma map_snd_combine {A B : Type} (l : list A) (l' : list B) :
  length l = length l' -> map snd (combine l l') = l'.
Proof.
  revert l'. induction l as [|x l IH]; intros [|y l'] H; simpl in *;
    try discriminate; [reflexivity|]. f_equal. apply IH. lia.
Qed.

Lemma Forall2_nth_error_l {A B : Type} (P : A -> B -> Prop) (l : list A)
  (l' : list B) (k : nat) (x : A) :
  Forall2 P l l' -> nth_error l k = Some x ->
  exists y, nth_error l' k = Some y /\ P x y.
Proof.
  intros H. revert k. induction H as [|a b l l' Hab H IH]; intros k Hk.
  - destruct k; discriminate.
  - destruct k as [|k]; simpl in *.
    + injection Hk as <-. exists b. auto.
    + apply IH. exact Hk.
Qed.

Lemma Forall2_in_l {A B : Type} (P : A -> B -> Prop) (l : list A)
  (l' : list B) (x : A) :
  Forall2 P l l' -> In x l -> exists y, P x y.
Proof.
  intros H. induction H as [|a b l l' Hab H IH]; intros Hin;
    [contradiction|].
  destruct Hin as [<-|Hin]; [exists b; exact Hab|apply IH; exact Hin].
Qed.

(** The forecast table of a successful run, and the invocations made. *)
Lemma walk_forward_table (returns : series T)
  (model_funcs : list (string * Evaluation.estimator)) (start : Z)
  (expanding : bool) (window : option Z) (calls : list Evaluation.call)
  (df : Evaluation.DataFrame T) :
  NoDup (map fst model_funcs) ->
  Evaluation.walk_forward_forecast returns model_funcs start expanding window
  = (calls, Ok df) ->
  let ts := zrange start (Z.of_nat (length returns)) in
  let slice := Evaluation.training_slice returns expanding window in
  calls = flat_map (fun t => map (fun nf => (fst nf, slice t)) model_funcs) ts
  /\ map fst (Evaluation.df_columns df) = map fst model_funcs
  /\ Forall2 (column_of slice ts) model_funcs
       (map snd (Evaluation.df_columns df))
  /\ Forall2 (fun t label => iloc_at (index returns) t = Ok label) ts
       (Evaluation.df_index df).
Proof.
  intros Hnd Hrun ts slice.
  pose proof (walk_forward_guard _ _ _ _ _ _ _ Hrun) as Hguard.
  rewrite walk_forward_unfold in Hrun by exact Hguard.
  apply tbind_ok in Hrun. destruct Hrun as [c1 [st [c2 [Hloop [Hret ->]]]]].
  unfold Evaluation.tret in Hret. injection Hret as <- <-.
  assert (Hinit : map (fun nf : string * Evaluation.estimator =>
                         (fst nf, @nil num)) model_funcs
                  = combine (map fst model_funcs)
                      (map (fun _ => @nil num) model_funcs)).
  { clear. induction model_funcs as [|nf mfs IH]; simpl; [reflexivity|].
    f_equal. exact IH. }
  rewrite Hinit in Hloop.
  apply (walk_loop_ok returns model_funcs expanding window _ []) in Hloop;
    [|exact Hnd|].
  2:{ clear. induction model_funcs as [|nf mfs IH]; simpl; constructor;
      [constructor|exact IH]. }
  destruct Hloop as [-> [cols [labels [-> [Hlabels Hcols]]]]].
  cbn [app Evaluation.df_columns Evaluation.df_index fst snd].
  assert (Hlen : length (map fst model_funcs) = length cols).
  { rewrite length_map. apply (Forall2_length_eq _ _ _ Hcols). }
  rewrite app_nil_r.
  split; [reflexivity|]. split; [apply map_fst_combine; exact Hlen|].
  split; [|exact Hlabels].
  rewrite map_snd_combine by exact Hlen. exact Hcols.
Qed.

Lemma rows_agree (slice slice' : Z -> series T) (ts : list Z)
  (model_funcs : list (string * Evaluation.estimator))
  (cols cols' : list (list num)) (k : nat) (t : Z) :
  Forall2 (column_of slice ts) model_funcs cols ->
  Forall2 (column_of slice' ts) model_funcs cols' ->
  nth_error ts k = Some t ->
  slice' t = slice t ->
  map (fun c => nth_error c k) cols' = map (fun c => nth_error c k) cols.
Proof.
  intros Hcols. revert cols'.
  induction Hcols as [|nf col mfs cols Hcol Hcols IH];
    intros cols' Hcols' Hk Hslice.
  - inversion Hcols'. reflexivity.
  - inversion Hcols' as [|nf' col' mfs' cols'' Hcol' Hcols'' E1 E2]. subst.
    simpl. f_equal; [|apply IH; assumption].
    destruct (Forall2_nth_error_l _ _ _ _ _ Hcol Hk) as [v [Hv Hf]].
    destruct (Forall2_nth_error_l _ _ _ _ _ Hcol' Hk) as [v' [Hv' Hf']].
    simpl in Hf, Hf'. rewrite Hslice, Hf in Hf'. injection Hf' as <-.
    rewrite Hv, Hv'. reflexivity.
Qed.

End WalkForwardTable.

(** C1 -- no look-ahead.  For a call of [walk_forward_forecast] that
    returns a forecast table (estimators registered under distinct
    names), with [ts] the target indexes from [start] to the end of the
    returns:
    - the estimators were invoked exactly once per target index and
      estimator, target by target in registration order, each on the
      training slice [returns[0:t]] (expanding) or
      [returns[t-window:t]] (rolling);
    - that slice is a segment of the rows strictly before the row of [t];
    - the table's row labels are the timestamps at the target indexes and
      its columns hold, per estimator, the forecasts on those slices;
    - hence the forecasts in the row of target [t] do not change when the
      returns at that row or later are replaced. *)
Theorem walk_forward_no_look_ahead {T : Type} (returns : series T)
  (model_funcs : list (string * Evaluation.estimator)) (start : Z)
  (expanding : bool) (window : option Z) (calls : list Evaluation.call)
  (df : Evaluation.DataFrame T) :
  NoDup (map fst model_funcs) ->
  Evaluation.walk_forward_forecast returns model_funcs start expanding window
  = (calls, Ok df) ->
  let len := Z.of_nat (length returns) in
  let ts := zrange start len in
  let slice := spec_training_slice returns expanding window in
  calls = flat_map (fun t => map (fun nf => (fst nf, slice t)) model_funcs) ts
  /\ (forall t, In t ts ->
        exists a : nat,
          slice t = skipn a (firstn (row_position len t) returns))
  /\ Forall2 (fun t label =>
                nth_error (index returns) (row_position len t) = Some label)
       ts (Evaluation.df_index df)
  /\ map fst (Evaluation.df_columns df) = map fst model_funcs
  /\ Forall2 (column_of slice ts) model_funcs
       (map snd (Evaluation.df_columns df))
  /\ (forall (returns' : series T) (calls' : list Evaluation.call)
        (df' : Evaluation.DataFrame T),
        length returns' = length returns ->
        Evaluation.walk_forward_forecast returns' model_funcs start expanding
          window = (calls', Ok df') ->
        forall (k : nat) (t : Z),
          nth_error ts k = Some t ->
          firstn (row_position len t) returns'
          = firstn (row_position len t) returns ->
          forecast_row df' k = forecast_row df k).
Proof.
  intros Hnd Hrun len ts slice.
  pose proof (walk_forward_guard _ _ _ _ _ _ _ Hrun) as Hguard.
  destruct (walk_forward_table _ _ _ _ _ _ _ Hnd Hrun)
    as [Hcalls [Hnames [Hcols Hlabels]]].
  fold len in Hcalls, Hcols, Hlabels. fold ts in Hcalls, Hcols, Hlabels.
  assert (Hslice : forall t,
             Evaluation.training_slice returns expanding window t = slice t).
  { intros t. apply training_slice_spec. }
  assert (Hrow : forall t, In t ts ->
             (t < len)%Z /\ ((t < 0)%Z -> (0 <= len + t)%Z)).
  { intros t Ht. split; [apply in_zrange in Ht; lia|].
    destruct (Forall2_in_l _ _ _ _ Hlabels Ht) as [label Hl].
    apply iloc_at_position in Hl. rewrite length_index in Hl.
    apply Hl. }
  split; [|split; [|split; [|split; [|split]]]].
  - rewrite Hcalls. apply flat_map_ext. intros t. apply map_ext.
    intros nf. rewrite Hslice. reflexivity.
  - intros t Ht. destruct (Hrow t Ht) as [Hlt Hneg].
    exists (slice_start len expanding window t).
    rewrite <- Hslice. apply training_slice_before; assumption.
  - clear - Hlabels. induction Hlabels as [|t label ts' labels Hl H IH];
      constructor; [|exact IH].
    apply iloc_at_position in Hl. rewrite length_index in Hl. apply Hl.
  - exact Hnames.
  - clear - Hcols Hslice. unfold column_of in *.
    induction Hcols as [|nf col mfs cols Hcol H IH]; constructor; [|exact IH].
    clear - Hcol Hslice. induction Hcol as [|t v ts' col' Hv H IH];
      constructor; [|exact IH].
    rewrite <- Hslice. exact Hv.
  - intros returns' calls' df' Hlen' Hrun' k t Hk Hprefix.
    destruct (walk_forward_table _ _ _ _ _ _ _ Hnd Hrun')
      as [_ [_ [Hcols' _]]].
    rewrite Hlen' in Hcols'. fold len in Hcols'. fold ts in Hcols'.
    unfold forecast_row.
    rewrite <- !(map_map snd (fun c => nth_error c k)).
    apply (rows_agree _ _ ts model_funcs _ _ k t Hcols Hcols' Hk).
    destruct (Hrow t (nth_error_In _ _ Hk)) as [Hlt Hneg].
    rewrite !training_slice_before; try assumption; rewrite Hlen';
      fold len; [|exact Hlt|exact Hneg].
    rewrite Hprefix. reflexivity.
Qed.

(** ** The tests of the repository, replayed on the model *)

Ltac eval_model :=
  lazy -[Rplus Rminus Rmult Rdiv Rinv Ropp IZR INR Rlt_dec Req_dec_T sqrt ln
         Rmax Rabs].

(** [test_windowed_realized_volatility_matches_manual] *)
Example windowed_realized_volatility_matches_manual :
  exists (vol : list (Z * series Z)) (col : series Z),
    Evaluation.windowed_realized_volatility rv_test_returns [2%Z] 252 = Ok vol
    /\ Evaluation.dict_get 2 vol = Ok col
    /\ nth 3 (values col) NaN
       = Fin (sqrt (252 / 2 * (sq (3 / 100) + sq (- 1 / 100)))).
Proof.
  eexists. eexists. split; [reflexivity|]. split; [reflexivity|].
  eval_model.
  destruct (Req_dec_T 2 0) as [E|_]; [lra|].
  destruct (Rlt_dec _ 0) as [H|_]; [lra|].
  do 2 f_equal. unfold sq. lra.
Qed.

(** [test_evaluate_forecasts_with_windowed_realized_variance]: one row per
    (model, window). *)
Example evaluate_forecasts_rows :
  metric_keys (Evaluation.evaluate_forecasts Z.eq_dec const_forecast
                 test_returns (Some [2%Z; 3%Z]) true 252)
  = Ok [("const", Some 2%Z); ("const", Some 3%Z)].
Proof. eval_model. reflexivity. Qed.

(** ** Instances on sample data *)

Lemma walk_forward_no_look_ahead_witness :
  sample_calls
  = flat_map
      (fun t => map (fun nf => (fst nf,
                                spec_training_slice test_returns true None t))
                    sample_models)
      (zrange 2 (Z.of_nat (length test_returns))).
Proof.
  refine (proj1 (walk_forward_no_look_ahead test_returns sample_models 2 true
                   None sample_calls sample_table _ _)).
  - repeat constructor; simpl; intuition discriminate.
  - reflexivity.
Defined.


Lemma rolling_forecast_contract_witness :
  Historical.forecast_next_variance test_returns (Z.of_nat 3)
  = Ok (sample_variance (last_n 3 (reals (values test_returns))))
  /\ Historical.forecast_next_variance test_returns (Z.of_nat 5)
     = Raise (ValueError "Not enough observations for the specified window.").
Proof.
  split.
  - apply (proj1 (rolling_forecast_contract test_returns 3)). simpl. lia.
  - apply (proj2 (rolling_forecast_contract test_returns 5)). simpl. lia.
Defined.

Lemma log_returns_contract_witness :
  exists rets : series Z,
    Returns.log_returns (of_reals sample_prices) = Ok rets
    /\ nth 1 (values rets) NaN
       = Fin (ln (nth 1 (map snd sample_prices) 1
                  / nth (1 - 1) (map snd sample_prices) 1)).
Proof.
  destruct (proj1 (@log_returns_contract Z) (of_reals sample_prices))
    as [rets [Hr _]].
  exists rets. split; [exact Hr|].
  refine (proj2 (proj2 (@log_returns_contract Z) sample_prices rets _ Hr) 1%nat _).
  - intros p [<-|[<-|[<-|[]]]]; simpl; lra.
  - simpl. lia.
Defined.

Lemma realized_variance_contract_witness :
  Evaluation.windowed_realized_variance test_returns [2%Z; 0%Z] 252
  = Raise (ValueError "Window must be positive.")
  /\ exists (var : list (Z * series Z)) (col : series Z),
       Evaluation.windowed_realized_variance test_returns [2%Z] 252 = Ok var
       /\ Evaluation.dict_get 2 var = Ok col
       /\ nth 1 (values col) NaN
          = realized_variance_at 252 2 (values test_returns) 1.
Proof.
  split.
  - apply (proj1 (realized_variance_contract test_returns [2%Z; 0%Z] 252)).
    exists 0%Z. split; [simpl; auto|lia].
  - destruct (proj2 (realized_variance_contract test_returns [2%Z] 252))
      as [var [vol [H [_ Hcols]]]].
    + intros w [<-|[]]. lia.
    + destruct (Hcols 2%Z (or_introl eq_refl))
        as [cvar [cvol [Hc [_ [_ [_ Hrows]]]]]].
      assert (Hi : (1 < length test_returns)%nat) by (simpl; lia).
      destruct (Hrows 1%nat Hi) as [Hpos _].
      exists var, cvar. split; [exact H|]. split; [exact Hc|].
      apply Hpos. lia.
Defined.

Lemma qlike_loss_contract_witness :
  Evaluation.qlike_loss Z.eq_dec (of_reals [(0%Z, 0)]) (of_reals [(0%Z, 1)])
    Evaluation.default_eps
  = mean_reals (map (qlike_term Evaluation.default_eps)
                  (shared_rows Z.eq_dec [(0%Z, 0)] [(0%Z, 1)])).
Proof.
  refine (proj1 (qlike_loss_contract Z.eq_dec [(0%Z, 0)] [(0%Z, 1)]
                   Evaluation.default_eps _ _)).
  - unfold Evaluation.default_eps. lra.
  - repeat constructor. simpl. tauto.
Defined.

Lemma evaluate_forecasts_missing_timestamp_witness :
  raises (Evaluation.evaluate_forecasts Z.eq_dec unit_forecast shifted_returns
            None false 252)
  /\ Evaluation.evaluate_forecasts Z.eq_dec unit_forecast shifted_returns
       (Some [2%Z]) true 252
     = Raise KeyError.
Proof.
  assert (Hwf : well_formed unit_forecast).
  { intros col vals [[= <- <-]|[]]. reflexivity. }
  assert (Hmiss : exists t, In t (Evaluation.df_index unit_forecast)
                            /\ ~ In t (index shifted_returns)).
  { exists 0%Z. split; [left; reflexivity|].
    simpl. intros [H|[]]. discriminate H. }
  split.
  - exact (proj1 (evaluate_forecasts_missing_timestamp Z.eq_dec unit_forecast
                    shifted_returns None false 252 Hwf Hmiss)).
  - refine (proj2 (evaluate_forecasts_missing_timestamp Z.eq_dec unit_forecast
                     shifted_returns (Some [2%Z]) true 252 Hwf Hmiss) _).
    intros ws [= <-] w [<-|[]]. lia.
Defined.

Lemma ewma_no_valid_observation_witness :
  (Ewma.ewma_variance undefined_returns (Fin (1 / 2)) None = Raise IndexError
   /\ Ewma.forecast_next_variance undefined_returns (Fin (1 / 2)) None
      = Raise IndexError)
  /\ exists (s : series Z) (v : num),
       Ewma.ewma_variance test_returns (Fin (1 / 2)) None = Ok s
       /\ Ewma.forecast_next_variance test_returns (Fin (1 / 2)) None = Ok v.
Proof.
  split.
  - refine (proj1 (ewma_no_valid_observation undefined_returns (1 / 2) None _)
              _).
    + lra.
    + reflexivity.
  - refine (proj2 (ewma_no_valid_observation test_returns (1 / 2) None _) _).
    + lra.
    + simpl. discriminate.
Defined.

(** * Further properties of the code *)

(** ** Log returns: scale invariance, cumulative return, valid count *)

Section LogReturnsMore.
Context {T : Type}.

Lemma log_returns_eq (prices : series T) :
  Returns.log_returns prices
  = Ok (combine (index prices) (log_ratios NaN (values prices))).
Proof.
  unfold Returns.log_returns, shift1. rewrite log_returns_body. reflexivity.
Qed.

Lemma values_log_returns (prices : series T) :
  values (combine (index prices) (log_ratios NaN (values prices)))
  = log_ratios NaN (values prices).
Proof.
  apply values_combine.
  rewrite length_log_ratios, length_index, length_values. reflexivity.
Qed.

Lemma log_ratios_first (v : num) (vs : list num) :
  log_ratios NaN (v :: vs) = NaN :: log_ratios v vs.
Proof. simpl. destruct v; reflexivity. Qed.

Lemma log_ratios_scale (c a : R) (xs : list R) :
  0 < c -> 0 < a -> (forall x, In x xs -> 0 < x) ->
  log_ratios (Fin (c * a)) (map Fin (map (Rmult c) xs))
  = log_ratios (Fin a) (map Fin xs).
Proof.
  intros Hc. revert a. induction xs as [|x xs IH]; intros a Ha Hpos;
    [reflexivity|].
  assert (Hx : 0 < x) by (apply Hpos; left; reflexivity).
  cbn [map log_ratios]. rewrite !flog_fdiv_pos by nra.
  f_equal.
  - do 2 f_equal. field. lra.
  - apply IH; [exact Hx|]. intros y Hy. apply Hpos. right. exact Hy.
Qed.

Lemma ln_quotient (x y : R) : 0 < x -> 0 < y -> ln (x / y) = ln x - ln y.
Proof.
  intros Hx Hy. unfold Rdiv.
  rewrite ln_mult by (try apply Rinv_0_lt_compat; assumption).
  rewrite ln_Rinv by exact Hy. ring.
Qed.

Lemma last_indep {A : Type} (l : list A) (a b : A) :
  l <> [] -> last l a = last l b.
Proof.
  induction l as [|x l IH]; intros Hne; [contradiction|].
  destruct l as [|y l]; [reflexivity|].
  change (last (y :: l) a = last (y :: l) b). apply IH. discriminate.
Qed.

Lemma last_cons_default {A : Type} (a x : A) (xs : list A) :
  last (x :: xs) a = last xs x.
Proof.
  destruct xs as [|y ys]; [reflexivity|].
  change (last (y :: ys) a = last (y :: ys) x). apply last_indep.
  discriminate.
Qed.

Lemma log_ratios_sum (a : R) (xs : list R) :
  0 < a -> (forall x, In x xs -> 0 < x) ->
  reals (log_ratios (Fin a) (map Fin xs))
  = map (fun p => ln (snd p / fst p)) (combine (a :: xs) xs)
  /\ Rsum (reals (log_ratios (Fin a) (map Fin xs))) = ln (last xs a / a).
Proof.
  revert a. induction xs as [|x xs IH]; intros a Ha Hpos.
  - simpl. split; [reflexivity|].
    replace (a / a) with 1 by (field; lra). rewrite ln_1. reflexivity.
  - assert (Hx : 0 < x) by (apply Hpos; left; reflexivity).
    assert (Hxs : forall y, In y xs -> 0 < y)
      by (intros y Hy; apply Hpos; right; exact Hy).
    destruct (IH x Hx Hxs) as [IH1 IH2].
    cbn [map log_ratios]. rewrite flog_fdiv_pos by assumption.
    cbn [reals]. split.
    + rewrite IH1. reflexivity.
    + cbn [Rsum fold_right]. fold (Rsum (reals (log_ratios (Fin x) (map Fin xs)))).
      rewrite IH2.
      assert (Hl : 0 < last xs x).
      { destruct xs as [|y ys]; [exact Hx|].
        apply Hxs. rewrite (app_removelast_last x (l := y :: ys)) at 2
          by discriminate.
        apply in_or_app. right. left. reflexivity. }
      rewrite (last_cons_default a x xs).
      rewrite !ln_quotient by assumption. ring.
Qed.

End LogReturnsMore.

(** X1 -- log returns do not depend on the price unit: multiplying every
    price of an all-positive series by a constant [c > 0] leaves the
    returned series unchanged. *)
Theorem log_returns_scale_invariant {T : Type} (ps : list (T * R)) (c : R) :
  0 < c ->
  (forall p, In p ps -> 0 < snd p) ->
  Returns.log_returns (of_reals (map (fun p => (fst p, c * snd p)) ps))
  = Returns.log_returns (of_reals ps).
Proof.
  intros Hc Hpos. rewrite !log_returns_eq. f_equal.
  assert (Hidx : index (of_reals (map (fun p => (fst p, c * snd p)) ps))
                 = index (of_reals ps)).
  { rewrite !index_of_reals, map_map. reflexivity. }
  assert (Hval : values (of_reals (map (fun p => (fst p, c * snd p)) ps))
                 = map Fin (map (Rmult c) (map snd ps))).
  { rewrite values_of_reals, !map_map. reflexivity. }
  rewrite Hidx, Hval, values_of_reals. f_equal.
  assert (Hall : forall x, In x (map snd ps) -> 0 < x).
  { intros x Hx. apply in_map_iff in Hx. destruct Hx as [p [<- Hp]].
    apply Hpos. exact Hp. }
  destruct (map snd ps) as [|a xs]; [reflexivity|].
  cbn [map]. rewrite !log_ratios_first. f_equal.
  apply log_ratios_scale; [exact Hc| |].
  - apply Hall. left. reflexivity.
  - intros x Hx. apply Hall. right. exact Hx.
Qed.

Lemma log_returns_scale_invariant_witness :
  Returns.log_returns
    (of_reals (map (fun p => (fst p, 2 * snd p)) sample_prices))
  = Returns.log_returns (of_reals sample_prices).
Proof.
  apply (log_returns_scale_invariant sample_prices 2).
  - lra.
  - intros p [<-|[<-|[<-|[]]]]; simpl; lra.
Defined.

(** X2 -- on a non-empty all-positive price series of length [n], dropping
    the undefined markers of the log returns leaves exactly [n - 1]
    returns, and they add up to the log return over the whole period,
    [ln (last price / first price)]. *)
Theorem log_returns_cumulative {T : Type} (ps : list (T * R))
  (rets : series T) (d : R) :
  ps <> [] ->
  (forall p, In p ps -> 0 < snd p) ->
  Returns.log_returns (of_reals ps) = Ok rets ->
  length (dropna rets) = (length ps - 1)%nat
  /\ Rsum (reals (values rets))
     = ln (last (map snd ps) d / hd d (map snd ps)).
Proof.
  intros Hne Hpos Hrun. rewrite log_returns_eq in Hrun.
  injection Hrun as <-.
  rewrite length_dropna, values_log_returns, values_of_reals.
  assert (Hall : forall x, In x (map snd ps) -> 0 < x).
  { intros x Hx. apply in_map_iff in Hx. destruct Hx as [p [<- Hp]].
    apply Hpos. exact Hp. }
  rewrite <- (length_map snd ps).
  destruct (map snd ps) as [|a xs] eqn:E.
  { destruct ps; [contradiction|discriminate]. }
  cbn [map]. rewrite log_ratios_first. cbn [reals hd].
  assert (Ha : 0 < a) by (apply Hall; left; reflexivity).
  assert (Hxs : forall x, In x xs -> 0 < x)
    by (intros x Hx; apply Hall; right; exact Hx).
  destruct (log_ratios_sum a xs Ha Hxs) as [H1 H2].
  split.
  - rewrite H1, length_map, length_combine. cbn [length]. lia.
  - rewrite H2, last_cons_default. reflexivity.
Qed.

Lemma log_returns_cumulative_witness :
  exists rets : series Z,
    Returns.log_returns (of_reals sample_prices) = Ok rets
    /\ length (dropna rets) = 2%nat
    /\ Rsum (reals (values rets)) = ln (121 / 100).
Proof.
  eexists. split; [apply log_returns_eq|].
  refine (log_returns_cumulative sample_prices _ 0 _ _ (log_returns_eq _)).
  - discriminate.
  - intros p [<-|[<-|[<-|[]]]]; simpl; lra.
Defined.

(** ** EWMA: undefined entries, closed form, sign, volatility *)

Lemma dropna_idempotent {T : Type} (s : series T) :
  dropna (dropna s) = dropna s.
Proof.
  unfold dropna. induction s as [|[t v] s IH]; simpl; [reflexivity|].
  destruct v; simpl; [exact IH|]. f_equal. exact IH.
Qed.

(** X3 -- both estimators ignore undefined entries wherever they stand:
    the EWMA variance series and the rolling forecast of a history are
    those of the history with its undefined entries removed. *)
Theorem estimators_ignore_undefined {T : Type} (returns : series T)
  (lam : num) (initial_variance : option num) (window : Z) :
  Ewma.ewma_variance returns lam initial_variance
  = Ewma.ewma_variance (dropna returns) lam initial_variance
  /\ Ewma.forecast_next_variance returns lam initial_variance
     = Ewma.forecast_next_variance (dropna returns) lam initial_variance
  /\ Historical.forecast_next_variance returns window
     = Historical.forecast_next_variance (dropna returns) window.
Proof.
  unfold Ewma.forecast_next_variance, Ewma.ewma_variance,
    Historical.forecast_next_variance.
  rewrite dropna_idempotent. repeat split; reflexivity.
Qed.

Section EwmaClosedForm.
Variable lam : R.

Lemma Rsum_app (l l' : list R) : Rsum (l ++ l') = Rsum l + Rsum l'.
Proof.
  unfold Rsum. induction l as [|x l IH]; simpl; [ring|]. rewrite IH. ring.
Qed.

Lemma Rsum_scale (c : R) (l : list R) :
  c * Rsum l = Rsum (map (Rmult c) l).
Proof.
  unfold Rsum. induction l as [|x l IH]; simpl; [ring|]. rewrite <- IH. ring.
Qed.

Lemma ewma_rec_closed (v0 : R) (r : list R) (i : nat) :
  (i < length r)%nat ->
  nth i (ewma_rec lam v0 r) 0 = ewma_closed lam v0 r i.
Proof.
  induction i as [|i IH]; intros Hi.
  - rewrite ewma_rec_head by (destruct r; [simpl in Hi; lia|discriminate]).
    unfold ewma_closed. simpl. ring.
  - rewrite ewma_rec_step by exact Hi. rewrite IH by lia.
    unfold ewma_closed.
    rewrite seq_S, map_app, Rsum_app. cbn [Nat.add map Rsum fold_right].
    replace (S i - 1 - i)%nat with 0%nat by lia.
    assert (Hshift :
      lam * Rsum (map (fun j => lam ^ (i - 1 - j) * sq (nth j r 0)) (seq 0 i))
      = Rsum (map (fun j => lam ^ (S i - 1 - j) * sq (nth j r 0)) (seq 0 i))).
    { rewrite Rsum_scale, map_map. f_equal. apply map_ext_in.
      intros j Hj. apply in_seq in Hj.
      replace (S i - 1 - j)%nat with (S (i - 1 - j)) by lia.
      simpl. ring. }
    rewrite <- Hshift. simpl. ring.
Qed.

Lemma ewma_rec_nonneg (v0 : R) (r : list R) :
  0 <= lam <= 1 -> 0 <= v0 ->
  forall x, In x (ewma_rec lam v0 r) -> 0 <= x.
Proof.
  intros Hlam. revert v0. induction r as [|y r IH]; intros v0 Hv x Hx;
    [contradiction|].
  destruct Hx as [<-|Hx]; [exact Hv|].
  apply (IH (lam * v0 + (1 - lam) * sq y)); [|exact Hx].
  unfold sq. nra.
Qed.

End EwmaClosedForm.

Section EwmaMore.
Context {T : Type}.

Lemma ewma_variance_rec (returns : series T) (lam v0 : R)
  (initial_variance : option num) :
  0 < lam < 1 ->
  (1 <= length (reals (values returns)))%nat ->
  initial_value returns initial_variance = Fin v0 ->
  Ewma.ewma_variance returns (Fin lam) initial_variance
  = Ok (combine (index (dropna returns))
          (map Fin (ewma_rec lam v0 (reals (values returns))))).
Proof.
  intros Hlam Hn Hv0.
  rewrite ewma_variance_ok by (auto using lam_in_range_true).
  rewrite Hv0, values_sq_dropna, ewma_num_Fin. reflexivity.
Qed.

Lemma Rsum_squares_nonneg (l : list R) : 0 <= Rsum (map sq l).
Proof.
  induction l as [|x l IH]; simpl; [lra|]. unfold sq at 1. nra.
Qed.

Lemma initial_value_nonneg (returns : series T)
  (initial_variance : option num) :
  (1 <= length (reals (values returns)))%nat ->
  initial_variance = None
  \/ (exists v, initial_variance = Some (Fin v) /\ 0 <= v) ->
  exists v0, initial_value returns initial_variance = Fin v0 /\ 0 <= v0.
Proof.
  intros Hn [->|[v [-> Hv]]].
  - eexists. split; [apply (default_initial_value returns Hn)|].
    apply Rmult_le_pos; [apply Rsum_squares_nonneg|].
    apply Rlt_le, Rinv_0_lt_compat, lt_0_INR. lia.
  - exists v. split; [reflexivity|exact Hv].
Qed.

Lemma ewma_variance_ok_inv (returns : series T) (lam : num)
  (initial_variance : option num) (s : series T) :
  Ewma.ewma_variance returns lam initial_variance = Ok s ->
  Ewma.lam_in_range lam = true
  /\ (1 <= length (reals (values returns)))%nat.
Proof.
  intros Hrun. destruct (Ewma.lam_in_range lam) eqn:El.
  - split; [reflexivity|].
    destruct (reals (values returns)) eqn:Er; [|simpl; lia].
    rewrite (ewma_variance_no_observation returns lam initial_variance El Er)
      in Hrun. discriminate.
  - unfold Ewma.ewma_variance in Hrun. rewrite El in Hrun. discriminate.
Qed.

Lemma lam_in_range_inv (lam : num) :
  Ewma.lam_in_range lam = true -> exists l, lam = Fin l /\ 0 < l < 1.
Proof.
  destruct lam as [|l]; [discriminate|]. unfold Ewma.lam_in_range.
  destruct (Rlt_dec 0 l); [|discriminate].
  destruct (Rlt_dec l 1); [|discriminate].
  intros _. exists l. auto.
Qed.

End EwmaMore.

(** X4 -- EWMA with a supplied initial variance [v0]: for [lam] in (0,1)
    and [n >= 1] valid returns [r], the variance at position [i] is
    [lam^i * v0 + (1 - lam) * sum_{j<i} lam^(i-1-j) * r[j]^2] -- the weight
    of an observation decays geometrically with its age -- and the
    forecast is that value at [i = n - 1]. *)
Theorem ewma_closed_form {T : Type} (returns : series T) (lam v0 : R) :
  0 < lam < 1 ->
  (1 <= length (reals (values returns)))%nat ->
  let r := reals (values returns) in
  exists var : list R,
    Ewma.ewma_variance returns (Fin lam) (Some (Fin v0))
    = Ok (combine (index (dropna returns)) (map Fin var))
    /\ length var = length r
    /\ (forall i : nat, (i < length r)%nat ->
          nth i var 0 = ewma_closed lam v0 r i)
    /\ Ewma.forecast_next_variance returns (Fin lam) (Some (Fin v0))
       = Ok (Fin (ewma_closed lam v0 r (length r - 1))).
Proof.
  intros Hlam Hn r.
  assert (Hrun := ewma_variance_rec returns lam v0 (Some (Fin v0)) Hlam Hn
                    eq_refl).
  fold r in Hrun.
  assert (Hn' : (1 <= length r)%nat) by exact Hn.
  exists (ewma_rec lam v0 r). split; [exact Hrun|].
  split; [apply length_ewma_rec|]. split.
  - intros i Hi. apply ewma_rec_closed. exact Hi.
  - unfold Ewma.forecast_next_variance. rewrite Hrun. simpl bind.
    rewrite iloc_last_combine.
    + rewrite length_map, length_ewma_rec.
      rewrite (nth_map_Fin _ 0) by (rewrite length_ewma_rec; lia).
      rewrite ewma_rec_closed by lia. reflexivity.
    + rewrite length_index, length_dropna, length_map, length_ewma_rec.
      reflexivity.
    + intros E. apply (f_equal (@length num)) in E.
      rewrite length_map, length_ewma_rec in E.
      cbn [length] in E. lia.
Qed.

Lemma ewma_closed_form_witness :
  exists var : list R,
    Ewma.ewma_variance test_returns (Fin (1 / 2)) (Some (Fin 1))
    = Ok (combine (index (dropna test_returns)) (map Fin var))
    /\ nth 1 var 0 = ewma_closed (1 / 2) 1 (reals (values test_returns)) 1.
Proof.
  destruct (ewma_closed_form test_returns (1 / 2) 1) as [var [H [_ [Hc _]]]].
  - lra.
  - simpl. lia.
  - exists var. split; [exact H|]. apply Hc. simpl. lia.
Defined.

(** X5 -- an EWMA variance is never negative: when [ewma_variance]
    returns, with the default initial variance or a supplied non-negative
    one, every value of the series is a defined number [>= 0], and so is
    the forecast. *)
Theorem ewma_variance_nonneg {T : Type} (returns : series T) (lam : num)
  (initial_variance : option num) (variance : series T) :
  Ewma.ewma_variance returns lam initial_variance = Ok variance ->
  initial_variance = None
  \/ (exists v, initial_variance = Some (Fin v) /\ 0 <= v) ->
  (forall x, In x (values variance) -> nonneg_value x)
  /\ exists f : num,
       Ewma.forecast_next_variance returns lam initial_variance = Ok f
       /\ nonneg_value f.
Proof.
  intros Hrun Hiv.
  destruct (ewma_variance_ok_inv _ _ _ _ Hrun) as [Hlam Hn].
  destruct (lam_in_range_inv _ Hlam) as [l [-> Hl]].
  destruct (initial_value_nonneg returns initial_variance Hn Hiv)
    as [v0 [Hv0 Hpos]].
  rewrite (ewma_variance_rec returns l v0 initial_variance Hl Hn Hv0) in Hrun.
  injection Hrun as <-.
  set (r := reals (values returns)) in *.
  assert (Hlen : length (index (dropna returns))
                 = length (map Fin (ewma_rec l v0 r))).
  { rewrite length_index, length_dropna, length_map, length_ewma_rec.
    reflexivity. }
  assert (Hall : forall x, In x (map Fin (ewma_rec l v0 r)) -> nonneg_value x).
  { intros x Hx. apply in_map_iff in Hx. destruct Hx as [v [<- Hv]].
    exists v. split; [reflexivity|].
    apply (ewma_rec_nonneg l v0 r); [lra|exact Hpos|exact Hv]. }
  split.
  - rewrite values_combine by exact Hlen. exact Hall.
  - unfold Ewma.forecast_next_variance.
    rewrite (ewma_variance_rec returns l v0 initial_variance Hl Hn Hv0).
    simpl bind. fold r.
    assert (Hne : map Fin (ewma_rec l v0 r) <> []).
    { intros E. apply (f_equal (@length num)) in E.
      rewrite length_map, length_ewma_rec in E.
      cbn [length] in E. lia. }
    rewrite iloc_last_combine by assumption.
    eexists. split; [reflexivity|]. apply Hall. apply nth_In.
    destruct (map Fin (ewma_rec l v0 r)); [contradiction|simpl; lia].
Qed.

Lemma ewma_variance_nonneg_witness :
  exists (variance : series Z),
    Ewma.ewma_variance test_returns (Fin (1 / 2)) None = Ok variance
    /\ forall x, In x (values variance) -> nonneg_value x.
Proof.
  assert (Hrun : Ewma.ewma_variance test_returns (Fin (1 / 2)) None
                 = Ok (combine (index (dropna test_returns))
                         (ewma_num (Fin (1 / 2))
                            (initial_value test_returns None)
                            (values (smap fsq (dropna test_returns)))))).
  { apply ewma_variance_ok; [apply lam_in_range_true; lra|simpl; lia]. }
  eexists. split; [exact Hrun|].
  exact (proj1 (ewma_variance_nonneg test_returns (Fin (1 / 2)) None _ Hrun
                  (or_introl eq_refl))).
Defined.

Section EwmaVol.
Context {T : Type}.

Lemma ewma_default_values_nonneg (returns : series T) (lam : num)
  (variance : series T) :
  Ewma.ewma_variance returns lam None = Ok variance ->
  forall x, In x (values variance) -> nonneg_value x.
Proof.
  intros Hrun.
  destruct (ewma_variance_ok_inv _ _ _ _ Hrun) as [Hlam Hn].
  destruct (lam_in_range_inv _ Hlam) as [l [-> Hl]].
  destruct (initial_value_nonneg returns None Hn (or_introl eq_refl))
    as [v0 [Hv0 Hpos]].
  rewrite (ewma_variance_rec returns l v0 None Hl Hn Hv0) in Hrun.
  injection Hrun as <-.
  rewrite values_combine
    by (rewrite length_index, length_dropna, length_map, length_ewma_rec;
        reflexivity).
  intros x Hx. apply in_map_iff in Hx. destruct Hx as [v [<- Hv]].
  exists v. split; [reflexivity|].
  apply (ewma_rec_nonneg l v0 (reals (values returns))); [lra|exact Hpos|].
  exact Hv.
Qed.

Lemma smap_smap (f g : num -> num) (s : series T) :
  smap f (smap g s) = smap (fun x => f (g x)) s.
Proof. unfold smap. rewrite map_map. reflexivity. Qed.

Lemma smap_ext_in (f g : num -> num) (s : series T) :
  (forall x, In x (values s) -> f x = g x) -> smap f s = smap g s.
Proof.
  intros H. unfold smap. apply map_ext_in. intros [t x] Hin. simpl.
  rewrite H; [reflexivity|]. unfold values. apply in_map_iff.
  exists (t, x). auto.
Qed.

Lemma in_values_smap_inv (f : num -> num) (s : series T) (x : num) :
  In x (values (smap f s)) -> exists y, In y (values s) /\ x = f y.
Proof.
  rewrite values_smap. intros Hx. apply in_map_iff in Hx.
  destruct Hx as [y [<- Hy]]. exists y. split; [exact Hy|reflexivity].
Qed.

Lemma smap_id (s : series T) : smap (fun x => x) s = s.
Proof.
  unfold smap. rewrite <- (map_id s) at 2. apply map_ext. intros [t x].
  reflexivity.
Qed.

End EwmaVol.

(** X6 -- EWMA volatility against EWMA variance.  Annualizing inside
    [ewma_vol] is [annualize_volatility] applied to the plain volatility
    (also when the call raises); and when the variance series is returned,
    squaring the plain volatility gives the variance series back.  For
    [periods_per_year >= 0] squaring the annualized volatility gives the
    variance multiplied by [periods_per_year]; for a negative
    [periods_per_year] every annualized value is the undefined marker,
    the square root of a negative number. *)
Theorem ewma_vol_squares {T : Type} (returns : series T) (lam : num)
  (periods_per_year : Z) :
  Ewma.ewma_vol returns lam true periods_per_year
  = (vol <- Ewma.ewma_vol returns lam false periods_per_year ;;
     Ok (Returns.annualize_volatility vol periods_per_year))
  /\ forall variance : series T,
       Ewma.ewma_variance returns lam None = Ok variance ->
       exists vol vol_ann : series T,
         Ewma.ewma_vol returns lam false periods_per_year = Ok vol
         /\ Ewma.ewma_vol returns lam true periods_per_year = Ok vol_ann
         /\ index vol = index variance
         /\ index vol_ann = index variance
         /\ smap fsq vol = variance
         /\ ((0 <= periods_per_year)%Z ->
               smap fsq vol_ann
               = smap (fun x => fmul x (of_int periods_per_year)) variance)
         /\ ((periods_per_year < 0)%Z ->
               forall x, In x (values vol_ann) -> x = NaN).
Proof.
  split.
  - unfold Ewma.ewma_vol, Returns.annualize_volatility.
    destruct (Ewma.ewma_variance returns lam None); reflexivity.
  - intros variance Hrun.
    pose proof (ewma_default_values_nonneg returns lam variance Hrun) as Hpos.
    unfold Ewma.ewma_vol. rewrite Hrun. simpl bind.
    eexists. eexists. split; [reflexivity|]. split; [reflexivity|].
    split; [apply index_smap|]. split; [rewrite !index_smap; reflexivity|].
    split; [|split].
    + rewrite smap_smap. rewrite <- (smap_id variance) at 2.
      apply smap_ext_in. intros x Hx.
      destruct (Hpos x Hx) as [v [-> Hv]]. apply fsq_fsqrt. exact Hv.
    + intros Hppy. rewrite !smap_smap. apply smap_ext_in. intros x Hx.
      destruct (Hpos x Hx) as [v [-> Hv]].
      assert (Hp : 0 <= IZR periods_per_year) by (apply IZR_le; exact Hppy).
      unfold fsqrt, of_int.
      destruct (Rlt_dec (IZR periods_per_year) 0); [lra|].
      destruct (Rlt_dec v 0); [lra|].
      unfold fsq. simpl. f_equal.
      transitivity ((sqrt v * sqrt v)
                    * (sqrt (IZR periods_per_year)
                       * sqrt (IZR periods_per_year))); [ring|].
      rewrite !sqrt_sqrt by assumption. reflexivity.
    + intros Hppy x Hx. rewrite smap_smap in Hx.
      apply in_values_smap_inv in Hx. destruct Hx as [y [_ ->]].
      assert (Hp : IZR periods_per_year < 0) by (apply IZR_lt; exact Hppy).
      unfold of_int. cbn [fsqrt].
      destruct (Rlt_dec (IZR periods_per_year) 0); [|lra].
      destruct (fsqrt y); reflexivity.
Qed.

Lemma ewma_vol_squares_witness :
  exists vol vol_ann : series Z,
    Ewma.ewma_vol test_returns (Fin (1 / 2)) false 252 = Ok vol
    /\ Ewma.ewma_vol test_returns (Fin (1 / 2)) true 252 = Ok vol_ann
    /\ Ok (smap fsq vol) = Ewma.ewma_variance test_returns (Fin (1 / 2)) None
    /\ Ok (smap fsq vol_ann)
       = (variance <- Ewma.ewma_variance test_returns (Fin (1 / 2)) None ;;
          Ok (smap (fun x => fmul x (of_int 252)) variance)).
Proof.
  assert (Hrun : Ewma.ewma_variance test_returns (Fin (1 / 2)) None
                 = Ok (combine (index (dropna test_returns))
                         (ewma_num (Fin (1 / 2))
                            (initial_value test_returns None)
                            (values (smap fsq (dropna test_returns)))))).
  { apply ewma_variance_ok; [apply lam_in_range_true; lra|simpl; lia]. }
  destruct (proj2 (ewma_vol_squares test_returns (Fin (1 / 2)) 252) _ Hrun)
    as [vol [vol_ann [H1 [H2 [_ [_ [H3 [H4 _]]]]]]]].
  exists vol, vol_ann. split; [exact H1|]. split; [exact H2|].
  rewrite H3, (H4 ltac:(lia)), Hrun. split; reflexivity.
Defined.

(** ** Rolling sample variance: windows that are not positive, rolling
    volatility, sign *)

Section TailMore.
Context {A : Type}.

Lemma tail_negative (l : list A) (k : nat) :
  (0 < k)%nat -> tail l (- Z.of_nat k) = skipn k l.
Proof.
  intros Hk. unfold tail.
  replace (- Z.of_nat k =? 0)%Z with false by (symmetry; apply Z.eqb_neq; lia).
  unfold iloc_slice, slice_bound. rewrite Z.opp_involutive.
  replace (Z.of_nat k <? 0)%Z with false by (symmetry; apply Z.ltb_ge; lia).
  destruct (Nat.le_gt_cases k (length l)) as [Hle|Hgt].
  - replace (Z.to_nat (Z.min (Z.of_nat k) (Z.of_nat (length l)))) with k by lia.
    apply firstn_all2. rewrite length_skipn. lia.
  - replace (Z.to_nat (Z.min (Z.of_nat k) (Z.of_nat (length l))))
      with (length l) by lia.
    rewrite skipn_all, (skipn_all2 l) by lia. apply firstn_nil.
Qed.

End TailMore.

(** X7 -- a window that is not positive is not rejected by the rolling
    forecast: with window 0 it returns the undefined marker, and with a
    negative window [-k] it returns the sample variance of the valid
    observations after the first [k]; it never raises. *)
Theorem rolling_forecast_nonpositive_window {T : Type} (history : series T) :
  Historical.forecast_next_variance history 0 = Ok NaN
  /\ forall k : nat, (0 < k)%nat ->
       Historical.forecast_next_variance history (- Z.of_nat k)
       = Ok (sample_variance (skipn k (reals (values history)))).
Proof.
  split.
  - reflexivity.
  - intros k Hk. unfold Historical.forecast_next_variance.
    rewrite tail_negative by exact Hk.
    replace (Z.of_nat (length (skipn k (dropna history))) <? - Z.of_nat k)%Z
      with false by (symmetry; apply Z.ltb_ge; lia).
    unfold values at 1. rewrite <- skipn_map. fold (values (dropna history)).
    rewrite values_dropna, skipn_map, var_ddof1_Fin. reflexivity.
Qed.

Lemma rolling_forecast_nonpositive_window_witness :
  Historical.forecast_next_variance test_returns (- Z.of_nat 1)
  = Ok (sample_variance (skipn 1 (reals (values test_returns)))).
Proof.
  apply (proj2 (rolling_forecast_nonpositive_window test_returns) 1%nat). lia.
Defined.

Section RollingVol.
Context {T : Type}.

Lemma forallb_defined_Fin (l : list R) :
  forallb (fun x => negb (isnan x)) (map Fin l) = true.
Proof. induction l as [|x l IH]; simpl; [reflexivity|exact IH]. Qed.

Lemma reals_of_reals (ps : list (T * R)) :
  reals (values (of_reals ps)) = map snd ps.
Proof. rewrite values_of_reals. apply reals_map_Fin. Qed.

Lemma firstn_of_reals (k : nat) (ps : list (T * R)) :
  firstn k (of_reals ps) = of_reals (firstn k ps).
Proof. unfold of_reals. apply firstn_map. Qed.

Lemma rolling_std_nth (ps : list (T * R)) (w i : nat) (vol : series T) :
  Historical.rolling_std (of_reals ps) (Z.of_nat w) = Ok vol ->
  (i < length ps)%nat ->
  index vol = map fst ps
  /\ nth i (values vol) NaN
     = if (i + 1 <? w)%nat then NaN
       else fsqrt (sample_variance
                     (firstn w (skipn (i + 1 - w) (map snd ps)))).
Proof.
  unfold Historical.rolling_std.
  replace (Z.of_nat w <? 0)%Z with false by (symmetry; apply Z.ltb_ge; lia).
  rewrite Nat2Z.id. intros [= <-] Hi.
  assert (Hlen : length (of_reals ps) = length ps)
    by (unfold of_reals; apply length_map).
  split.
  - rewrite index_combine; [apply index_of_reals|].
    rewrite length_index, length_map, length_seq. reflexivity.
  - rewrite values_combine
      by (rewrite length_index, length_map, length_seq; reflexivity).
    set (f := fun i : nat => _).
    rewrite (nth_indep _ NaN (f 0%nat))
      by (rewrite length_map, length_seq, Hlen; exact Hi).
    rewrite map_nth, seq_nth by (rewrite Hlen; exact Hi). simpl Nat.add.
    unfold f. destruct (i + 1 <? w)%nat; [reflexivity|].
    rewrite values_of_reals, skipn_map, firstn_map, forallb_defined_Fin,
      var_ddof1_Fin.
    reflexivity.
Qed.

End RollingVol.

(** X8 -- rolling volatility.  A negative window is refused with a
    [ValueError]; annualizing inside [rolling_vol] is [annualize_volatility]
    applied to the plain rolling volatility; and on a fully defined return
    series the plain volatility keeps the index, is undefined on the
    first [w - 1] rows, and from row [w - 1] on is the square root of the
    one-step rolling forecast made from the rows up to and including that
    row. *)
Theorem rolling_vol_contract {T : Type} (ps : list (T * R)) (w : nat)
  (periods_per_year : Z) :
  (forall (s : series T) (k : nat) (annualize : bool), (0 < k)%nat ->
     Historical.rolling_vol s (- Z.of_nat k) annualize periods_per_year
     = Raise (ValueError "window must be an integer 0 or greater"))
  /\ (forall (s : series T) (window : Z),
        Historical.rolling_vol s window true periods_per_year
        = (vol <- Historical.rolling_vol s window false periods_per_year ;;
           Ok (Returns.annualize_volatility vol periods_per_year)))
  /\ exists vol : series T,
       Historical.rolling_vol (of_reals ps) (Z.of_nat w) false periods_per_year
       = Ok vol
       /\ index vol = map fst ps
       /\ forall i : nat, (i < length ps)%nat ->
            ((i + 1 < w)%nat -> nth i (values vol) NaN = NaN)
            /\ ((w <= i + 1)%nat ->
                  exists f : num,
                    Historical.forecast_next_variance
                      (firstn (i + 1) (of_reals ps)) (Z.of_nat w) = Ok f
                    /\ nth i (values vol) NaN = fsqrt f).
Proof.
  split; [|split].
  - intros s k annualize Hk. unfold Historical.rolling_vol,
      Historical.rolling_std.
    replace (- Z.of_nat k <? 0)%Z with true by (symmetry; apply Z.ltb_lt; lia).
    reflexivity.
  - intros s window. unfold Historical.rolling_vol,
      Returns.annualize_volatility.
    destruct (Historical.rolling_std s window); reflexivity.
  - assert (Hstd : exists vol,
               Historical.rolling_std (of_reals ps) (Z.of_nat w) = Ok vol).
    { unfold Historical.rolling_std.
      replace (Z.of_nat w <? 0)%Z with false
        by (symmetry; apply Z.ltb_ge; lia).
      eexists. reflexivity. }
    destruct Hstd as [vol Hvol]. exists vol.
    unfold Historical.rolling_vol. rewrite Hvol. simpl bind.
    split; [reflexivity|].
    split.
    + destruct ps as [|p ps'].
      * unfold Historical.rolling_std in Hvol.
        replace (Z.of_nat w <? 0)%Z with false in Hvol
          by (symmetry; apply Z.ltb_ge; lia).
        injection Hvol as <-. reflexivity.
      * apply (rolling_std_nth (p :: ps') w 0 vol Hvol). simpl. lia.
    + intros i Hi.
      destruct (rolling_std_nth ps w i vol Hvol Hi) as [_ Hnth].
      split.
      * intros Hlt. rewrite Hnth.
        replace (i + 1 <? w)%nat with true
          by (symmetry; apply Nat.ltb_lt; exact Hlt).
        reflexivity.
      * intros Hge. rewrite Hnth.
        replace (i + 1 <? w)%nat with false
          by (symmetry; apply Nat.ltb_ge; exact Hge).
        eexists. split; [|reflexivity].
        rewrite firstn_of_reals, forecast_sufficient, reals_of_reals.
        -- unfold last_n. rewrite <- firstn_map, length_firstn, length_map.
           replace (Nat.min (i + 1) (length ps)) with (i + 1)%nat by lia.
           rewrite skipn_firstn_comm.
           replace (i + 1 - (i + 1 - w))%nat with w by lia. reflexivity.
        -- rewrite reals_of_reals, length_map, length_firstn. lia.
Qed.

Lemma rolling_vol_contract_witness :
  Historical.rolling_vol test_returns (- Z.of_nat 1) true 252
  = Raise (ValueError "window must be an integer 0 or greater")
  /\ exists (vol : series Z) (f : num),
       Historical.rolling_vol (of_reals sample_prices) (Z.of_nat 2) false 252
       = Ok vol
       /\ Historical.forecast_next_variance
            (firstn (1 + 1) (of_reals sample_prices)) (Z.of_nat 2) = Ok f
       /\ nth 1 (values vol) NaN = fsqrt f.
Proof.
  split.
  - apply (proj1 (rolling_vol_contract (@nil (Z * R)) 0 252) test_returns
             1%nat true).
    lia.
  - destruct (proj2 (proj2 (rolling_vol_contract sample_prices 2 252)))
      as [vol [Hvol [_ Hrows]]].
    assert (Hi : (1 < length sample_prices)%nat) by (simpl; lia).
    assert (Hw : (2 <= 1 + 1)%nat) by lia.
    destruct (proj2 (Hrows 1%nat Hi) Hw) as [f [Hf Hnth]].
    exists vol, f. auto.
Defined.

Section ForecastSign.

Lemma Rsum_deviations_nonneg (m : R) (xs : list R) :
  0 <= Rsum (map (fun x => (m - x) * (m - x)) xs).
Proof.
  unfold Rsum. induction xs as [|x xs IH]; simpl; [lra|].
  pose proof (Rle_0_sqr (m - x)) as Hsq. unfold Rsqr in Hsq. lra.
Qed.

Lemma var_ddof1_nonneg (l : list num) :
  defined_nonneg (Historical.var_ddof1 l).
Proof.
  unfold Historical.var_ddof1.
  destruct (length (reals l) <=? 1)%nat eqn:E; [exact I|].
  apply Nat.leb_gt in E. simpl.
  apply Rmult_le_pos.
  - apply Rsum_deviations_nonneg.
  - apply Rlt_le, Rinv_0_lt_compat.
    assert (H : 2 <= INR (length (reals l))).
    { change 2 with (INR 2). apply le_INR. lia. }
    lra.
Qed.

End ForecastSign.

(** X10 -- the rolling forecast is never negative: whenever it returns, the
    value is the undefined marker or a number [>= 0]. *)
Theorem rolling_forecast_nonneg {T : Type} (history : series T) (window : Z)
  (f : num) :
  Historical.forecast_next_variance history window = Ok f ->
  defined_nonneg f.
Proof.
  unfold Historical.forecast_next_variance.
  destruct (_ <? window)%Z; [discriminate|].
  intros [= <-]. apply var_ddof1_nonneg.
Qed.

Lemma rolling_forecast_nonneg_witness :
  defined_nonneg (Fin (37 / 120000)).
Proof.
  exact (rolling_forecast_nonneg test_returns 3 _ test_forecast_value).
Defined.

(** ** The walk-forward harness: success, failure, boundaries *)

Section WalkOutcome.
Context {T : Type}.

Lemma tbind_raise {A B : Type} (m : Evaluation.traced (T := T) A)
  (k : A -> Evaluation.traced B) (calls : list Evaluation.call) (e : error) :
  Evaluation.tbind m k = (calls, Raise e) ->
  m = (calls, Raise e)
  \/ exists c1 a c2, m = (c1, Ok a) /\ k a = (c2, Raise e)
                     /\ calls = c1 ++ c2.
Proof.
  unfold Evaluation.tbind. destruct m as [c1 [a|e']].
  - destruct (k a) as [c2 r] eqn:E. intros [= <- ->]. right.
    exists c1, a, c2. auto.
  - intros [= <- <-]. left. reflexivity.
Qed.

Lemma run_models_all_ok (model_funcs : list (string * Evaluation.estimator))
  (train : series T) (forecasts : list (string * list num)) :
  (forall nf, In nf model_funcs -> exists v, snd nf train = Ok v) ->
  exists forecasts',
    Evaluation.run_models model_funcs train forecasts
    = (map (fun nf => (fst nf, train)) model_funcs, Ok forecasts').
Proof.
  unfold Evaluation.run_models. revert forecasts.
  induction model_funcs as [|nf mfs IH]; intros forecasts Hall.
  - eexists. reflexivity.
  - destruct (Hall nf (or_introl eq_refl)) as [v Hv].
    destruct (IH (Evaluation.dict_append (fst nf) v forecasts)) as [f' Hf'].
    { intros nf' Hin. apply Hall. right. exact Hin. }
    exists f'. cbn [Evaluation.tfor_each map].
    unfold Evaluation.tbind at 1 2. unfold Evaluation.invoke in *.
    rewrite Hv. unfold Evaluation.tret at 1. rewrite Hf'. reflexivity.
Qed.

Lemma run_models_raise (model_funcs : list (string * Evaluation.estimator))
  (train : series T) (forecasts : list (string * list num))
  (calls : list Evaluation.call) (e : error) :
  Evaluation.run_models model_funcs train forecasts = (calls, Raise e) ->
  exists pre nf post,
    model_funcs = pre ++ nf :: post
    /\ (forall nf', In nf' pre -> exists v, snd nf' train = Ok v)
    /\ snd nf train = Raise e
    /\ calls = map (fun nf => (fst nf, train)) (pre ++ [nf]).
Proof.
  unfold Evaluation.run_models. revert forecasts calls.
  induction model_funcs as [|nf mfs IH]; intros forecasts calls Hrun.
  - discriminate.
  - simpl in Hrun. destruct (snd nf train) as [v|e'] eqn:Hv.
    + apply tbind_raise in Hrun.
      destruct Hrun as [Hrun|[c1 [st [c2 [H1 [H2 ->]]]]]]; [discriminate|].
      injection H1 as <- <-.
      destruct (IH _ _ H2) as [pre [nf' [post [-> [Hpre [Hf ->]]]]]].
      exists (nf :: pre), nf', post. split; [reflexivity|].
      split; [|split; [exact Hf|reflexivity]].
      intros nf0 [<-|Hin]; [exists v; exact Hv|apply Hpre; exact Hin].
    + apply tbind_raise in Hrun.
      destruct Hrun as [Hrun|[c1 [st [c2 [H1 _]]]]]; [|discriminate].
      injection Hrun as <- <-.
      exists [], nf, mfs. split; [reflexivity|].
      split; [intros nf' []|]. split; [exact Hv|reflexivity].
Qed.

Lemma iloc_at_raise {A : Type} (l : list A) (t : Z) (e : error) :
  iloc_at l t = Raise e ->
  e = IndexError
  /\ ((t < - Z.of_nat (length l))%Z \/ (Z.of_nat (length l) <= t)%Z).
Proof.
  unfold iloc_at, getitem. destruct (t <? 0)%Z eqn:Et.
  - apply Z.ltb_lt in Et.
    destruct (Z.of_nat (length l) + t <? 0)%Z eqn:Ep.
    + apply Z.ltb_lt in Ep. intros [= <-]. split; [reflexivity|]. lia.
    + apply Z.ltb_ge in Ep.
      destruct (nth_error l (Z.to_nat (Z.of_nat (length l) + t))) eqn:En;
        [discriminate|].
      apply nth_error_None in En. lia.
  - apply Z.ltb_ge in Et.
    replace (t <? 0)%Z with false by (symmetry; apply Z.ltb_ge; lia).
    destruct (nth_error l (Z.to_nat t)) eqn:En; [discriminate|].
    apply nth_error_None in En. intros [= <-]. split; [reflexivity|]. lia.
Qed.

Lemma iloc_at_in_range {A : Type} (l : list A) (t : Z) :
  (- Z.of_nat (length l) <= t < Z.of_nat (length l))%Z ->
  exists x, iloc_at l t = Ok x.
Proof.
  intros Ht. destruct (iloc_at l t) as [x|e] eqn:E; [exists x; reflexivity|].
  apply iloc_at_raise in E. lia.
Qed.

End WalkOutcome.

Section WalkLoopOutcome.
Context {T : Type}.
Variables (returns : series T)
          (model_funcs : list (string * Evaluation.estimator (T := T)))
          (expanding : bool) (window : option Z).

Local Abbreviation slice := (Evaluation.training_slice returns expanding window).
Local Abbreviation step := (walk_step returns model_funcs expanding window).

Lemma schedule_app (ts ts' : list Z) :
  schedule slice model_funcs (ts ++ ts')
  = schedule slice model_funcs ts ++ schedule slice model_funcs ts'.
Proof. unfold schedule. apply flat_map_app. Qed.

Lemma schedule_single (t : Z) :
  schedule slice model_funcs [t]
  = map (fun nf => (fst nf, slice t)) model_funcs.
Proof. unfold schedule. simpl. apply app_nil_r. Qed.

Lemma walk_step_ok (t : Z) (st st' : list (string * list num) * list T)
  (calls : list Evaluation.call) :
  step t st = (calls, Ok st') ->
  calls = map (fun nf => (fst nf, slice t)) model_funcs.
Proof.
  unfold walk_step. intros H. apply tbind_ok in H.
  destruct H as [c1 [f [c2 [H1 [H2 ->]]]]].
  apply run_models_ok in H1. destruct H1 as [-> _].
  destruct (iloc_at (index returns) t); [|discriminate].
  simpl in H2. injection H2 as <- _. apply app_nil_r.
Qed.

Lemma walk_loop_all_ok (ts : list Z)
  (st : list (string * list num) * list T) :
  (forall t, In t ts ->
     (forall nf, In nf model_funcs -> exists v, snd nf (slice t) = Ok v)
     /\ exists label, iloc_at (index returns) t = Ok label) ->
  exists st',
    Evaluation.tfor_each ts step st
    = (schedule slice model_funcs ts, Ok st').
Proof.
  revert st. induction ts as [|t ts IH]; intros st Hall.
  - exists st. reflexivity.
  - destruct (Hall t (or_introl eq_refl)) as [Hest [label Hlabel]].
    destruct (run_models_all_ok model_funcs (slice t) (fst st) Hest)
      as [f' Hf'].
    destruct (IH (f', snd st ++ [label])) as [st' Hst'].
    { intros t' Ht'. apply Hall. right. exact Ht'. }
    exists st'. cbn [Evaluation.tfor_each].
    unfold Evaluation.tbind at 1. unfold walk_step at 1.
    rewrite Hf'. unfold Evaluation.tbind at 1. rewrite Hlabel.
    unfold Evaluation.tlift, Evaluation.tbind at 1, Evaluation.tret at 1.
    rewrite Hst'. change (t :: ts) with ([t] ++ ts).
    rewrite schedule_app, schedule_single, !app_nil_r. reflexivity.
Qed.

Lemma walk_loop_raise (ts : list Z)
  (st : list (string * list num) * list T) (calls : list Evaluation.call)
  (e : error) :
  Evaluation.tfor_each ts step st = (calls, Raise e) ->
  exists done t rest,
    ts = done ++ t :: rest
    /\ ((exists pre nf post,
           model_funcs = pre ++ nf :: post
           /\ (forall nf', In nf' pre -> exists v, snd nf' (slice t) = Ok v)
           /\ snd nf (slice t) = Raise e
           /\ calls = schedule slice model_funcs done
                      ++ map (fun nf => (fst nf, slice t)) (pre ++ [nf]))
        \/ (iloc_at (index returns) t = Raise e
            /\ calls = schedule slice model_funcs (done ++ [t]))).
Proof.
  revert st calls. induction ts as [|t ts IH]; intros st calls Hrun;
    [discriminate|].
  cbn [Evaluation.tfor_each] in Hrun. apply tbind_raise in Hrun.
  destruct Hrun as [Hstep|[c1 [st1 [c2 [Hstep [Hrest ->]]]]]].
  - exists [], t, ts. split; [reflexivity|].
    unfold walk_step in Hstep. apply tbind_raise in Hstep.
    destruct Hstep as [Hmodels|[c1 [f [c2 [Hmodels [Hlabel ->]]]]]].
    + left. apply run_models_raise in Hmodels.
      destruct Hmodels as [pre [nf [post [Hsplit [Hpre [Hf ->]]]]]].
      exists pre, nf, post. auto.
    + right. apply run_models_ok in Hmodels. destruct Hmodels as [-> _].
      destruct (iloc_at (index returns) t) as [label|e'] eqn:El;
        [discriminate|].
      simpl in Hlabel. injection Hlabel as <- <-.
      split; [reflexivity|]. simpl app. rewrite schedule_single, app_nil_r.
      reflexivity.
  - apply walk_step_ok in Hstep. subst c1.
    destruct (IH _ _ Hrest) as [done [t' [rest [-> Hcase]]]].
    exists (t :: done), t', rest. split; [reflexivity|].
    destruct Hcase as [[pre [nf [post [Hsplit [Hpre [Hf ->]]]]]]|[Hl ->]].
    + left. exists pre, nf, post. repeat split; try assumption.
      change (t :: done) with ([t] ++ done).
      rewrite schedule_app, schedule_single, app_assoc. reflexivity.
    + right. split; [exact Hl|].
      change ((t :: done) ++ [t']) with ([t] ++ (done ++ [t'])).
      rewrite (schedule_app [t]), schedule_single. reflexivity.
Qed.

End WalkLoopOutcome.

(** X11 -- when the walk-forward harness returns a table.  With estimators
    registered under distinct names, [walk_forward_forecast] returns a
    forecast table exactly when a window is given for the rolling regime,
    every estimator returns on the training slice of every target index,
    and [start] is not below [-len(returns)] (unless there is no target
    index at all). *)
Theorem walk_forward_succeeds_iff {T : Type} (returns : series T)
  (model_funcs : list (string * Evaluation.estimator)) (start : Z)
  (expanding : bool) (window : option Z) :
  NoDup (map fst model_funcs) ->
  let len := Z.of_nat (length returns) in
  (exists calls df,
     Evaluation.walk_forward_forecast returns model_funcs start expanding
       window = (calls, Ok df))
  <-> ((expanding = true \/ window <> None)
       /\ (forall t nf, In t (zrange start len) -> In nf model_funcs ->
             exists v,
               snd nf (Evaluation.training_slice returns expanding window t)
               = Ok v)
       /\ ((start < len)%Z -> (- len <= start)%Z)).
Proof.
  intros Hnd len. split.
  - intros [calls [df Hrun]].
    pose proof (walk_forward_guard _ _ _ _ _ _ _ Hrun) as Hguard.
    destruct (walk_forward_table _ _ _ _ _ _ _ Hnd Hrun)
      as [_ [_ [Hcols Hlabels]]].
    split; [exact Hguard|]. split.
    + intros t nf Ht Hnf.
      destruct (Forall2_in_l _ _ _ _ Hcols Hnf) as [col Hcol].
      apply (Forall2_in_l _ _ _ _ Hcol Ht).
    + intros Hlt.
      assert (Hin : In start (zrange start len)) by (apply in_zrange; lia).
      destruct (Forall2_in_l _ _ _ _ Hlabels Hin) as [label Hl].
      apply iloc_at_position in Hl. rewrite length_index in Hl.
      destruct Hl as [_ Hl]. fold len in Hl.
      destruct (Z_lt_le_dec start 0) as [Hneg|Hpos]; [|lia].
      specialize (Hl Hneg). lia.
  - intros [Hguard [Hest Hstart]].
    rewrite walk_forward_unfold by exact Hguard. fold len.
    destruct (walk_loop_all_ok returns model_funcs expanding window
                (zrange start len)
                (map (fun nf => (fst nf, @nil num)) model_funcs, @nil T))
      as [st' Hloop].
    { intros t Ht. split.
      - intros nf Hnf. apply Hest; assumption.
      - apply iloc_at_in_range. rewrite length_index. fold len.
        apply in_zrange in Ht. lia. }
    rewrite Hloop. eexists. eexists. reflexivity.
Qed.

Lemma walk_forward_succeeds_iff_witness :
  exists calls df,
    Evaluation.walk_forward_forecast test_returns sample_models 2 true None
    = (calls, Ok df).
Proof.
  refine (proj2 (walk_forward_succeeds_iff test_returns sample_models 2 true
                   None _) _).
  - repeat constructor; simpl; intuition discriminate.
  - split; [left; reflexivity|]. split.
    + intros t nf _ [<-|[<-|[]]]; eexists; reflexivity.
    + simpl. lia.
Defined.

(** X12 -- fail-fast.  When [walk_forward_forecast] raises, either the
    window of the rolling regime is missing and no estimator was invoked,
    or the run stopped at one target index [t] after complete passes over
    the earlier ones: at the first estimator that raised on the slice of
    [t], whose error is propagated unchanged and after which no estimator
    was invoked, or at the label lookup with an [IndexError], [t] being
    below [-len(returns)]. *)
Theorem walk_forward_fail_fast {T : Type} (returns : series T)
  (model_funcs : list (string * Evaluation.estimator)) (start : Z)
  (expanding : bool) (window : option Z) (calls : list Evaluation.call)
  (e : error) :
  Evaluation.walk_forward_forecast returns model_funcs start expanding window
  = (calls, Raise e) ->
  let len := Z.of_nat (length returns) in
  let slice := Evaluation.training_slice returns expanding window in
  (expanding = false /\ window = None /\ calls = []
   /\ e = ValueError "Provide window when using rolling (expanding=False).")
  \/ exists done t rest,
       zrange start len = done ++ t :: rest
       /\ ((exists pre nf post,
              model_funcs = pre ++ nf :: post
              /\ (forall nf', In nf' pre ->
                    exists v, snd nf' (slice t) = Ok v)
              /\ snd nf (slice t) = Raise e
              /\ calls = schedule slice model_funcs done
                         ++ map (fun nf => (fst nf, slice t)) (pre ++ [nf]))
           \/ (e = IndexError /\ (t < - len)%Z
               /\ calls = schedule slice model_funcs (done ++ [t]))).
Proof.
  intros Hrun len slice.
  assert (Hcases : (expanding = false /\ window = None)
                   \/ (expanding = true \/ window <> None)).
  { destruct expanding; [right; left; reflexivity|].
    destruct window; [right; right; discriminate|left; auto]. }
  destruct Hcases as [[-> ->]|Hguard].
  - left. unfold Evaluation.walk_forward_forecast in Hrun. simpl in Hrun.
    injection Hrun as <- <-. auto.
  - right. rewrite walk_forward_unfold in Hrun by exact Hguard.
    apply tbind_raise in Hrun.
    destruct Hrun as [Hloop|[c1 [st [c2 [_ [Hret _]]]]]]; [|discriminate].
    apply walk_loop_raise in Hloop.
    destruct Hloop as [done [t [rest [Hsplit Hcase]]]].
    exists done, t, rest. split; [exact Hsplit|].
    destruct Hcase as [Hest|[Hl Hc]]; [left; exact Hest|right].
    apply iloc_at_raise in Hl. rewrite length_index in Hl.
    destruct Hl as [-> Hl]. split; [reflexivity|]. split; [|exact Hc].
    assert (Hin : In t (zrange start len)).
    { fold len in Hsplit. rewrite Hsplit. apply in_or_app. right. left.
      reflexivity. }
    apply in_zrange in Hin. fold len in Hl. lia.
Qed.

Lemma walk_forward_fail_fast_witness :
  exists done t rest,
    zrange 1 (Z.of_nat (length test_returns)) = done ++ t :: rest
    /\ Historical.forecast_next_variance
         (Evaluation.training_slice test_returns true None t) 3
       = Raise (ValueError "Not enough observations for the specified window.").
Proof.
  destruct (walk_forward_fail_fast test_returns rolling_models 1 true None
              [("hist", firstn 1 test_returns)]
              (ValueError "Not enough observations for the specified window.")
              eq_refl)
    as [[H _]|[done [t [rest [Hsplit [Hest|[H _]]]]]]];
    [discriminate H| |discriminate H].
  exists done, t, rest. split; [exact Hsplit|].
  destruct Hest as [pre [nf [post [Hm [_ [Hf _]]]]]].
  destruct pre as [|nf' pre].
  - injection Hm as <- _. exact Hf.
  - destruct pre; discriminate Hm.
Defined.

Lemma length_zrange (a b : Z) : length (zrange a b) = Z.to_nat (b - a).
Proof. unfold zrange. rewrite length_map, length_seq. reflexivity. Qed.

Lemma length_schedule {T : Type} (slice : Z -> series T)
  (model_funcs : list (string * Evaluation.estimator)) (ts : list Z) :
  length (schedule slice model_funcs ts)
  = (length ts * length model_funcs)%nat.
Proof.
  unfold schedule. induction ts as [|t ts IH]; [reflexivity|].
  cbn [flat_map length]. rewrite length_app, length_map.
  cbn [Nat.mul]. f_equal. exact IH.
Qed.

(** X13 -- shape of the forecast table.  A table returned by
    [walk_forward_forecast] (estimators registered under distinct names) has
    [max 0 (len(returns) - start)] rows, every column has one value per
    row label (the table is well formed), and the estimators were invoked
    rows * estimators times.  With [start] at or beyond the end of the
    returns the table has the registered columns and no row, and no
    estimator was invoked. *)
Theorem walk_forward_table_shape {T : Type} (returns : series T)
  (model_funcs : list (string * Evaluation.estimator)) (start : Z)
  (expanding : bool) (window : option Z) (calls : list Evaluation.call)
  (df : Evaluation.DataFrame T) :
  NoDup (map fst model_funcs) ->
  Evaluation.walk_forward_forecast returns model_funcs start expanding window
  = (calls, Ok df) ->
  let len := Z.of_nat (length returns) in
  let rows := Z.to_nat (len - start) in
  length (Evaluation.df_index df) = rows
  /\ well_formed df
  /\ length calls = (rows * length model_funcs)%nat
  /\ ((len <= start)%Z ->
        calls = []
        /\ df = Evaluation.mkDataFrame
                  (map (fun nf => (fst nf, @nil num)) model_funcs) []).
Proof.
  intros Hnd Hrun len rows.
  pose proof (walk_forward_guard _ _ _ _ _ _ _ Hrun) as Hguard.
  destruct (walk_forward_table _ _ _ _ _ _ _ Hnd Hrun)
    as [Hcalls [Hnames [Hcols Hlabels]]].
  fold len in Hcalls, Hcols, Hlabels.
  assert (Hrows : length (Evaluation.df_index df) = rows).
  { rewrite <- (Forall2_length_eq _ _ _ Hlabels). apply length_zrange. }
  split; [exact Hrows|]. split; [|split].
  - intros col vals Hin. rewrite Hrows.
    assert (Hv : In vals (map snd (Evaluation.df_columns df))).
    { apply in_map_iff. exists (col, vals). auto. }
    clear - Hcols Hv. induction Hcols as [|nf c mfs cs Hc Hcs IH];
      [contradiction|].
    destruct Hv as [<-|Hv]; [|apply IH; exact Hv].
    rewrite <- (Forall2_length_eq _ _ _ Hc). apply length_zrange.
  - rewrite Hcalls.
    change (flat_map _ (zrange start len))
      with (schedule (Evaluation.training_slice returns expanding window)
              model_funcs (zrange start len)).
    rewrite length_schedule, length_zrange. reflexivity.
  - intros Hend. rewrite walk_forward_unfold in Hrun by exact Hguard.
    fold len in Hrun. unfold zrange in Hrun.
    replace (Z.to_nat (len - start)) with 0%nat in Hrun by lia.
    simpl in Hrun. injection Hrun as <- <-. auto.
Qed.

Lemma walk_forward_table_shape_witness :
  length (Evaluation.df_index sample_table) = 2%nat
  /\ well_formed sample_table.
Proof.
  destruct (walk_forward_table_shape test_returns sample_models 2 true None
              sample_calls sample_table) as [H1 [H2 _]].
  - repeat constructor; simpl; intuition discriminate.
  - reflexivity.
  - split; [exact H1|exact H2].
Defined.

(** X14 -- rolling training windows at the boundary.  In the rolling
    regime with window [w], a target index [t] with [w <= t] gets exactly
    the [w] rows before row [t]; a target index [0 <= t < w], with the
    series at least [w] rows long, gets the empty slice (the negative
    start of the slice counts from the end), not a shortened window. *)
Theorem rolling_slice_boundary {T : Type} (returns : series T) (w t : nat) :
  (t < length returns)%nat ->
  ((w <= t)%nat ->
     Evaluation.training_slice returns false (Some (Z.of_nat w)) (Z.of_nat t)
     = firstn w (skipn (t - w) returns)
     /\ length (Evaluation.training_slice returns false (Some (Z.of_nat w))
                  (Z.of_nat t)) = w)
  /\ ((t < w <= length returns)%nat ->
        Evaluation.training_slice returns false (Some (Z.of_nat w))
          (Z.of_nat t) = []).
Proof.
  intros Ht. unfold Evaluation.training_slice, iloc_slice, slice_bound.
  replace (Z.of_nat t <? 0)%Z with false by (symmetry; apply Z.ltb_ge; lia).
  rewrite (Z.min_l (Z.of_nat t)) by lia.
  split.
  - intros Hw.
    replace (Z.of_nat t - Z.of_nat w <? 0)%Z with false
      by (symmetry; apply Z.ltb_ge; lia).
    rewrite Z.min_l by lia.
    replace (Z.to_nat (Z.of_nat t - (Z.of_nat t - Z.of_nat w))) with w by lia.
    replace (Z.to_nat (Z.of_nat t - Z.of_nat w)) with (t - w)%nat by lia.
    split; [reflexivity|]. rewrite length_firstn, length_skipn. lia.
  - intros Hw.
    replace (Z.of_nat t - Z.of_nat w <? 0)%Z with true
      by (symmetry; apply Z.ltb_lt; lia).
    replace (Z.to_nat (Z.of_nat t
                       - Z.max (Z.of_nat (length returns)
                                + (Z.of_nat t - Z.of_nat w)) 0))
      with 0%nat by lia.
    reflexivity.
Qed.

Lemma rolling_slice_boundary_witness :
  length (Evaluation.training_slice test_returns false (Some (Z.of_nat 2))
            (Z.of_nat 3)) = 2%nat
  /\ Evaluation.training_slice test_returns false (Some (Z.of_nat 3))
       (Z.of_nat 1) = [].
Proof.
  split.
  - apply (proj1 (rolling_slice_boundary test_returns 2 3 ltac:(simpl; lia))).
    lia.
  - apply (proj2 (rolling_slice_boundary test_returns 3 1 ltac:(simpl; lia))).
    simpl. lia.
Defined.

(** ** The loss functions *)

Section Losses.
Context {T : Type} (T_eq_dec : forall a b : T, {a = b} + {a <> b}).

Lemma mse_on_rows (rows : list (T * (R * R))) :
  mean (values
          (smap fsq
             (binop fsub
                (map (fun r => (fst r, Fin (fst (snd r)))) rows)
                (map (fun r => (fst r, Fin (snd (snd r)))) rows))))
  = mean_reals (map mse_term (map snd rows)).
Proof.
  rewrite (binop_rows fsub), (smap_rows fsq).
  unfold values. rewrite map_map. simpl.
  rewrite <- mean_reals_Fin, !map_map. reflexivity.
Qed.

Lemma mae_on_rows (rows : list (T * (R * R))) :
  (forall r, In r rows -> 0 <= snd (snd r)) ->
  mean (values
          (smap fabs
             (binop fsub
                (map (fun r => (fst r, Fin (fst (snd r)))) rows)
                (smap fsqrt
                   (map (fun r => (fst r, Fin (snd (snd r)))) rows)))))
  = mean_reals (map mae_term (map snd rows)).
Proof.
  intros Hpos.
  rewrite (smap_rows fsqrt), (binop_rows fsub), (smap_rows fabs).
  unfold values. rewrite map_map. simpl.
  rewrite <- mean_reals_Fin, !map_map. f_equal.
  apply map_ext_in. intros [t [v y]] Hin. simpl.
  specialize (Hpos _ Hin). simpl in Hpos.
  destruct (Rlt_dec y 0); [lra|reflexivity].
Qed.

Lemma Rsum_nonneg (l : list R) :
  (forall x, In x l -> 0 <= x) -> 0 <= Rsum l.
Proof.
  unfold Rsum. induction l as [|y l IH]; intros Hpos.
  - simpl. lra.
  - assert (Hy : 0 <= y) by (apply Hpos; left; reflexivity).
    assert (Hl : 0 <= fold_right Rplus 0 l)
      by (apply IH; intros z Hz; apply Hpos; right; exact Hz).
    simpl. lra.
Qed.

Lemma mean_reals_nonneg (l : list R) :
  (forall x, In x l -> 0 <= x) -> defined_nonneg (mean_reals l).
Proof.
  intros Hpos. destruct l as [|x l]; [exact I|].
  change (0 <= Rsum (x :: l) / INR (length (x :: l))).
  apply Rmult_le_pos.
  - apply Rsum_nonneg. exact Hpos.
  - apply Rlt_le, Rinv_0_lt_compat, lt_0_INR. simpl. lia.
Qed.

Lemma shared_rows_realized_in (pred realized : list (T * R)) (fy : R * R) :
  In fy (shared_rows T_eq_dec pred realized) ->
  In (snd fy) (map snd realized).
Proof.
  unfold shared_rows. intros H. apply in_flat_map in H.
  destruct H as [p [_ H]]. apply in_map_iff in H.
  destruct H as [y [<- Hy]]. simpl.
  unfold Evaluation.lookup_all in Hy. apply in_map_iff in Hy.
  destruct Hy as [q [<- Hq]]. apply filter_In in Hq.
  apply in_map. apply Hq.
Qed.

End Losses.

(** X15 -- squared error on variance.  For series of defined values
    (realized timestamps without repetition), [mse_variance] is the mean
    over the rows with a shared timestamp of
    [(forecast - realized)^2]; it is never negative. *)
Theorem mse_variance_contract {T : Type}
  (T_eq_dec : forall a b : T, {a = b} + {a <> b})
  (pred realized : list (T * R)) :
  NoDup (map fst realized) ->
  Evaluation.mse_variance T_eq_dec (of_reals pred) (of_reals realized)
  = mean_reals (map mse_term (shared_rows T_eq_dec pred realized))
  /\ defined_nonneg
       (Evaluation.mse_variance T_eq_dec (of_reals pred) (of_reals realized)).
Proof.
  intros Hnd.
  assert (Hm : Evaluation.mse_variance T_eq_dec (of_reals pred)
                 (of_reals realized)
               = mean_reals (map mse_term
                               (shared_rows T_eq_dec pred realized))).
  { unfold Evaluation.mse_variance.
    destruct (align_inner_rows T_eq_dec pred realized Hnd)
      as [rows [Halign Hrows]].
    rewrite Halign, <- Hrows. apply mse_on_rows. }
  split; [exact Hm|]. rewrite Hm. apply mean_reals_nonneg.
  intros x Hx. apply in_map_iff in Hx. destruct Hx as [fy [<- _]].
  exact (Rle_0_sqr (fst fy - snd fy)).
Qed.

Lemma mse_variance_contract_witness :
  Evaluation.mse_variance Z.eq_dec (of_reals [(0%Z, 3); (1%Z, 5)])
    (of_reals [(1%Z, 4)])
  = mean_reals (map mse_term
                  (shared_rows Z.eq_dec [(0%Z, 3); (1%Z, 5)] [(1%Z, 4)])).
Proof.
  refine (proj1 (mse_variance_contract Z.eq_dec [(0%Z, 3); (1%Z, 5)]
                   [(1%Z, 4)] _)).
  repeat constructor. simpl. tauto.
Defined.

(** X16 -- absolute error on volatility.  For a forecast-volatility series
    and a realized-variance series of defined, non-negative values
    (realized timestamps without repetition), [mae_volatility] is the mean
    over the rows with a shared timestamp of
    [|forecast volatility - sqrt (realized variance)|]; it is never
    negative. *)
Theorem mae_volatility_contract {T : Type}
  (T_eq_dec : forall a b : T, {a = b} + {a <> b})
  (pred_vol realized : list (T * R)) :
  NoDup (map fst realized) ->
  (forall y, In y (map snd realized) -> 0 <= y) ->
  Evaluation.mae_volatility T_eq_dec (of_reals pred_vol) (of_reals realized)
  = mean_reals (map mae_term (shared_rows T_eq_dec pred_vol realized))
  /\ defined_nonneg
       (Evaluation.mae_volatility T_eq_dec (of_reals pred_vol)
          (of_reals realized)).
Proof.
  intros Hnd Hpos.
  assert (Hm : Evaluation.mae_volatility T_eq_dec (of_reals pred_vol)
                 (of_reals realized)
               = mean_reals (map mae_term
                               (shared_rows T_eq_dec pred_vol realized))).
  { unfold Evaluation.mae_volatility.
    destruct (align_inner_rows T_eq_dec pred_vol realized Hnd)
      as [rows [Halign Hrows]].
    rewrite Halign, <- Hrows. apply mae_on_rows.
    intros r Hr. apply Hpos.
    apply (shared_rows_realized_in T_eq_dec pred_vol realized (snd r)).
    rewrite <- Hrows. apply in_map. exact Hr. }
  split; [exact Hm|]. rewrite Hm. apply mean_reals_nonneg.
  intros x Hx. apply in_map_iff in Hx. destruct Hx as [vy [<- _]].
  unfold mae_term. apply Rabs_pos.
Qed.

Lemma mae_volatility_contract_witness :
  Evaluation.mae_volatility Z.eq_dec (of_reals [(0%Z, 3); (1%Z, 5)])
    (of_reals [(1%Z, 4)])
  = mean_reals (map mae_term
                  (shared_rows Z.eq_dec [(0%Z, 3); (1%Z, 5)] [(1%Z, 4)])).
Proof.
  refine (proj1 (mae_volatility_contract Z.eq_dec [(0%Z, 3); (1%Z, 5)]
                   [(1%Z, 4)] _ _)).
  - repeat constructor. simpl. tauto.
  - intros y [<-|[]]. simpl. lra.
Defined.

Section LossesMore.
Context {T : Type} (T_eq_dec : forall a b : T, {a = b} + {a <> b}).

Lemma mse_variance_shared (pred realized : list (T * R)) :
  NoDup (map fst realized) ->
  Evaluation.mse_variance T_eq_dec (of_reals pred) (of_reals realized)
  = mean_reals (map mse_term (shared_rows T_eq_dec pred realized)).
Proof.
  intros Hnd. unfold Evaluation.mse_variance.
  destruct (align_inner_rows T_eq_dec pred realized Hnd)
    as [rows [Halign Hrows]].
  rewrite Halign, <- Hrows. apply mse_on_rows.
Qed.

Lemma mae_volatility_shared (pred_vol realized : list (T * R)) :
  NoDup (map fst realized) ->
  (forall y, In y (map snd realized) -> 0 <= y) ->
  Evaluation.mae_volatility T_eq_dec (of_reals pred_vol) (of_reals realized)
  = mean_reals (map mae_term (shared_rows T_eq_dec pred_vol realized)).
Proof.
  intros Hnd Hpos. unfold Evaluation.mae_volatility.
  destruct (align_inner_rows T_eq_dec pred_vol realized Hnd)
    as [rows [Halign Hrows]].
  rewrite Halign, <- Hrows. apply mae_on_rows.
  intros r Hr. apply Hpos.
  apply (shared_rows_realized_in T_eq_dec pred_vol realized (snd r)).
  rewrite <- Hrows. apply in_map. exact Hr.
Qed.

Lemma qlike_loss_shared (pred realized : list (T * R)) (eps : R) :
  0 < eps -> NoDup (map fst realized) ->
  Evaluation.qlike_loss T_eq_dec (of_reals pred) (of_reals realized) eps
  = mean_reals (map (qlike_term eps) (shared_rows T_eq_dec pred realized)).
Proof.
  intros Heps Hnd. unfold Evaluation.qlike_loss.
  destruct (align_inner_rows T_eq_dec pred realized Hnd)
    as [rows [Halign Hrows]].
  rewrite Halign, <- Hrows. apply qlike_on_rows. exact Heps.
Qed.

Lemma mean_reals_zero (l : list R) :
  l <> [] -> (forall x, In x l -> x = 0) -> mean_reals l = Fin 0.
Proof.
  intros Hne Hz. destruct l as [|x l]; [contradiction|].
  change (Fin (Rsum (x :: l) / INR (length (x :: l))) = Fin 0). f_equal.
  assert (Hs : Rsum (x :: l) = 0).
  { revert Hz. generalize (x :: l). intros l' Hz. unfold Rsum.
    induction l' as [|y l' IH]; [reflexivity|]. simpl.
    rewrite (Hz y) by (left; reflexivity).
    rewrite IH by (intros z Hzin; apply Hz; right; exact Hzin). ring. }
  rewrite Hs. unfold Rdiv. ring.
Qed.

Lemma in_combine_same {A : Type} (l : list A) (a b : A) :
  In (a, b) (combine l l) -> a = b.
Proof.
  induction l as [|x l IH]; [contradiction|].
  intros [[= <- <-]|H]; [reflexivity|apply IH; exact H].
Qed.

Lemma sqrt_of_reals (s : list (T * R)) :
  (forall y, In y (map snd s) -> 0 <= y) ->
  smap fsqrt (of_reals s) = of_reals (map (fun p => (fst p, sqrt (snd p))) s).
Proof.
  intros Hpos. unfold smap, of_reals. rewrite !map_map.
  apply map_ext_in. intros [t y] Hin. simpl.
  assert (Hy : 0 <= y) by (apply Hpos; apply (in_map snd _ _ Hin)).
  destruct (Rlt_dec y 0); [lra|reflexivity].
Qed.

End LossesMore.

(** X17 -- a perfect forecast scores zero: for a non-empty realized
    variance series of non-negative values without repeated timestamps,
    the squared error of the series against itself and the absolute error
    of its square roots against it are both 0. *)
Theorem perfect_forecast_scores_zero {T : Type}
  (T_eq_dec : forall a b : T, {a = b} + {a <> b}) (s : list (T * R)) :
  s <> [] ->
  NoDup (map fst s) ->
  (forall y, In y (map snd s) -> 0 <= y) ->
  Evaluation.mse_variance T_eq_dec (of_reals s) (of_reals s) = Fin 0
  /\ Evaluation.mae_volatility T_eq_dec (smap fsqrt (of_reals s)) (of_reals s)
     = Fin 0.
Proof.
  intros Hne Hnd Hpos. split.
  - rewrite mse_variance_shared by exact Hnd.
    rewrite shared_rows_same_index by (reflexivity || exact Hnd).
    apply mean_reals_zero.
    + destruct s; [contradiction|discriminate].
    + intros x Hx. apply in_map_iff in Hx. destruct Hx as [fy [<- Hfy]].
      apply in_map_iff in Hfy. destruct Hfy as [[p q] [<- Hpq]].
      apply in_combine_same in Hpq. subst q.
      unfold mse_term, sq. simpl. ring.
  - rewrite sqrt_of_reals by exact Hpos.
    rewrite mae_volatility_shared by assumption.
    rewrite shared_rows_same_index;
      [|rewrite map_map; reflexivity|exact Hnd].
    apply mean_reals_zero.
    + destruct s; [contradiction|discriminate].
    + intros x Hx. apply in_map_iff in Hx. destruct Hx as [fy [<- Hfy]].
      apply in_map_iff in Hfy. destruct Hfy as [[p q] [<- Hpq]].
      assert (Hp : p = (fst q, sqrt (snd q))).
      { clear - Hpq. induction s as [|a s IH]; [contradiction|].
        destruct Hpq as [[= <- <-]|H]; [reflexivity|apply IH; exact H]. }
      subst p. unfold mae_term. simpl.
      replace (sqrt (snd q) - sqrt (snd q)) with 0 by ring. apply Rabs_R0.
Qed.

Lemma perfect_forecast_scores_zero_witness :
  Evaluation.mse_variance Z.eq_dec (of_reals [(0%Z, 4); (1%Z, 9)])
    (of_reals [(0%Z, 4); (1%Z, 9)]) = Fin 0.
Proof.
  refine (proj1 (perfect_forecast_scores_zero Z.eq_dec [(0%Z, 4); (1%Z, 9)]
                   _ _ _)).
  - discriminate.
  - repeat constructor; simpl; intuition discriminate.
  - intros y [<-|[<-|[]]]; simpl; lra.
Defined.

Lemma ln_le_minus_one (x : R) : 0 < x -> ln x <= x - 1.
Proof.
  intros Hx. pose proof (exp_ineq1_le (ln x)) as H.
  rewrite exp_ln in H by exact Hx. lra.
Qed.

(** The QLIKE term of a forecast is at least that of the realized variance
    itself. *)
Lemma qlike_term_min (eps f y : R) :
  0 < eps -> eps <= y -> qlike_term eps (y, y) <= qlike_term eps (f, y).
Proof.
  intros Heps Hy. unfold qlike_term. simpl.
  rewrite (Rmax_left y eps) by exact Hy.
  set (m := Rmax f eps).
  assert (Hm : 0 < m) by (apply Rlt_le_trans with eps; [exact Heps|apply Rmax_r]).
  assert (Hy0 : 0 < y) by lra.
  assert (Hq : 0 < y / m) by (apply Rdiv_lt_0_compat; assumption).
  pose proof (ln_le_minus_one (y / m) Hq) as Hln.
  rewrite ln_quotient in Hln by assumption.
  replace (y / y) with 1 by (field; lra). lra.
Qed.

Section QlikeMinimum.
Context {T : Type} (T_eq_dec : forall a b : T, {a = b} + {a <> b}).

Lemma qlike_sums (eps : R) (pred realized : list (T * R)) :
  0 < eps ->
  map fst pred = map fst realized ->
  (forall y, In y (map snd realized) -> eps <= y) ->
  Rsum (map (qlike_term eps)
          (map (fun pr => (snd (fst pr), snd (snd pr)))
               (combine realized realized)))
  <= Rsum (map (qlike_term eps)
             (map (fun pr => (snd (fst pr), snd (snd pr)))
                  (combine pred realized)))
  /\ length (combine realized realized) = length realized
  /\ length (combine pred realized) = length realized.
Proof.
  intros Heps. revert realized.
  induction pred as [|[t f] pred IH]; intros [|[t' y] realized] Hidx Hy;
    simpl in Hidx; try discriminate.
  - simpl. repeat split; reflexivity.
  - injection Hidx as _ Hidx.
    destruct (IH realized Hidx) as [H1 [H2 H3]].
    { intros z Hz. apply Hy. right. exact Hz. }
    cbn [combine map Rsum fold_right length fst snd].
    split; [|split; congruence].
    pose proof (qlike_term_min eps f y Heps (Hy y (or_introl eq_refl))) as Ht.
    unfold Rsum in H1. lra.
Qed.

End QlikeMinimum.

(** X18 -- QLIKE is minimised by the realized variance: for a forecast and
    a non-empty realized series over the same timestamps (without
    repetition), with every realized variance at least [eps > 0], the loss
    of the forecast is a defined number that is at least the loss of the
    realized series used as its own forecast. *)
Theorem qlike_minimised_by_realized {T : Type}
  (T_eq_dec : forall a b : T, {a = b} + {a <> b})
  (pred realized : list (T * R)) (eps : R) :
  0 < eps ->
  realized <> [] ->
  NoDup (map fst realized) ->
  map fst pred = map fst realized ->
  (forall y, In y (map snd realized) -> eps <= y) ->
  exists a b : R,
    Evaluation.qlike_loss T_eq_dec (of_reals pred) (of_reals realized) eps
    = Fin a
    /\ Evaluation.qlike_loss T_eq_dec (of_reals realized) (of_reals realized)
         eps = Fin b
    /\ b <= a.
Proof.
  intros Heps Hne Hnd Hidx Hy.
  rewrite !qlike_loss_shared by assumption.
  rewrite !shared_rows_same_index by (reflexivity || assumption).
  destruct (qlike_sums eps pred realized Heps Hidx Hy) as [Hsum [Hl1 Hl2]].
  assert (Hn : (0 < length realized)%nat)
    by (destruct realized; [contradiction|simpl; lia]).
  set (l1 := map (qlike_term eps)
               (map (fun pr => (snd (fst pr), snd (snd pr)))
                    (combine pred realized))) in *.
  set (l2 := map (qlike_term eps)
               (map (fun pr => (snd (fst pr), snd (snd pr)))
                    (combine realized realized))) in *.
  assert (Hlen1 : length l1 = length realized)
    by (unfold l1; rewrite !length_map; exact Hl2).
  assert (Hlen2 : length l2 = length realized)
    by (unfold l2; rewrite !length_map; exact Hl1).
  exists (Rsum l1 / INR (length l1)), (Rsum l2 / INR (length l2)).
  split; [|split].
  - destruct l1; [simpl in Hlen1; lia|reflexivity].
  - destruct l2; [simpl in Hlen2; lia|reflexivity].
  - rewrite Hlen1, Hlen2. apply Rmult_le_compat_r; [|exact Hsum].
    apply Rlt_le, Rinv_0_lt_compat, lt_0_INR. exact Hn.
Qed.

Lemma qlike_minimised_by_realized_witness :
  exists a b : R,
    Evaluation.qlike_loss Z.eq_dec (of_reals [(0%Z, 2)]) (of_reals [(0%Z, 1)])
      Evaluation.default_eps = Fin a
    /\ Evaluation.qlike_loss Z.eq_dec (of_reals [(0%Z, 1)])
         (of_reals [(0%Z, 1)]) Evaluation.default_eps = Fin b
    /\ b <= a.
Proof.
  apply (qlike_minimised_by_realized Z.eq_dec [(0%Z, 2)] [(0%Z, 1)]).
  - unfold Evaluation.default_eps. lra.
  - discriminate.
  - repeat constructor. simpl. tauto.
  - reflexivity.
  - intros y [<-|[]]. unfold Evaluation.default_eps. simpl. lra.
Defined.

(** X19 -- without a shared timestamp the three loss functions return the
    undefined marker; none of them raises. *)
Theorem losses_without_shared_timestamp {T : Type}
  (T_eq_dec : forall a b : T, {a = b} + {a <> b})
  (pred realized : series T) (eps : R) :
  (forall t, In t (index pred) -> ~ In t (index realized)) ->
  Evaluation.mse_variance T_eq_dec pred realized = NaN
  /\ Evaluation.mae_volatility T_eq_dec pred realized = NaN
  /\ Evaluation.qlike_loss T_eq_dec pred realized eps = NaN.
Proof.
  intros Hdis.
  assert (Halign : Evaluation.align_inner T_eq_dec pred realized = ([], [])).
  { unfold Evaluation.align_inner.
    destruct (list_eq_dec T_eq_dec (index pred) (index realized)) as [E|_].
    - destruct pred as [|[t x] pred].
      + destruct realized; [reflexivity|discriminate].
      + exfalso. apply (Hdis t); [left; reflexivity|].
        rewrite <- E. left. reflexivity.
    - assert (Hrows : flat_map
                (fun p => map (fun y => (fst p, (snd p, y)))
                            (Evaluation.lookup_all T_eq_dec (fst p) realized))
                pred = []).
      { induction pred as [|[t x] pred IH]; [reflexivity|]. simpl.
        rewrite lookup_all_not_in by (apply Hdis; left; reflexivity).
        simpl. apply IH. intros t' Ht'. apply Hdis. right. exact Ht'. }
      rewrite Hrows. reflexivity. }
  unfold Evaluation.mse_variance, Evaluation.mae_volatility,
    Evaluation.qlike_loss.
  rewrite Halign. repeat split; reflexivity.
Qed.

Lemma losses_without_shared_timestamp_witness :
  Evaluation.mse_variance Z.eq_dec unit_returns shifted_returns = NaN.
Proof.
  refine (proj1 (losses_without_shared_timestamp Z.eq_dec unit_returns
                   shifted_returns 1 _)).
  intros t [<-|[]] [H|[]]. discriminate H.
Defined.

(** ** Scoring: the rows of the metrics table *)

Section MetricRows.
Context {T : Type} (T_eq_dec : forall a b : T, {a = b} + {a <> b}).

Lemma for_each_rows {A K : Type} (key : Evaluation.metric -> K)
  (ks : A -> list K) (xs : list A)
  (body : A -> list Evaluation.metric -> result (list Evaluation.metric))
  (m0 : list Evaluation.metric) :
  (forall x m, In x xs ->
     exists rs, body x m = Ok (m ++ rs) /\ map key rs = ks x) ->
  exists rows,
    for_each xs body m0 = Ok (m0 ++ rows)
    /\ map key rows = flat_map ks xs.
Proof.
  revert m0. induction xs as [|x xs IH]; intros m0 Hbody.
  - exists []. rewrite app_nil_r. split; reflexivity.
  - destruct (Hbody x m0 (or_introl eq_refl)) as [rs [Hx Hk]].
    destruct (IH (m0 ++ rs)) as [rows [Hrest Hkeys]].
    { intros y m Hy. apply Hbody. right. exact Hy. }
    exists (rs ++ rows). split.
    + simpl. rewrite Hx. simpl. rewrite Hrest, app_assoc. reflexivity.
    + simpl. rewrite map_app, Hk, Hkeys. reflexivity.
Qed.

Lemma lookup_all_in {V : Type} (t : T) (s : list (T * V)) :
  In t (index s) -> Evaluation.lookup_all T_eq_dec t s <> [].
Proof.
  unfold Evaluation.lookup_all, index.
  induction s as [|[t' v] s IH]; intros Hin; [contradiction|]. simpl.
  destruct (T_eq_dec t' t) as [_|Hne]; [discriminate|].
  apply IH. destruct Hin as [E|Hin]; [contradiction|exact Hin].
Qed.

Lemma loc_ok (s : series T) (labels : list T) :
  (forall t, In t labels -> In t (index s)) ->
  exists r, Evaluation.loc T_eq_dec s labels = Ok r.
Proof.
  induction labels as [|t labels IH]; intros Hall.
  - exists []. reflexivity.
  - destruct IH as [r Hr].
    { intros t' Ht'. apply Hall. right. exact Ht'. }
    simpl. pose proof (lookup_all_in t s (Hall t (or_introl eq_refl))) as Hne.
    destruct (Evaluation.lookup_all T_eq_dec t s) as [|v vs];
      [contradiction|].
    rewrite Hr. eexists. reflexivity.
Qed.

End MetricRows.

(** X20 -- the rows of the metrics table.  For a well-formed forecast
    table with at least one column whose timestamps all occur in the
    return series, [evaluate_forecasts] returns one row per column, keyed
    by the column name, when [realized_windows] is omitted, and one row
    per (column, window) pair, columns first, when a non-empty list of
    positive windows is given. *)
Theorem evaluate_forecasts_rows_keys {T : Type}
  (T_eq_dec : forall a b : T, {a = b} + {a <> b})
  (forecast_var : Evaluation.DataFrame T) (returns : series T)
  (annualize_pred : bool) (periods_per_year : Z) :
  well_formed forecast_var ->
  (forall t, In t (Evaluation.df_index forecast_var) ->
             In t (index returns)) ->
  Evaluation.df_columns forecast_var <> [] ->
  let names := map fst (Evaluation.df_columns forecast_var) in
  metric_keys (Evaluation.evaluate_forecasts T_eq_dec forecast_var returns
                 None annualize_pred periods_per_year)
  = Ok (map (fun c => (c, @None Z)) names)
  /\ forall ws : list Z,
       ws <> [] -> (forall w, In w ws -> (0 < w)%Z) ->
       metric_keys (Evaluation.evaluate_forecasts T_eq_dec forecast_var
                      returns (Some ws) annualize_pred periods_per_year)
       = Ok (flat_map (fun c => map (fun w => (c, Some w)) ws) names).
Proof.
  intros Hwf Hlabels Hcols names.
  set (key := fun x : Evaluation.metric =>
                (Evaluation.model x, Evaluation.window x)).
  assert (Hfinish : forall (rows : list Evaluation.metric)
                      (keys : list (string * option Z)),
             keys <> [] -> map key rows = keys ->
             metric_keys (Evaluation.set_index rows) = Ok keys).
  { intros rows keys Hne Hk. destruct rows as [|r rows].
    - simpl in Hk. congruence.
    - simpl. f_equal. exact Hk. }
  assert (Hnames : names <> []).
  { unfold names. destruct (Evaluation.df_columns forecast_var);
      [contradiction|discriminate]. }
  split.
  - unfold Evaluation.evaluate_forecasts.
    destruct (loc_ok T_eq_dec (smap fsq returns)
                (Evaluation.df_index forecast_var)) as [rv Hrv].
    { intros t Ht. rewrite index_smap. apply Hlabels. exact Ht. }
    rewrite Hrv. cbn [bind]. fold names.
    match goal with
    | |- context [for_each names ?b []] =>
        destruct (for_each_rows key (fun c => [(c, @None Z)]) names b [])
          as [rows [Hrun Hkeys]]
    end.
    { intros col m Hcol.
      destruct (column_index forecast_var col Hwf Hcol) as [vp [Hvp _]].
      rewrite Hvp. simpl. eexists. split; reflexivity. }
    rewrite Hrun. cbv iota beta. simpl app. apply Hfinish.
    + destruct names; [contradiction|discriminate].
    + rewrite Hkeys. clear. induction names; simpl; congruence.
  - intros ws Hws Hpos. unfold Evaluation.evaluate_forecasts.
    destruct (windowed_realized_variance_ok returns ws periods_per_year Hpos)
      as [var [Hvar Hget]].
    rewrite Hvar. cbn [bind]. fold names.
    match goal with
    | |- context [for_each names ?b []] =>
        destruct (for_each_rows key
                    (fun c => map (fun w => (c, Some w)) ws) names b [])
          as [rows [Hrun Hkeys]]
    end.
    { intros col m Hcol.
      destruct (column_index forecast_var col Hwf Hcol) as [vp [Hvp Hidx]].
      rewrite Hvp. simpl bind.
      match goal with
      | |- context [for_each ws ?b m] =>
          destruct (for_each_rows key (fun w => [(col, Some w)]) ws b m)
            as [rows [Hrun Hkeys]]
      end.
      - intros w m' Hw. rewrite (Hget w Hw). simpl bind.
        destruct (loc_ok T_eq_dec (smap fsq (rv_column returns
                                               periods_per_year w))
                    (index (smap (fun x => fmul x
                                     (if annualize_pred
                                      then of_int periods_per_year
                                      else Fin 1)) vp))) as [rv Hrv].
        { intros t Ht. rewrite index_smap, index_rv_column.
          apply Hlabels. rewrite index_smap, Hidx in Ht. exact Ht. }
        rewrite Hrv. simpl. eexists. split; reflexivity.
      - exists rows. split; [exact Hrun|]. rewrite Hkeys. clear.
        induction ws; simpl; congruence. }
    rewrite Hrun. cbv iota beta. simpl app. apply Hfinish; [|exact Hkeys].
    destruct names as [|c names']; [contradiction|].
    destruct ws as [|w ws']; [contradiction|]. discriminate.
Qed.

Lemma evaluate_forecasts_rows_keys_witness :
  metric_keys (Evaluation.evaluate_forecasts Z.eq_dec const_forecast
                 test_returns None false 252)
  = Ok (map (fun c => (c, @None Z))
            (map fst (Evaluation.df_columns const_forecast))).
Proof.
  refine (proj1 (evaluate_forecasts_rows_keys Z.eq_dec const_forecast
                   test_returns false 252 _ _ _)).
  - intros col vals [[= <- <-]|[]]. reflexivity.
  - intros t [<-|[<-|[]]]; simpl; tauto.
  - discriminate.
Defined.

(** ** Realized volatility and variance: sign, unit window, repeated
    windows *)

Section DictMore.
Context {V : Type}.

Lemma dict_get_in (k : Z) (v : V) (d : list (Z * V)) :
  Evaluation.dict_get k d = Ok v -> In (k, v) d.
Proof.
  induction d as [|[k' v'] d IH]; simpl; [discriminate|].
  destruct (k' =? k)%Z eqn:E.
  - apply Z.eqb_eq in E. intros [= <-]. left. rewrite E. reflexivity.
  - intros H. right. apply IH. exact H.
Qed.

Lemma dict_set_keys (k : Z) (v : V) (d : list (Z * V)) :
  map fst (Evaluation.dict_set k v d)
  = if in_dec Z.eq_dec k (map fst d) then map fst d else map fst d ++ [k].
Proof.
  induction d as [|[k' v'] d IH]; simpl; [reflexivity|].
  destruct (k' =? k)%Z eqn:E.
  - apply Z.eqb_eq in E. rewrite E. simpl.
    destruct (Z.eq_dec k k) as [Hk|N]; [reflexivity|contradiction].
  - apply Z.eqb_neq in E. simpl. rewrite IH.
    destruct (Z.eq_dec k' k) as [E'|Hn]; [contradiction|].
    destruct (in_dec Z.eq_dec k (map fst d)); reflexivity.
Qed.

Lemma dict_set_entries (k : Z) (v : V) (d : list (Z * V)) (e : Z * V) :
  In e (Evaluation.dict_set k v d) -> e = (k, v) \/ In e d.
Proof.
  induction d as [|[k' v'] d IH]; simpl.
  - intros [<-|[]]. left. reflexivity.
  - destruct (k' =? k)%Z.
    + intros [<-|H]; [left; reflexivity|right; right; exact H].
    + intros [<-|H]; [right; left; reflexivity|].
      destruct (IH H) as [->|H']; [left; reflexivity|right; right; exact H'].
Qed.

End DictMore.

Section RealizedMore.
Context {T : Type}.
Variables (returns : series T) (periods_per_year : Z).

Local Abbreviation col_of := (rv_column returns periods_per_year).
Local Abbreviation fill :=
  (fold_left (fun d w => Evaluation.dict_set w (col_of w) d)).

Lemma rv_fold_entries (windows : list Z) (data : list (Z * series T))
  (e : Z * series T) :
  (forall e', In e' data -> snd e' = col_of (fst e')) ->
  In e (fill windows data) -> snd e = col_of (fst e).
Proof.
  revert data. induction windows as [|w ws IH]; intros data Hdata Hin;
    simpl in Hin; [apply Hdata; exact Hin|].
  apply (IH (Evaluation.dict_set w (col_of w) data)); [|exact Hin].
  intros e' He'. apply dict_set_entries in He'.
  destruct He' as [->|He']; [reflexivity|apply Hdata; exact He'].
Qed.

Lemma rv_fold_keys (windows : list Z) (data : list (Z * series T)) :
  NoDup (map fst data) ->
  NoDup (map fst (fill windows data))
  /\ (forall w, In w (map fst (fill windows data))
                <-> In w (map fst data) \/ In w windows)
  /\ (length (fill windows data) <= length data + length windows)%nat.
Proof.
  revert data. induction windows as [|w ws IH]; intros data Hnd; simpl.
  - split; [exact Hnd|]. split; [intros w; tauto|lia].
  - assert (Hkeys := dict_set_keys w (col_of w) data).
    assert (Hnd' : NoDup (map fst (Evaluation.dict_set w (col_of w) data))).
    { rewrite Hkeys. destruct (in_dec Z.eq_dec w (map fst data)) as [Hin|Hin];
        [exact Hnd|].
      apply NoDup_app; [exact Hnd|repeat constructor; intros []|].
      intros x Hx [<-|[]]. contradiction. }
    destruct (IH _ Hnd') as [H1 [H2 H3]].
    split; [exact H1|]. split.
    + intros w'. rewrite H2, Hkeys.
      destruct (in_dec Z.eq_dec w (map fst data)) as [Hin|Hin].
      * split; [intros [H|H]; auto|intros [H|[<-|H]]; auto].
      * rewrite in_app_iff. simpl. tauto.
    + assert (Hl : (length (Evaluation.dict_set w (col_of w) data)
                    <= S (length data))%nat).
      { rewrite <- (length_map fst), Hkeys.
        destruct (in_dec Z.eq_dec w (map fst data));
          rewrite ?length_app, length_map; simpl; lia. }
      lia.
Qed.

Lemma windowed_realized_volatility_inv (windows : list Z)
  (vol : list (Z * series T)) :
  Evaluation.windowed_realized_volatility returns windows periods_per_year
  = Ok vol ->
  (forall w, In w windows -> (0 < w)%Z) /\ vol = fill windows [].
Proof.
  intros Hrun. rewrite windowed_realized_volatility_loop in Hrun.
  destruct (windows_positive_or_not windows) as [Hpos|Hbad].
  - split; [exact Hpos|]. rewrite rv_loop_ok in Hrun by exact Hpos.
    injection Hrun as <-. reflexivity.
  - rewrite rv_loop_raises in Hrun by exact Hbad. discriminate.
Qed.

Lemma fsqrt_nonneg (a : num) : defined_nonneg (fsqrt a).
Proof.
  destruct a as [|x]; [exact I|]. unfold fsqrt.
  destruct (Rlt_dec x 0); [exact I|]. simpl. apply sqrt_pos.
Qed.

Lemma fsq_nonneg (a : num) : defined_nonneg (fsq a).
Proof.
  destruct a as [|x]; [exact I|]. simpl. exact (Rle_0_sqr x).
Qed.

Lemma in_values_smap (f : num -> num) (s : series T) (x : num) :
  In x (values (smap f s)) -> exists y, x = f y.
Proof.
  rewrite values_smap. intros H. apply in_map_iff in H.
  destruct H as [y [<- _]]. exists y. reflexivity.
Qed.

End RealizedMore.

(** X21 -- realized volatility and realized variance are never negative:
    whatever [periods_per_year], every value of every column returned by
    [windowed_realized_volatility] and by [windowed_realized_variance] is
    the undefined marker or a number [>= 0]. *)
Theorem realized_values_nonneg {T : Type} (returns : series T)
  (windows : list Z) (periods_per_year : Z) :
  (forall vol w col x,
     Evaluation.windowed_realized_volatility returns windows periods_per_year
     = Ok vol ->
     Evaluation.dict_get w vol = Ok col -> In x (values col) ->
     defined_nonneg x)
  /\ (forall var w col x,
        Evaluation.windowed_realized_variance returns windows periods_per_year
        = Ok var ->
        Evaluation.dict_get w var = Ok col -> In x (values col) ->
        defined_nonneg x).
Proof.
  split.
  - intros vol w col x Hrun Hget Hx.
    apply windowed_realized_volatility_inv in Hrun. destruct Hrun as [_ ->].
    apply dict_get_in in Hget.
    apply (rv_fold_entries returns periods_per_year windows []) in Hget;
      [|intros e' []].
    simpl in Hget. subst col. unfold rv_column in Hx.
    apply in_values_smap in Hx. destruct Hx as [y ->]. apply fsqrt_nonneg.
  - intros var w col x Hrun Hget Hx.
    unfold Evaluation.windowed_realized_variance in Hrun.
    destruct (Evaluation.windowed_realized_volatility returns windows
                periods_per_year) as [vol|e]; [|discriminate].
    simpl in Hrun. injection Hrun as <-.
    rewrite dict_get_map in Hget.
    destruct (Evaluation.dict_get w vol) as [c|e]; [|discriminate].
    simpl in Hget. injection Hget as <-.
    apply in_values_smap in Hx. destruct Hx as [y ->]. apply fsq_nonneg.
Qed.

Lemma realized_values_nonneg_witness :
  defined_nonneg (nth 1 (values (rv_column test_returns (-252) 2)) NaN).
Proof.
  refine (proj1 (realized_values_nonneg test_returns [2%Z] (-252))
            [(2%Z, rv_column test_returns (-252) 2)] 2%Z
            (rv_column test_returns (-252) 2) _ eq_refl eq_refl _).
  apply nth_In.
  rewrite length_values, <- length_index, index_rv_column, length_index.
  simpl. lia.
Defined.

Lemma series_ext {T : Type} (a b : series T) :
  index a = index b -> values a = values b -> a = b.
Proof.
  revert b. induction a as [|[t x] a IH]; intros [|[t' y] b] Hi Hv;
    simpl in *; try discriminate; [reflexivity|].
  injection Hi as <- Hi. injection Hv as <- Hv. f_equal. apply IH; assumption.
Qed.

(** X22 -- the two references of [evaluate_forecasts] meet: with window 1
    and [periods_per_year = 1], the realized variance column is the series
    of squared returns, the reference used when [realized_windows] is
    omitted. *)
Theorem realized_variance_unit_window {T : Type} (returns : series T) :
  exists var : list (Z * series T),
    Evaluation.windowed_realized_variance returns [1%Z] 1 = Ok var
    /\ Evaluation.dict_get 1 var = Ok (smap fsq returns).
Proof.
  destruct (windowed_realized_variance_ok returns [1%Z] 1) as [var [Hvar Hget]].
  { intros w [<-|[]]. lia. }
  exists var. split; [exact Hvar|].
  rewrite (Hget 1%Z (or_introl eq_refl)). f_equal.
  apply series_ext.
  - rewrite !index_smap. apply index_rv_column.
  - assert (Hl : length (rv_column returns 1 1) = length returns).
    { rewrite <- (length_index (rv_column returns 1 1)), index_rv_column.
      apply length_index. }
    apply (nth_ext _ _ NaN NaN).
    + rewrite !values_smap, !length_map, !length_values. exact Hl.
    + intros i Hi. rewrite !values_smap in *.
      rewrite length_map, length_values, Hl in Hi.
      assert (Hlen : (i < length returns)%nat) by exact Hi.
      assert (Hm : forall l, nth i (map fsq l) NaN = fsq (nth i l NaN))
        by (intros l; exact (map_nth fsq l NaN i)).
      rewrite !Hm.
      rewrite rv_column_nth by exact Hlen.
      replace (i + 1 <? Z.to_nat 1)%nat with false
        by (symmetry; apply Nat.ltb_ge; lia).
      unfold window_ending_at.
      replace (i + 1 - Z.to_nat 1)%nat with i by lia.
      assert (Hw : firstn (Z.to_nat 1) (skipn i (values returns))
                   = [nth i (values returns) NaN]).
      { rewrite <- (length_values returns) in Hlen.
        clear -Hlen. revert i Hlen. generalize (values returns).
        induction l as [|x l IH]; intros i Hi; simpl in Hi; [lia|].
        destruct i as [|i]; [reflexivity|]. apply IH. lia. }
      rewrite Hw. simpl map. simpl Evaluation.fsum.
      unfold of_int, fdiv.
      destruct (Req_dec_T 1 0) as [E|_]; [lra|].
      destruct (nth i (values returns) NaN) as [|r]; [reflexivity|].
      rewrite fsq_fsqrt.
      * simpl. f_equal. field.
      * simpl. pose proof (Rle_0_sqr r) as Hr. unfold Rsqr in Hr.
        replace (1 / 1 * (r * r + 0)) with (r * r) by field. exact Hr.
Qed.

(** X23 -- repeated windows.  The table returned by
    [windowed_realized_volatility] has one column per distinct requested
    window: its keys are exactly the requested windows, none occurs
    twice, and each column is the one computed for its window. *)
Theorem realized_volatility_columns {T : Type} (returns : series T)
  (windows : list Z) (periods_per_year : Z) (vol : list (Z * series T)) :
  Evaluation.windowed_realized_volatility returns windows periods_per_year
  = Ok vol ->
  NoDup (map fst vol)
  /\ (forall w, In w (map fst vol) <-> In w windows)
  /\ (length vol <= length windows)%nat
  /\ (forall w, In w windows ->
        Evaluation.dict_get w vol = Ok (rv_column returns periods_per_year w)).
Proof.
  intros Hrun. apply windowed_realized_volatility_inv in Hrun.
  destruct Hrun as [_ ->].
  destruct (rv_fold_keys returns periods_per_year windows [])
    as [H1 [H2 H3]]; [constructor|].
  split; [exact H1|]. split; [|split].
  - intros w. rewrite H2. simpl. tauto.
  - simpl in H3. exact H3.
  - intros w Hw. apply rv_fold_get. left. exact Hw.
Qed.

Lemma realized_volatility_columns_witness :
  NoDup (map fst [(2%Z, rv_column test_returns 252 2)])
  /\ (length [(2%Z, rv_column test_returns 252 2)] <= length [2%Z; 2%Z])%nat.
Proof.
  destruct (realized_volatility_columns test_returns [2%Z; 2%Z] 252
              [(2%Z, rv_column test_returns 252 2)] eq_refl)
    as [H1 [_ [H3 _]]].
  split; [exact H1|exact H3].
Defined.
